(** * BudgetBuddy: the expense aggregation and query model

    A shallow embedding of the aggregation code of the dashboard
    (graphs.js: [categoryTotals], [monthlyTotals]) and of the request
    handlers of the Express server ([validateExpense], the routes of
    /api/expenses, the [top] intent of /api/chat, [totalBetween] and the
    add-expense command of /api/chatbot).

    Conventions of the model.
    - A JavaScript number, and a REAL of SQLite, is an IEEE 754 binary64
      number: a primitive [float], whose addition, subtraction and
      comparisons are those of the hardware, with their rounding, their
      NaN and their two zeros. Years, months and days stay integers.
    - What the source leaves to its platform is a parameter of the
      sections that use it: the aggregate SUM of SQLite over a REAL
      column, whose summation algorithm differs between releases;
      [String.prototype.trim]; whether [Date] parsing carries a day past
      the end of a month over; the offset of local time; the text that
      the sqlite3 driver binds for an array.
    - A field of a JSON body may be any JSON value; a method called on
      a value that has none throws, and Express answers with status 500.
    - A string is the sequence of its UTF-8 bytes, so that [String.compare]
      is the order of SQLite's BINARY collation.
    - A plain JavaScript object used as a dictionary is the list of its
      own properties in creation order, read through [Object.prototype]
      and enumerated in own-property order.
    - [Array.prototype.sort] is stable; it is the insertion sort [sortBy],
      and every stable sort returns the same list when the comparison is
      a total preorder. ORDER BY is the same sort over the table in rowid
      order: SQLite promises no order among rows that compare equal, and
      the model keeps them in scan order. Only the statement about ties
      of the [top] intent depends on that choice. *)

From Stdlib Require Import ZArith NArith List String Ascii Bool Lia.
From Stdlib Require Import Floats.
From Stdlib Require Import DecimalString DecimalZ.
From Stdlib Require Import Sorting.Sorted Sorting.Permutation.
Import ListNotations.

Local Open Scope string_scope.
Local Open Scope list_scope.
Local Open Scope Z_scope.

(** A decimal literal denotes the nearest double, as in JavaScript. *)
#[local] Set Warnings "-inexact-float".

(** ** Stable sorting *)

Section StableSort.
Context {A : Type}.
Variable le : A -> A -> bool.

Fixpoint insertBy (x : A) (l : list A) : list A :=
  match l with
  | [] => [x]
  | y :: ys => if le x y then x :: y :: ys else y :: insertBy x ys
  end.

Fixpoint sortBy (l : list A) : list A :=
  match l with
  | [] => []
  | x :: xs => insertBy x (sortBy xs)
  end.

(** The order of the result: [a] comes before [b] when [le a b] and, if
    also [le b a], when [a] came before [b] in the input. [P] is any
    relation that holds from each element of the input to the later ones. *)
Definition sortedStably (P : A -> A -> Prop) (a b : A) : Prop :=
  le a b = true /\ (le b a = true -> P a b).
End StableSort.

(** ** JavaScript objects used as dictionaries *)

Module Js.

(** The values that reach the [sums] object of [categoryTotals].
    [Member k] is the value of [Object.prototype[k]] (a function, or
    [Object.prototype] itself for [__proto__]); [Str k l] is the string
    that [Member k] converts to, followed by the decimal text of each
    number of [l]: what [+] builds from a member and numbers. *)
Inductive value :=
| Undefined
| Num (n : float)
| Str (member : string) (appended : list float)
| Member (name : string).

(** Own properties, oldest first. *)
Definition object := list (string * value).

(** Property names every plain object inherits from [Object.prototype]. *)
Definition prototypeKeys : list string :=
  [ "constructor"; "__defineGetter__"; "__defineSetter__"; "hasOwnProperty";
    "__lookupGetter__"; "__lookupSetter__"; "isPrototypeOf";
    "propertyIsEnumerable"; "toString"; "valueOf"; "__proto__";
    "toLocaleString" ].

Definition inherited (k : string) : bool :=
  existsb (String.eqb k) prototypeKeys.

Fixpoint own (o : object) (k : string) : option value :=
  match o with
  | [] => None
  | (k', v) :: o' => if String.eqb k k' then Some v else own o' k
  end.

(** [o[k]] *)
Definition get (o : object) (k : string) : value :=
  match own o k with
  | Some v => v
  | None => if inherited k then Member k else Undefined
  end.

Fixpoint replace (o : object) (k : string) (v : value) : object :=
  match o with
  | [] => []
  | (k', v') :: o' =>
      if String.eqb k k' then (k', v) :: o' else (k', v') :: replace o' k v
  end.

(** [o[k] = v] for a primitive [v]. Without an own property of that
    name, [__proto__] resolves to the accessor of [Object.prototype],
    whose setter ignores a value that is neither an object nor null. *)
Definition set (o : object) (k : string) (v : value) : object :=
  match own o k with
  | Some _ => replace o k v
  | None => if String.eqb k "__proto__" then o else (o ++ [(k, v)])%list
  end.

Definition isDigit (c : ascii) : bool :=
  ((48 <=? N_of_ascii c) && (N_of_ascii c <=? 57))%N.

Fixpoint digitsValue (s : string) (acc : N) : option N :=
  match s with
  | EmptyString => Some acc
  | String c s' =>
      if isDigit c then digitsValue s' (10 * acc + (N_of_ascii c - 48))%N
      else None
  end.

(** A property name is an array index when it is the canonical decimal
    text of an integer below 2^32 - 1. *)
Definition arrayIndex (k : string) : option N :=
  match k with
  | EmptyString => None
  | String c rest =>
      if Ascii.eqb c "0" && negb (String.eqb rest "") then None
      else match digitsValue k 0 with
           | Some n => if (n <? 4294967295)%N then Some n else None
           | None => None
           end
  end.

Definition isIndex (k : string) : bool :=
  match arrayIndex k with Some _ => true | None => false end.

Definition indexOf (k : string) : N :=
  match arrayIndex k with Some n => n | None => 0%N end.

(** Own-property order: array indices in ascending numeric order, then
    the other names in creation order. *)
Definition ownEntries (o : object) : list (string * value) :=
  (sortBy (fun a b => (indexOf (fst a) <=? indexOf (fst b))%N)
          (filter (fun p => isIndex (fst p)) o)
   ++ filter (fun p => negb (isIndex (fst p))) o)%list.

(** [Object.entries(o)] *)
Definition entries (o : object) : list (string * value) := ownEntries o.

(** [Object.keys(o)] *)
Definition keys (o : object) : list string := map fst (ownEntries o).

(** A number is falsy when it is NaN, 0 or -0. *)
Definition falsy (x : float) : bool := is_nan x || (x =? 0)%float.

(** [x || 0] for a number [x]. *)
Definition orZero (x : float) : float := if falsy x then 0%float else x.

(** [(cur || 0) + a] for a number [a]. *)
Definition orZeroPlus (cur : value) (a : float) : value :=
  match cur with
  | Undefined => Num (0 + a)%float
  | Num n => Num (orZero n + a)%float
  | Str k l => Str k (l ++ [a])%list
  | Member k => Str k [a]
  end.

(** [cur + a] for a number [a]; [undefined + a] is NaN. *)
Definition plus (cur : value) (a : float) : value :=
  match cur with
  | Undefined => Num nan
  | Num n => Num (n + a)%float
  | Str k l => Str k (l ++ [a])
  | Member k => Str k [a]
  end.

(** [k in o] *)
Definition has (o : object) (k : string) : bool :=
  match own o k with
  | Some _ => true
  | None => inherited k
  end.

(** [x - y]: NaN when an operand is undefined or a string that is not
    the text of a number. *)
Definition minus (x y : value) : float :=
  match x, y with
  | Num a, Num b => (a - b)%float
  | _, _ => nan
  end.

(** [arr.sort(cmp)]: [a] stays before [b] unless [cmp(a,b) > 0]; a NaN
    result counts as 0. When the comparator is no total preorder, as
    with a total that is a string, whose difference is NaN, the order of
    the result depends on the sorting algorithm of the engine; the
    statements sort numbers other than NaN, or a single pair. *)
Definition arraySort {A : Type} (cmp : A -> A -> float) (l : list A) : list A :=
  sortBy (fun a b => negb (0 <? cmp a b)%float) l.

(** [String(n)] for an integer [n]. *)
Definition decimal (n : Z) : string := NilZero.string_of_int (Z.to_int n).

(** [s.padStart(2,'0')] *)
Definition padStart2 (s : string) : string :=
  match s with
  | EmptyString => "00"
  | String c EmptyString => String "0" (String c EmptyString)
  | _ => s
  end.

(** [Number(s)] for a string of decimal digits (the empty string is 0);
    [None] is NaN. The pieces that [monthlyTotals] converts are digit
    strings or the text NaN. *)
Definition toNumber (s : string) : option Z :=
  match digitsValue s 0 with
  | Some n => Some (Z.of_N n)
  | None => None
  end.

Fixpoint splitAcc (sep : ascii) (s : string) (cur : string) : list string :=
  match s with
  | EmptyString => [cur]
  | String c s' =>
      if Ascii.eqb c sep then cur :: splitAcc sep s' ""
      else splitAcc sep s' (cur ++ String c "")%string
  end.

(** [s.split(sep)] for a one-character separator. *)
Definition split (sep : ascii) (s : string) : list string := splitAcc sep s "".

(** [/^\d{4}-\d{2}-\d{2}$/.test(s)] *)
Definition datePattern (s : string) : bool :=
  (String.length s =? 10)%nat
  && forallb isDigit (list_ascii_of_string (substring 0 4 s))
  && String.eqb (substring 4 1 s) "-"
  && forallb isDigit (list_ascii_of_string (substring 5 2 s))
  && String.eqb (substring 7 1 s) "-"
  && forallb isDigit (list_ascii_of_string (substring 8 2 s)).

(** The number that a string of digits denotes, by place value. *)
Fixpoint pow10 (n : nat) : N :=
  match n with
  | O => 1%N
  | S n' => (10 * pow10 n')%N
  end.

Fixpoint placeValue (s : string) : N :=
  match s with
  | EmptyString => 0%N
  | String c s' => ((N_of_ascii c - 48) * pow10 (String.length s') + placeValue s')%N
  end.

Fixpoint allDigits (s : string) : bool :=
  match s with
  | EmptyString => true
  | String c s' => isDigit c && allDigits s'
  end.

(** Two strings of the same length that agree wherever one of them is
    not a digit are ordered as the numbers their digits denote. *)
Fixpoint sameShape (a b : string) : bool :=
  match a, b with
  | EmptyString, EmptyString => true
  | String c a', String d b' =>
      ((isDigit c && isDigit d) || (Ascii.eqb c d && (N_of_ascii c <? 48)%N))
      && sameShape a' b'
  | _, _ => false
  end.

End Js.

(** ** graphs.js *)

Module Client.
Import Js.

(** An expense as the dashboard receives it from /api/expenses; a
    missing (or null) field is [None]. *)
Record expense := mkExpense {
  id : Z;
  description : string;
  amount : option float;
  category : option string;
  date : string
}.

(** [e.category || 'Other'] *)
Definition categoryOf (e : expense) : string :=
  match category e with
  | Some c => if String.eqb c "" then "Other" else c
  | None => "Other"
  end.

(** [Number(e.amount || 0)] for an amount that is a number or missing. *)
Definition amountOf (e : expense) : float :=
  match amount e with
  | Some a => orZero a
  | None => 0%float
  end.

Definition addToSums (sums : object) (e : expense) : object :=
  let cat := categoryOf e in
  set sums cat (orZeroPlus (get sums cat) (amountOf e)).

Definition categoryTotals (expenses : list expense) : list (string * value) :=
  let sums := fold_left addToSums expenses [] in
  arraySort (fun a b => minus (snd b) (snd a)) (entries sums).

(** *** Vocabulary of the statements about [categoryTotals] *)

(** Numbers added from left to right, starting from 0, each addition
    rounded as the addition of doubles is. *)
Definition addAll (l : list float) : float :=
  fold_left PrimFloat.add l 0%float.

Definition sumAmounts (l : list expense) : float := addAll (map amountOf l).

(** The number a total is; a total that is not a number counts as 0. *)
Definition numberOf (v : value) : float :=
  match v with
  | Num n => n
  | _ => 0%float
  end.

Definition isNumber (v : value) : bool :=
  match v with
  | Num _ => true
  | _ => false
  end.

Definition sumNumbers (o : list (string * value)) : float :=
  addAll (map (fun p => numberOf (snd p)) o).

(** The sum of the totals, when each of them is a number. *)
Definition sumValues (l : list (string * value)) : option float :=
  if forallb (fun p => isNumber (snd p)) l then Some (sumNumbers l) else None.


(** No amount is below zero. *)
Definition noneNegative (l : list expense) : Prop :=
  forall e, In e l -> (0 <=? amountOf e)%float = true.






(** *** Dates

    A [Date] is read through its local year and month index only;
    [None] is Invalid Date. The range of time values (about 270000
    years around 1970) is not modelled. *)

(** [new Date(y, m, 1)] read with [getFullYear] and [getMonth]: a year
    from 0 to 99 means 1900 + year, and the month index carries into
    the year. *)
Definition newDate (y m : option Z) : option (Z * Z) :=
  match y, m with
  | Some y, Some m =>
      let y' := if (0 <=? y) && (y <=? 99) then 1900 + y else y in
      Some (y' + m / 12, m mod 12)
  | _, _ => None
  end.

Definition isLeap (y : Z) : bool :=
  ((y mod 4 =? 0) && negb (y mod 100 =? 0)) || (y mod 400 =? 0).

Definition daysInMonth (y m : Z) : Z :=
  if m =? 2 then (if isLeap y then 29 else 28)
  else if (m =? 4) || (m =? 6) || (m =? 9) || (m =? 11) then 30
  else 31.

(** [Date.parse] on the date-only form YYYY-MM-DD, which denotes
    midnight UTC of that day: year, month (1 to 12) and day. Any other
    text is Invalid Date here; every write path of the server checks
    [datePattern], so no other text reaches the dashboard. Engines
    differ on a day number from 29 to 31 past the end of the month:
    a [lenient] engine (V8, hence Chrome and Node) carries it over into
    the next month, so that 2025-02-30 is the second of March; the
    others (SpiderMonkey) answer Invalid Date. The result is the day
    the text denotes after that carry. *)
Definition parseDate (lenient : bool) (s : string) : option (Z * Z * Z) :=
  if datePattern s then
    match toNumber (substring 0 4 s), toNumber (substring 5 2 s),
          toNumber (substring 8 2 s) with
    | Some y, Some m, Some d =>
        if (1 <=? m) && (m <=? 12) && (1 <=? d) && (d <=? 31) then
          if d <=? daysInMonth y m then Some (y, m, d)
          else if lenient then Some (y, m + 1, d - daysInMonth y m)
          else None
        else None
    | _, _, _ => None
    end
  else None.

Section Monthly.

(** Whether the engine carries a day past the end of a month over. *)
Variable lenient : bool.

(** Whether local time is behind UTC (a negative offset, as in the
    Americas) at midnight UTC of the given day. *)
Variable behindUTC : Z -> Z -> Z -> bool.

(** [toLocaleString(undefined, { month: 'short', year: 'numeric' })]
    of a valid date, from its year and month index. *)
Variable monthYear : Z -> Z -> string.

(** [new Date(s)] read with [getFullYear] and [getMonth]. Midnight UTC
    is the evening of the previous day in a zone behind UTC, and the
    previous day of the first of a month lies in the month before. *)
Definition dateOfString (s : string) : option (Z * Z) :=
  match parseDate lenient s with
  | Some (y, m, d) =>
      if (d =? 1) && behindUTC y m d
      then Some (y + (m - 2) / 12, (m - 2) mod 12)
      else Some (y, m - 1)
  | None => None
  end.

(** [`${d.getFullYear()}-${String(d.getMonth()+1).padStart(2,'0')}`] *)
Definition monthKey (d : option (Z * Z)) : string :=
  match d with
  | Some (y, m) => (decimal y ++ "-" ++ padStart2 (decimal (m + 1)))%string
  | None => "NaN-NaN"
  end.

(** The label of a key: [l.split('-')], [new Date(y, Number(m)-1, 1)]
    and [toLocaleString]. *)
Definition prettyLabel (l : string) : string :=
  let parts := split "-" l in
  let y := match nth_error parts 0 with Some t => toNumber t | None => None end in
  let m := match nth_error parts 1 with Some t => toNumber t | None => None end in
  match newDate y (option_map (fun n => n - 1) m) with
  | Some (yy, mm) => monthYear yy mm
  | None => "Invalid Date"
  end.

Record series := mkSeries { labels : list string; values : list value }.

Definition addToMonth (map : object) (e : expense) : object :=
  let key := monthKey (dateOfString (date e)) in
  if has map key then set map key (plus (get map key) (amountOf e)) else map.

(** [nowYear] and [nowMonth] are [getFullYear()] and [getMonth()] of
    [new Date()]. *)
Definition monthlyTotals (nowYear nowMonth : Z)
    (expenses : list expense) (monthsBack : nat) : series :=
  let map0 :=
    fold_left
      (fun map i =>
         let d := newDate (Some nowYear) (Some (nowMonth - Z.of_nat i)) in
         set map (monthKey d) (Num 0%float))
      (rev (seq 0 monthsBack)) [] in
  let map := fold_left addToMonth expenses map0 in
  let labels := keys map in
  let values := List.map (fun k => get map k) labels in
  let pretty := List.map prettyLabel labels in
  mkSeries pretty values.

(** *** Vocabulary of the statements about [monthlyTotals] *)

(** The months of the window, oldest first. *)
Definition window (nowYear nowMonth : Z) (monthsBack : nat)
  : list (option (Z * Z)) :=
  map (fun i => newDate (Some nowYear) (Some (nowMonth - Z.of_nat i)))
      (rev (seq 0 monthsBack)).

Definition sameMonth (a b : option (Z * Z)) : bool :=
  match a, b with
  | Some (y1, m1), Some (y2, m2) => (y1 =? y2) && (m1 =? m2)
  | None, None => true
  | _, _ => false
  end.

(** The sum of the amounts of the expenses that [new Date(e.date)] puts
    in month [d]. *)
Definition monthTotal (d : option (Z * Z)) (es : list expense) : float :=
  sumAmounts (filter (fun e => sameMonth (dateOfString (date e)) d) es).

Definition keyTotal (k : string) (es : list expense) : float :=
  sumAmounts
    (filter (fun e => String.eqb (monthKey (dateOfString (date e))) k) es).

(** A month index is between 0 and 11. *)
Definition validMonth (d : option (Z * Z)) : Prop :=
  match d with
  | Some (_, m) => 0 <= m < 12
  | None => True
  end.

Definition monthText (m : Z) : string := padStart2 (decimal (m + 1)).

Definition hasDash (s : string) : bool :=
  existsb (Ascii.eqb "-") (list_ascii_of_string s).

End Monthly.

(** The first three sample expenses of the server. *)
Definition july : list expense :=
  [ mkExpense 1 "Groceries" (Some 24.5%float) (Some "Food") "2025-07-10";
    mkExpense 2 "Bus ticket" (Some 2.75%float) (Some "Transport") "2025-07-11";
    mkExpense 3 "Electricity bill" (Some 60%float) (Some "Utilities") "2025-07-05" ].

(** Month and year as the en-US locale prints them. *)
Definition enUS (y m : Z) : string :=
  (nth (Z.to_nat m)
       ["Jan"; "Feb"; "Mar"; "Apr"; "May"; "Jun";
        "Jul"; "Aug"; "Sep"; "Oct"; "Nov"; "Dec"] ""
   ++ " " ++ decimal y)%string.

End Client.

(** ** The server *)

Module Server.

(** A row of the table [expenses]; every column is NOT NULL. *)
Record row := mkRow {
  id : Z;
  description : string;
  amount : float;
  category : string;
  date : string
}.

(** The table in rowid order, and the largest id ever assigned (the
    AUTOINCREMENT counter). *)
Record store := mkStore { rows : list row; lastId : Z }.

(** The sample rows inserted into an empty table at start-up. *)
Definition samples : list row :=
  [ mkRow 1 "Groceries" 24.5%float "Food" "2025-07-10";
    mkRow 2 "Bus ticket" 2.75%float "Transport" "2025-07-11";
    mkRow 3 "Electricity bill" 60%float "Utilities" "2025-07-05";
    mkRow 4 "Cinema" 12%float "Entertainment" "2025-08-01";
    mkRow 5 "Lunch" 10.25%float "Food" "2025-08-03" ].

Definition seeded : store := mkStore samples 5.

(** A field of a JSON body as the handlers read it: a string, or a value
    that is not a string (undefined when the key is missing, null, a
    boolean, a number, an array or an object), of which the handlers use
    whether it is truthy and the text that [String] makes of it. *)
Inductive field :=
| Text (s : string)
| Other (truthy : bool) (text : string).

(** The field of a key that the body does not have. *)
Definition missing : field := Other false "undefined".

(** [!!f] *)
Definition isTruthy (f : field) : bool :=
  match f with
  | Text s => negb (String.eqb s "")
  | Other t _ => t
  end.

(** [String(f)] *)
Definition textOf (f : field) : string :=
  match f with
  | Text s => s
  | Other _ t => t
  end.

(** A JSON body. The amount is [None] when it is undefined and
    otherwise the number, possibly NaN, that [Number] makes of it. *)
Record payload := mkPayload {
  p_description : field;
  p_amount : option float;
  p_category : field;
  p_date : field
}.

Inductive response (A : Type) :=
| Ok (body : A)
| BadRequest (error : string)
| NotFound (error : string)
| ServerError (error : string).
Arguments Ok {A} body.
Arguments BadRequest {A} error.
Arguments NotFound {A} error.
Arguments ServerError {A} error.

(** [Number(req.params.id)]: NaN, an integer, or another number (a
    fraction or an infinity), which equals no rowid. *)
Inductive pathId := IdNaN | IdInt (n : Z) | IdOther.

(** [!id] *)
Definition falsyId (i : pathId) : bool :=
  match i with
  | IdNaN => true
  | IdInt n => n =? 0
  | IdOther => false
  end.

(** [WHERE id = ?] *)
Definition idIs (i : pathId) (r : row) : bool :=
  match i with
  | IdInt n => id r =? n
  | _ => false
  end.

(** The order of REAL values in an ORDER BY: NULL, which is what a NaN
    is stored as, sorts below every number, and the two zeros are equal. *)
Definition realLe (a b : float) : bool := is_nan a || (a <=? b)%float.

(** [ORDER BY date DESC, id DESC] *)
Definition dateIdDesc (a b : row) : bool :=
  match String.compare (date a) (date b) with
  | Gt => true
  | Lt => false
  | Eq => id b <=? id a
  end.

(** [ORDER BY amount DESC]; rows that compare equal stay in scan order. *)
Definition amountDesc (a b : row) : bool := realLe (amount b) (amount a).

(** The query string of GET /api/expenses. *)
Record query := mkQuery {
  q_category : option string;
  q_start : option string;
  q_end : option string
}.

(** [if (req.query.x)]: the parameter is present and not empty. *)
Definition given (p : option string) : option string :=
  match p with
  | Some s => if String.eqb s "" then None else Some s
  | None => None
  end.

Definition whereClause (q : query) (r : row) : bool :=
  match given (q_category q) with
  | Some c => String.eqb (category r) c
  | None => true
  end
  && match given (q_start q) with
     | Some s => String.leb s (date r)
     | None => true
     end
  && match given (q_end q) with
     | Some e => String.leb (date r) e
     | None => true
     end.

(** GET /api/expenses *)
Definition listExpenses (st : store) (q : query) : list row :=
  sortBy dateIdDesc (filter (whereClause q) (rows st)).

(** The [top] intent of POST /api/chat. [nMatch] is the number written
    after the word top, if any; the rows are those whose description and
    amount make up the reply. *)
Definition topLimit (nMatch : option nat) : nat :=
  match nMatch with
  | Some k => Nat.min 50 k
  | None => 5%nat
  end.

Definition topExpenses (st : store) (nMatch : option nat) : list row :=
  let n := topLimit nMatch in
  let rows := firstn n (sortBy amountDesc (rows st)) in
  firstn n rows.

Section Aggregates.

(** What the aggregate SUM of SQLite makes of the REAL values of the
    rows it scans, given in scan order, when there is at least one. The
    summation algorithm depends on the release of SQLite: additions from
    left to right before 3.43, a compensated summation since. *)
Variable SUM : list float -> float.

(** [SELECT SUM(amount)] over the rows that pass [where_]: NULL over no
    row. The table is scanned in rowid order. *)
Definition selectSum (st : store) (where_ : row -> bool) : option float :=
  match filter where_ (rows st) with
  | [] => None
  | matching => Some (SUM (map amount matching))
  end.

(** [row && row.s ? Number(row.s) : 0]: NULL, which is also what a NaN
    is returned as, and 0 give 0. *)
Definition orZeroOf (s : option float) : float :=
  match s with
  | Some v => Js.orZero v
  | None => 0%float
  end.

(** [totalBetween] of POST /api/chatbot *)
Definition totalBetween (st : store) (start end_ : string) : float :=
  orZeroOf
    (selectSum st
       (fun r => String.leb start (date r) && String.leb (date r) end_)).

End Aggregates.

(** The summation of SQLite before release 3.43. *)
Definition leftToRight (l : list float) : float :=
  fold_left PrimFloat.add l 0%float.

Section Handlers.

(** [String.prototype.trim] *)
Variable trim : string -> string.

(** What the sqlite3 driver binds for a parameter that is an array, from
    the text [String] makes of the array: a text, which depends on the
    release of the driver, or nothing when it refuses the type. *)
Variable bindArray : string -> option string.

(** [!f || String(f).trim() === ''] *)
Definition blankField (f : field) : bool :=
  negb (isTruthy f) || String.eqb (trim (textOf f)) "".

Definition validateExpense (body : option payload) : option string :=
  match body with
  | None => Some "Missing payload"
  | Some p =>
      if blankField (p_description p)
      then Some "Description required"
      else if match p_amount p with
              | Some a => is_nan a || (a <=? 0)%float
              | None => true
              end
      then Some "Amount must be a positive number"
      else if blankField (p_category p)
      then Some "Category required"
      else if negb (isTruthy (p_date p)) || negb (Js.datePattern (textOf (p_date p)))
      then Some "Date required (YYYY-MM-DD)"
      else None
  end.

(** [f.trim()]: a TypeError when [f] is not a string. *)
Definition trimmed (f : field) : option string :=
  match f with
  | Text s => Some (trim s)
  | Other _ _ => None
  end.

(** The date as the statement binds it. A date that passed
    [validateExpense] and is not a string is an array, the only other
    JSON value whose text can have the pattern. *)
Definition bound (f : field) : option string :=
  match f with
  | Text s => Some s
  | Other _ t => bindArray t
  end.

(** The error that stops the request after a body passed
    [validateExpense], if any: the TypeError of [description.trim()] or
    [category.trim()], which are evaluated in this order before the
    statement runs, or the refusal of the driver to bind the date. *)
Definition failure (p : payload) : option string :=
  match trimmed (p_description p), trimmed (p_category p), bound (p_date p) with
  | None, _, _ => Some "description.trim is not a function"
  | Some _, None, _ => Some "category.trim is not a function"
  | Some _, Some _, None => Some "Data type is not supported"
  | Some _, Some _, Some _ => None
  end.

(** The row that a validated body describes, when nothing fails. *)
Definition rowOf (i : Z) (p : payload) : row :=
  mkRow i
        (match trimmed (p_description p) with Some d => d | None => "" end)
        (match p_amount p with Some a => a | None => nan end)
        (match trimmed (p_category p) with Some c => c | None => "" end)
        (match bound (p_date p) with Some d => d | None => "" end).

(** [INSERT INTO expenses(description,amount,category,date)] *)
Definition insert (st : store) (r : row) : store :=
  mkStore (rows st ++ [r]) (id r).

(** POST /api/expenses. A body that passes [validateExpense] is present,
    so the second branch is never taken. An error thrown in the handler
    is answered by Express with status 500. *)
Definition postExpense (st : store) (body : option payload)
  : response row * store :=
  match validateExpense body, body with
  | Some errMsg, _ => (BadRequest errMsg, st)
  | None, None => (BadRequest "Missing payload", st)
  | None, Some p =>
      match failure p with
      | Some e => (ServerError e, st)
      | None =>
          let r := rowOf (lastId st + 1) p in
          (Ok r, insert st r)
      end
  end.

(** PUT /api/expenses/:id. The parameters are evaluated and bound before
    the UPDATE runs. After an UPDATE that changed a row, the SELECT by id
    finds one: the last branch is never taken (see [find_identified]). *)
Definition putExpense (st : store) (i : pathId) (body : option payload)
  : response row * store :=
  if falsyId i then (BadRequest "Invalid id", st)
  else match validateExpense body, body with
       | Some errMsg, _ => (BadRequest errMsg, st)
       | None, None => (BadRequest "Missing payload", st)
       | None, Some p =>
           match failure p with
           | Some e => (ServerError e, st)
           | None =>
               let changes := List.length (filter (idIs i) (rows st)) in
               if (changes =? 0)%nat then (NotFound "Expense not found", st)
               else
                 let st' := mkStore
                   (map (fun r => if idIs i r then rowOf (id r) p else r)
                        (rows st))
                   (lastId st) in
                 match find (idIs i) (rows st') with
                 | Some r => (Ok r, st')
                 | None => (ServerError "no row", st')
                 end
           end
       end.

(** DELETE /api/expenses/:id; the body of a success is
    [{ success: true }]. *)
Definition deleteExpense (st : store) (i : pathId)
  : response bool * store :=
  if falsyId i then (BadRequest "Invalid id", st)
  else
    let changes := List.length (filter (idIs i) (rows st)) in
    if (changes =? 0)%nat then (NotFound "Expense not found", st)
    else (Ok true,
          mkStore (filter (fun r => negb (idIs i r)) (rows st)) (lastId st)).

(** The add-expense command of POST /api/chatbot, from the groups that
    [addMatch] captured: [amount] is [Number(addMatch[2])]. A NaN is
    bound as NULL, which the NOT NULL column refuses. The body of a
    success is the row inserted. *)
Definition chatbotAdd (st : store)
    (descriptionText : string) (amount : float)
    (categoryText dateText : string) : response row * store :=
  if is_nan amount
  then (ServerError "Chatbot failed to process request", st)
  else
    let r := mkRow (lastId st + 1) (trim descriptionText) amount
                   (trim categoryText) dateText in
    (Ok r, insert st r).

(** The requests that write to the table. *)
Inductive request :=
| Post (body : option payload)
| Put (i : pathId) (body : option payload)
| Delete (i : pathId)
| ChatbotAdd (descriptionText : string) (amount : float)
             (categoryText dateText : string).

Definition handle (st : store) (q : request) : store :=
  match q with
  | Post body => snd (postExpense st body)
  | Put i body => snd (putExpense st i body)
  | Delete i => snd (deleteExpense st i)
  | ChatbotAdd d a c t => snd (chatbotAdd st d a c t)
  end.

(** The states of the table after any sequence of requests. *)
Definition reachable (st : store) : Prop :=
  exists qs : list request, st = fold_left handle qs seeded.

End Handlers.

(** [trim] on the ASCII white space characters (tab, line feed,
    vertical tab, form feed, carriage return and space). *)
Definition isSpace (c : ascii) : bool :=
  let n := N_of_ascii c in
  ((9 <=? n) && (n <=? 13) || (n =? 32))%N.

Fixpoint trimStart (s : string) : string :=
  match s with
  | EmptyString => EmptyString
  | String c s' => if isSpace c then trimStart s' else s
  end.

Fixpoint trimEnd (s : string) : string :=
  match s with
  | EmptyString => EmptyString
  | String c s' =>
      match trimEnd s' with
      | EmptyString => if isSpace c then EmptyString else String c EmptyString
      | t => String c t
      end
  end.

Definition trimAscii (s : string) : string := trimEnd (trimStart s).

(** *** Vocabulary of the statements *)

(** The order of SQLite's BINARY collation on text. *)
Definition strLt (a b : string) : Prop := String.compare a b = Lt.
Definition strLe (a b : string) : Prop := String.compare a b <> Gt.

(** Year, month and day of a date of the pattern, and their order. *)
Definition yearOf (s : string) : N := Js.placeValue (substring 0 4 s).
Definition monthOf (s : string) : N := Js.placeValue (substring 5 2 s).


(** The date of the row lies between [start] and [end_], ends included,
    in the order of text. *)
Definition inRange (start end_ : string) (r : row) : Prop :=
  strLe start (date r) /\ strLe (date r) end_.

(** [l] holds the elements of [rs] that satisfy [P], in the order of
    [rs] and as often as they occur in it. *)
Inductive selection {A : Type} (P : A -> Prop) : list A -> list A -> Prop :=
| selection_nil : selection P [] []
| selection_take (r : A) (rs l : list A) :
    P r -> selection P rs l -> selection P (r :: rs) (r :: l)
| selection_skip (r : A) (rs l : list A) :
    ~ P r -> selection P rs l -> selection P (r :: rs) l.

(** The sum, as SUM computes it, of the amounts of [l], and 0 when [l]
    is empty or that sum is 0 or NaN. *)
Definition sumOrZero (SUM : list float -> float) (l : list row) : float :=
  match l with
  | [] => 0%float
  | _ => if is_nan (SUM (map amount l)) || (SUM (map amount l) =? 0)%float
         then 0%float else SUM (map amount l)
  end.

Definition positiveAmounts (st : store) : Prop :=
  Forall (fun r => (0 <? amount r)%float = true) (rows st).

(** The table is kept in rowid order and no id exceeds the counter. *)
Definition rowidOrder (st : store) : Prop :=
  StronglySorted (fun a b => id a < id b) (rows st) /\
  Forall (fun r => id r <= lastId st) (rows st).

Definition identifies (i : pathId) (st : store) : Prop :=
  exists r, In r (rows st) /\ idIs i r = true.

(** The description and the category of the body are the strings [d]
    and [c], its amount is the number [a], and its date is the string
    [t] or an array that the driver binds as the text [t]. *)
Definition storable (bindArray : string -> option string) (p : payload)
    (d : string) (a : float) (c t : string) : Prop :=
  p_description p = Text d /\ p_amount p = Some a /\ p_category p = Text c /\
  (p_date p = Text t \/
   exists b x, p_date p = Other b x /\ bindArray x = Some t).

(** A driver that binds an array as the text [String] makes of it. *)
Definition bindsText (x : string) : option string := Some x.

(** What the parameters of a query that are given ask of a row. *)
Definition matchesQuery (q : query) (r : row) : Prop :=
  (forall c, given (q_category q) = Some c -> category r = c) /\
  (forall s, given (q_start q) = Some s -> strLe s (date r)) /\
  (forall e, given (q_end q) = Some e -> strLe (date r) e).

(** Latest date first, and larger id first on the same date. *)
Definition newestFirst (a b : row) : Prop :=
  strLt (date b) (date a) \/ (date a = date b /\ id b <= id a).

(** The strict order and the equality of REAL values that go with
    [realLe]. *)
Definition realLt (a b : float) : bool := negb (realLe b a).
Definition realEq (a b : float) : bool := realLe a b && realLe b a.

(** Larger amount first, and smaller id first among equal amounts. *)
Definition byAmountThenId (a b : row) : Prop :=
  realLt (amount b) (amount a) = true \/
  (realEq (amount a) (amount b) = true /\ id a < id b).

(** Larger amount first, then latest date first, then smaller id first. *)
Definition byAmountDateId (a b : row) : Prop :=
  realLt (amount b) (amount a) = true \/
  (realEq (amount a) (amount b) = true /\
   (strLt (date b) (date a) \/ (date a = date b /\ id a < id b))).

(** A table of 51 rows, and a table of two rows of equal amount. *)
Definition coffees : store :=
  mkStore (map (fun i => mkRow (Z.of_nat i) "Coffee" 3%float "Food" "2025-08-01")
               (seq 1 51)) 51.

Definition ties : store :=
  mkStore [ mkRow 1 "Breakfast" 10%float "Food" "2025-07-01";
            mkRow 2 "Dinner" 10%float "Food" "2025-07-02" ] 2.

End Server.

(** ** Vocabulary of further statements about the table *)

Module Ledger.
Import Server.

(** GET /api/expenses without parameters. *)
Definition everything : query := mkQuery None None None.

(** What [validateExpense] asks of the fields, as stored. *)
Definition wellFormed (r : row) : Prop :=
  (0 <? amount r)%float = true /\ description r <> "" /\ category r <> "" /\
  Js.datePattern (date r) = true.

(** The date of the body, if there is one, is a string or is falsy (the
    key is missing, say): it is no array. *)
Definition textDate (body : option payload) : Prop :=
  match body with
  | Some p => match p_date p with
              | Other true _ => False
              | _ => True
              end
  | None => True
  end.

(** The requests whose route calls [validateExpense], with a date that
    is a string, and delete. *)
Definition validated (q : request) : Prop :=
  match q with
  | Post body => textDate body
  | Put _ body => textDate body
  | Delete _ => True
  | ChatbotAdd _ _ _ _ => False
  end.

(** Ids start at 1 and the counter is not negative. *)
Definition idsFromOne (st : store) : Prop :=
  0 <= lastId st /\ Forall (fun r => 1 <= id r) (rows st).

(** Four digits, a dash, two digits, a dash, two digits. *)
Definition dateShape (t : string) : Prop :=
  exists y0 y1 y2 y3 m0 m1 d0 d1,
    t = String y0 (String y1 (String y2 (String y3 (String "-"
         (String m0 (String m1 (String "-" (String d0 (String d1 ""))))))))) /\
    Forall (fun c => Js.isDigit c = true) [y0; y1; y2; y3; m0; m1; d0; d1].

End Ledger.

(** ** The queries of the assistant *)

Module Assistant.
Import Server.

(** [substr(X,1,n)] on text: the first [n] characters, where a character
    is a byte and, when that byte is 0xC0 or more, the bytes 0x80 to 0xBF
    that follow it; the text ends at a zero byte. [inside] tells that
    such a character is being read. *)
Definition isContinuation (c : ascii) : bool :=
  ((128 <=? N_of_ascii c) && (N_of_ascii c <? 192))%N.

Fixpoint takeChars (n : nat) (inside : bool) (s : string) : string :=
  match s with
  | EmptyString => EmptyString
  | String c s' =>
      if inside && isContinuation c then String c (takeChars n true s')
      else if (N_of_ascii c =? 0)%N then EmptyString
      else match n with
           | O => EmptyString
           | S n' => String c (takeChars n' (192 <=? N_of_ascii c)%N s')
           end
  end.

Section Aggregates.

(** The aggregate SUM of SQLite, as in [Server.selectSum]. *)
Variable SUM : list float -> float.

(** [totalInMonth] of POST /api/chatbot:
    [SELECT SUM(amount) as s FROM expenses WHERE substr(date,1,7) = ?],
    then [row.s ? Number(row.s) : 0]. *)
Definition totalInMonth (st : store) (ym : string) : float :=
  orZeroOf
    (selectSum SUM st (fun r => String.eqb (takeChars 7 false (date r)) ym)).

End Aggregates.

(** *** Vocabulary of the statements *)

(** The rows of the year and month of the date [t]. *)
Definition sameYearMonth (t : string) (r : row) : Prop :=
  yearOf (date r) = yearOf t /\ monthOf (date r) = monthOf t.

End Assistant.

(** ** GET /api/download *)

Module Download.
Import Server.

Definition quote : ascii := "034"%char.
Definition comma : ascii := ","%char.
Definition newline : ascii := "010"%char.

Fixpoint includes (c : ascii) (s : string) : bool :=
  match s with
  | EmptyString => false
  | String d s' => Ascii.eqb d c || includes c s'
  end.

(** [s.replace] of every quote by two quotes. *)
Fixpoint doubleQuotes (s : string) : string :=
  match s with
  | EmptyString => EmptyString
  | String c s' =>
      if Ascii.eqb c quote then String quote (String quote (doubleQuotes s'))
      else String c (doubleQuotes s')
  end.

(** [escapeCsv] on the text [String(v)] of a value, [None] being [null]
    or [undefined]. *)
Definition escapeCsv (v : option string) : string :=
  match v with
  | None => EmptyString
  | Some s =>
      if includes comma s || includes quote s || includes newline s
      then String quote (doubleQuotes s ++ String quote EmptyString)
      else s
  end.

Definition fields : list string :=
  ["id"; "description"; "amount"; "category"; "date"]%string.

(** [ORDER BY date DESC]. *)
Definition dateDesc (a b : row) : bool := String.leb (date b) (date a).

Section Numbers.

(** [String(v)] on the amount, a number. *)
Variable amountText : float -> string.

(** [fields.map(f => r[f])], each value as [String] turns it into text. *)
Definition cells (r : row) : list string :=
  [Js.decimal (id r); description r; amountText (amount r); category r; date r].

Definition line (r : row) : string :=
  String.concat "," (map (fun v => escapeCsv (Some v)) (cells r)).

Definition download (st : store) : string :=
  let rows := sortBy dateDesc (rows st) in
  let header := (String.concat "," fields ++ String newline EmptyString)%string in
  let body := String.concat (String newline EmptyString) (map line rows) in
  (header ++ body)%string.

End Numbers.

(** *** Vocabulary of the statements *)

(** A reader of comma-separated values: a field that starts with a quote
    runs to the next quote that is not doubled, a doubled quote standing
    for one; a comma ends a field and a newline ends a record; an empty
    last line is no record. A carriage return is a character like any
    other. *)
Inductive mode := Plain | Quoted | Closing.

Definition emptyText (s : string) : bool :=
  match s with
  | EmptyString => true
  | _ => false
  end.

Definition snoc (s : string) (c : ascii) : string := (s ++ String c EmptyString)%string.

Fixpoint readCsv (s : string) (m : mode) (field : string) (record : list string)
  : list (list string) :=
  match s with
  | EmptyString =>
      match m, field, record with
      | Plain, EmptyString, [] => []
      | _, _, _ => [record ++ [field]]
      end
  | String c s' =>
      match m with
      | Quoted =>
          if Ascii.eqb c quote then readCsv s' Closing field record
          else readCsv s' Quoted (snoc field c) record
      | _ =>
          if Ascii.eqb c comma then readCsv s' Plain EmptyString (record ++ [field])
          else if Ascii.eqb c newline
               then (record ++ [field]) :: readCsv s' Plain EmptyString []
          else if Ascii.eqb c quote
               then match m with
                    | Closing => readCsv s' Quoted (snoc field c) record
                    | _ => if emptyText field then readCsv s' Quoted field record
                           else readCsv s' Plain (snoc field c) record
                    end
          else readCsv s' Plain (snoc field c) record
      end
  end.

(** What follows a field: the end of the text, a comma or a newline. *)
Definition ends (rest : string) : Prop :=
  match rest with
  | EmptyString => True
  | String c _ => c = comma \/ c = newline
  end.

End Download.

(** ** Vocabulary of the statements about the charts *)

Module Dashboard.
Import Js Client.


End Dashboard.

(** ** The pages of the dashboard and of the chat *)

Module Page.
Import Js Client.

(** The replacement of one character by [escapeHtml]. *)
Definition entity (c : ascii) : string :=
  if Ascii.eqb c "&" then "&amp;"
  else if Ascii.eqb c "<" then "&lt;"
  else if Ascii.eqb c ">" then "&gt;"
  else if Ascii.eqb c "034" then "&quot;"
  else if Ascii.eqb c "'" then "&#039;"
  else String c EmptyString.

(** [escapeHtml] on a text: [String(s||'')] is the text itself, and
    [replace] rewrites each of the five characters of the class. *)
Fixpoint escapeHtml (s : string) : string :=
  match s with
  | EmptyString => EmptyString
  | String c s' => (entity c ++ escapeHtml s')%string
  end.

(** *** Vocabulary of the statements *)

Fixpoint startsWith (p s : string) : bool :=
  match p, s with
  | EmptyString, _ => true
  | String a p', String b s' => Ascii.eqb a b && startsWith p' s'
  | String _ _, EmptyString => false
  end.

(** The text that a browser shows for markup without tags: each of the
    five character references stands for its character. [skip] counts
    the characters of a reference still to pass over. *)
Fixpoint shown (skip : nat) (s : string) : string :=
  match s with
  | EmptyString => EmptyString
  | String c r =>
      match skip with
      | S k => shown k r
      | O =>
          if Ascii.eqb c "&" then
            if startsWith "amp;" r then String "&" (shown 4 r)
            else if startsWith "lt;" r then String "<" (shown 3 r)
            else if startsWith "gt;" r then String ">" (shown 3 r)
            else if startsWith "quot;" r then String "034" (shown 5 r)
            else if startsWith "#039;" r then String "'" (shown 5 r)
            else String c (shown 0 r)
          else String c (shown 0 r)
      end
  end.

(** The characters that open or close a tag or an attribute value. *)
Definition markup (c : ascii) : bool :=
  Ascii.eqb c "<" || Ascii.eqb c ">" || Ascii.eqb c "034" || Ascii.eqb c "'".

(** *** computeKPIs *)

(** [e.category] as a property name; a missing category reads as
    [undefined], whose name is the text undefined (the table of the
    server holds no null). *)
Definition categoryKey (e : expense) : string :=
  match category e with
  | Some c => c
  | None => "undefined"
  end.

(** [o[key] = (o[key] || 0) + amt] *)
Definition addTo (key : expense -> string) (o : object) (e : expense) : object :=
  set o (key e) (orZeroPlus (get o (key e)) (amountOf e)).

(** The placeholder of the top category, an em dash. *)
Definition dash : string := String "226" (String "128" (String "148" EmptyString)).

(** [v > topSum] for a number [topSum]: a string that is not the text of
    a number compares as NaN. *)
Definition greater (v : value) (topSum : float) : bool :=
  match v with
  | Num n => (topSum <? n)%float
  | _ => false
  end.

Definition pickTop (top : string * float) (p : string * value) : string * float :=
  if greater (snd p) (snd top) then (fst p, numberOf (snd p)) else top.

(** The sums of the loop of [computeKPIs]. *)
Record sums := mkSums {
  s_totalThisMonth : float;
  s_balanceAll : float;
  s_categoryTotals : object;
  s_dailySums : object
}.

(** What [computeKPIs] returns, but for [avgDaily], which also reads
    the day of the month of the clock. *)
Record kpis := mkKpis {
  totalThisMonth : float;
  balanceAll : float;
  topCat : string;
  topSum : float;
  dailySums : object
}.

Section Now.

Variable lenient : bool.
Variable behindUTC : Z -> Z -> Z -> bool.

(** [getFullYear()] and [getMonth()] of [new Date()]. *)
Variables thisYear thisMonth : Z.

Definition addExpense (s : sums) (e : expense) : sums :=
  let amt := amountOf e in
  let d := dateOfString lenient behindUTC (date e) in
  let inMonth := sameMonth d (Some (thisYear, thisMonth)) in
  mkSums (if inMonth then (s_totalThisMonth s + amt)%float else s_totalThisMonth s)
         (s_balanceAll s + amt)%float
         (addTo categoryKey (s_categoryTotals s) e)
         (if inMonth then addTo date (s_dailySums s) e else s_dailySums s).

Definition computeKPIs (expenses : list expense) : kpis :=
  let s := fold_left addExpense expenses (mkSums 0 0 [] [])%float in
  let top := fold_left pickTop (entries (s_categoryTotals s)) (dash, 0%float) in
  mkKpis (s_totalThisMonth s) (s_balanceAll s) (fst top) (snd top)
         (s_dailySums s).

End Now.

(** The sum of the amounts of the expenses whose property name is [k]. *)
Definition totalBy (key : expense -> string) (k : string) (l : list expense) : float :=
  sumAmounts (filter (fun e => String.eqb (key e) k) l).

End Page.

(** ** Vocabulary of the statements about binary64 numbers *)

Module Binary64.

(** A number other than NaN, by class, exponent and mantissa: the
    comparison of numbers is the lexicographic comparison of these. *)
Definition rank (f : spec_float) : Z * Z * Z :=
  match f with
  | S754_zero _ => (0, 0, 0)
  | S754_infinity s => (if s then -2 else 2, 0, 0)
  | S754_nan => (0, 0, 0)
  | S754_finite s m e => if s then (-1, - e, Zneg m) else (1, e, Zpos m)
  end.

Definition rankLe (a b : Z * Z * Z) : Prop :=
  let '(c1, e1, m1) := a in
  let '(c2, e2, m2) := b in
  c1 < c2 \/ (c1 = c2 /\ (e1 < e2 \/ (e1 = e2 /\ m1 <= m2))).

Definition rankLt (a b : Z * Z * Z) : Prop :=
  let '(c1, e1, m1) := a in
  let '(c2, e2, m2) := b in
  c1 < c2 \/ (c1 = c2 /\ (e1 < e2 \/ (e1 = e2 /\ m1 < m2))).

(** A number of the sign [s]: finite and not zero, or infinite. *)
Definition signed (s : bool) (f : spec_float) : Prop :=
  (exists m e, f = S754_finite s m e) \/ f = S754_infinity s.

End Binary64.

(** * Properties *)

(** ** The stable sort *)

Section SortFacts.
Context {A : Type}.
Variable le : A -> A -> bool.

Lemma insertBy_perm (x : A) (l : list A) : Permutation (insertBy le x l) (x :: l).
Proof.
  induction l as [|y ys IH]; simpl.
  - apply Permutation_refl.
  - destruct (le x y).
    + apply Permutation_refl.
    + eapply perm_trans; [apply perm_skip, IH | apply perm_swap].
Qed.

Lemma sortBy_perm (l : list A) : Permutation (sortBy le l) l.
Proof.
  induction l as [|x xs IH]; simpl.
  - constructor.
  - eapply perm_trans; [apply insertBy_perm | apply perm_skip, IH].
Qed.

Lemma sortBy_length (l : list A) : List.length (sortBy le l) = List.length l.
Proof. apply Permutation_length, sortBy_perm. Qed.

Lemma sortBy_In (l : list A) (x : A) : In x (sortBy le l) <-> In x l.
Proof.
  split; apply Permutation_in;
    [apply sortBy_perm | apply Permutation_sym, sortBy_perm].
Qed.

Variable P : A -> A -> Prop.

Lemma insertBy_sorted (x : A) (l : list A) :
  (forall a, In a l -> le x a = true \/ le a x = true) ->
  (forall a b, In a l -> In b l -> le x a = true -> le a b = true -> le x b = true) ->
  Forall (P x) l ->
  StronglySorted (sortedStably le P) l ->
  StronglySorted (sortedStably le P) (insertBy le x l).
Proof.
  induction l as [|y ys IH]; intros Htot Htr HP Hs; simpl.
  - repeat constructor.
  - inversion Hs as [|? ? Hys Hy]; subst.
    inversion HP as [|? ? HPy HPys]; subst.
    destruct (le x y) eqn:Exy.
    + constructor; [assumption|].
      constructor.
      * split; auto.
      * rewrite Forall_forall in *. intros z Hz. split.
        -- apply (Htr y z); simpl; auto. apply (Hy z Hz).
        -- intros _. apply HPys, Hz.
    + constructor.
      * apply IH; auto.
        -- intros a Ha. apply Htot. now right.
        -- intros a b Ha Hb. apply Htr; now right.
      * rewrite Forall_forall. intros z Hz.
        apply (Permutation_in _ (insertBy_perm x ys)) in Hz.
        destruct Hz as [<-|Hz].
        -- split.
           ++ destruct (Htot y (or_introl eq_refl)) as [H|H]; [congruence | exact H].
           ++ intros H. congruence.
        -- rewrite Forall_forall in Hy. now apply Hy.
Qed.

Lemma sortBy_sorted (l : list A) :
  (forall a b, In a l -> In b l -> le a b = true \/ le b a = true) ->
  (forall a b c, In a l -> In b l -> In c l ->
                 le a b = true -> le b c = true -> le a c = true) ->
  StronglySorted P l ->
  StronglySorted (sortedStably le P) (sortBy le l).
Proof.
  induction l as [|x xs IH]; intros Htot Htr Hs; simpl.
  - constructor.
  - inversion Hs as [|? ? Hxs Hx]; subst.
    apply insertBy_sorted.
    + intros a Ha. apply Htot; [now left | right; exact (proj1 (sortBy_In _ _) Ha)].
    + intros a b Ha Hb. apply (proj1 (sortBy_In _ _)) in Ha, Hb.
      apply Htr; simpl; auto.
    + rewrite Forall_forall in *. intros a Ha. apply Hx, (proj1 (sortBy_In _ _) Ha).
    + apply IH; auto.
      * intros a b Ha Hb. apply Htot; now right.
      * intros a b c Ha Hb Hc. apply Htr; now right.
Qed.

End SortFacts.

(** ** Strongly sorted lists *)

Section SortedFacts.
Context {A : Type}.

Lemma StronglySorted_weaken (R R' : A -> A -> Prop) (l : list A) :
  (forall a b, In a l -> In b l -> R a b -> R' a b) ->
  StronglySorted R l -> StronglySorted R' l.
Proof.
  induction l as [|x xs IH]; intros Himp Hs.
  - constructor.
  - inversion Hs as [|? ? Hxs Hx]; subst. constructor.
    + apply IH; auto. intros a b Ha Hb. apply Himp; now right.
    + rewrite Forall_forall in *. intros y Hy.
      apply Himp; simpl; auto.
Qed.

Lemma StronglySorted_app (R : A -> A -> Prop) (l1 l2 : list A) :
  StronglySorted R l1 -> StronglySorted R l2 ->
  (forall a b, In a l1 -> In b l2 -> R a b) ->
  StronglySorted R (l1 ++ l2).
Proof.
  induction l1 as [|x xs IH]; intros H1 H2 H12; simpl.
  - exact H2.
  - inversion H1 as [|? ? Hxs Hx]; subst. constructor.
    + apply IH; auto. intros a b Ha Hb. apply H12; simpl; auto.
    + apply Forall_app. split; [exact Hx|].
      rewrite Forall_forall. intros b Hb. apply H12; simpl; auto.
Qed.

Lemma StronglySorted_filter (R : A -> A -> Prop) (f : A -> bool) (l : list A) :
  StronglySorted R l -> StronglySorted R (filter f l).
Proof.
  induction 1 as [|x xs Hxs IH Hx]; simpl.
  - constructor.
  - destruct (f x); [constructor|]; auto.
    rewrite Forall_forall in *. intros y Hy.
    apply filter_In in Hy. now apply Hx.
Qed.

Lemma StronglySorted_firstn (R : A -> A -> Prop) (n : nat) (l : list A) :
  StronglySorted R l -> StronglySorted R (firstn n l).
Proof.
  intros Hs. revert n.
  induction Hs as [|x xs Hxs IH Hx]; intros [|n]; simpl; try constructor.
  - apply IH.
  - rewrite Forall_forall in *. intros y Hy.
    apply Hx. rewrite <- (firstn_skipn n xs). apply in_or_app. now left.
Qed.

Lemma StronglySorted_map {B : Type} (R : B -> B -> Prop) (f : A -> B) (l : list A) :
  StronglySorted (fun a b => R (f a) (f b)) l <-> StronglySorted R (map f l).
Proof.
  induction l as [|x xs IH]; simpl; split; intros Hs; try constructor;
    inversion Hs as [|? ? Hxs Hx]; subst.
  - now apply IH.
  - rewrite Forall_forall in *. intros y Hy.
    apply in_map_iff in Hy as (a & <- & Ha). now apply Hx.
  - now apply IH.
  - rewrite Forall_forall in *. intros y Hy.
    apply Hx, in_map, Hy.
Qed.

Lemma StronglySorted_NoDup (R : A -> A -> Prop) (l : list A) :
  (forall a, ~ R a a) -> StronglySorted R l -> NoDup l.
Proof.
  intros Hirr. induction 1 as [|x xs Hxs IH Hx]; constructor; auto.
  intros Hin. rewrite Forall_forall in Hx. exact (Hirr x (Hx x Hin)).
Qed.

Lemma filter_partition_perm (f : A -> bool) (l : list A) :
  Permutation (filter f l ++ filter (fun x => negb (f x)) l) l.
Proof.
  induction l as [|x xs IH]; simpl.
  - constructor.
  - destruct (f x); simpl.
    + now apply perm_skip.
    + apply Permutation_sym, Permutation_cons_app, Permutation_sym, IH.
Qed.

End SortedFacts.

(** ** Binary64 numbers *)

Module NumberFacts.
Import Js Binary64.

Lemma SFcompare_finite (s1 s2 : bool) (m1 m2 : positive) (e1 e2 : Z) :
  SFcompare (S754_finite s1 m1 e1) (S754_finite s2 m2 e2)
    = Some match s1, s2 with
           | true, false => Lt
           | false, true => Gt
           | false, false =>
               match Z.compare e1 e2 with
               | Lt => Lt
               | Gt => Gt
               | Eq => Pos.compare m1 m2
               end
           | true, true =>
               match Z.compare e1 e2 with
               | Lt => Gt
               | Gt => Lt
               | Eq => CompOpp (Pos.compare m1 m2)
               end
           end.
Proof. reflexivity. Qed.

Lemma SFcompare_rank (f g : spec_float) :
  f <> S754_nan -> g <> S754_nan ->
  exists c, SFcompare f g = Some c /\
    match c with
    | Lt => rankLt (rank f) (rank g)
    | Eq => rank f = rank g
    | Gt => rankLt (rank g) (rank f)
    end.
Proof.
  intros Hf Hg.
  destruct f as [s1|s1| |s1 m1 e1], g as [s2|s2| |s2 m2 e2];
    try contradiction.
  9: {
    rewrite SFcompare_finite. cbn [rank].
    destruct s1, s2; try (eexists; split; [reflexivity|]; cbn; lia).
    - destruct (Z.compare_spec e1 e2) as [E|E|E];
        [destruct (Pos.compare_spec m1 m2) as [M|M|M]| |];
        eexists; (split; [reflexivity|]); cbn [CompOpp rankLt]; subst;
        try reflexivity; lia.
    - destruct (Z.compare_spec e1 e2) as [E|E|E];
        [destruct (Pos.compare_spec m1 m2) as [M|M|M]| |];
        eexists; (split; [reflexivity|]); cbn [rankLt]; subst;
        try reflexivity; lia. }
  all: cbn [SFcompare rank].
  all: try destruct s1; try destruct s2; eexists; (split; [reflexivity|]);
    unfold rankLt; cbn; try reflexivity; lia.
Qed.

Lemma SFcompare_nan (f g : spec_float) :
  f = S754_nan \/ g = S754_nan -> SFcompare f g = None.
Proof. intros [-> | ->]; [reflexivity|]. now destruct f. Qed.

Lemma is_nan_spec (x : float) : is_nan x = true <-> Prim2SF x = S754_nan.
Proof.
  unfold is_nan. rewrite eqb_spec. unfold SFeqb.
  destruct (Prim2SF x) as [s|s| |s m e] eqn:E.
  4: { destruct (SFcompare_rank (S754_finite s m e) (S754_finite s m e))
         as (c & -> & Hc); try discriminate.
       destruct c; unfold rankLt in Hc; destruct (rank (S754_finite s m e)) as [[? ?] ?];
         split; try discriminate; lia. }
  all: try destruct s; cbn; split; congruence.
Qed.

Lemma not_nan_spec (x : float) : is_nan x = false <-> Prim2SF x <> S754_nan.
Proof.
  rewrite <- is_nan_spec. destruct (is_nan x); split; congruence.
Qed.

Ltac ranks :=
  unfold rankLe, rankLt in *;
  repeat match goal with
         | |- context [rank ?f] =>
             let c := fresh "c" in let e := fresh "e" in let m := fresh "m" in
             destruct (rank f) as [[c e] m]
         | H : context [rank ?f] |- _ =>
             let c := fresh "c" in let e := fresh "e" in let m := fresh "m" in
             destruct (rank f) as [[c e] m]
         end.

Lemma float_ltb_rank (x y : float) :
  (x <? y)%float = true
  <-> is_nan x = false /\ is_nan y = false
      /\ rankLt (rank (Prim2SF x)) (rank (Prim2SF y)).
Proof.
  rewrite ltb_spec, !not_nan_spec. unfold SFltb.
  destruct (Prim2SF x) as [s1|s1| |s1 m1 e1] eqn:Ex;
    try (cbn; split; [discriminate | intros (H & _); congruence]).
  all: destruct (Prim2SF y) as [s2|s2| |s2 m2 e2] eqn:Ey;
    try (rewrite SFcompare_nan by (now right);
         split; [discriminate | intros (_ & H & _); congruence]).
  all: match goal with
       | |- context [SFcompare ?f ?g] =>
           destruct (SFcompare_rank f g) as (c & -> & Hc); try discriminate
       end.
  all: destruct c; (split; [intros H; try discriminate H;
                             repeat split; try discriminate; exact Hc
                           | intros (_ & _ & H); try reflexivity; exfalso;
                             try rewrite Hc in H; ranks;
                             try injection Hc as -> -> ->; lia]).
Qed.

Lemma float_leb_rank (x y : float) :
  (x <=? y)%float = true
  <-> is_nan x = false /\ is_nan y = false
      /\ rankLe (rank (Prim2SF x)) (rank (Prim2SF y)).
Proof.
  rewrite leb_spec, !not_nan_spec. unfold SFleb.
  destruct (Prim2SF x) as [s1|s1| |s1 m1 e1] eqn:Ex;
    try (cbn; split; [discriminate | intros (H & _); congruence]).
  all: destruct (Prim2SF y) as [s2|s2| |s2 m2 e2] eqn:Ey;
    try (rewrite SFcompare_nan by (now right);
         split; [discriminate | intros (_ & H & _); congruence]).
  all: match goal with
       | |- context [SFcompare ?f ?g] =>
           destruct (SFcompare_rank f g) as (c & -> & Hc); try discriminate
       end.
  all: destruct c; (split; [intros H; try discriminate H;
                             repeat split; try discriminate;
                             try rewrite Hc; ranks; lia
                           | intros (_ & _ & H); try reflexivity; exfalso;
                             ranks; lia]).
Qed.

Lemma float_eqb_rank (x y : float) :
  (x =? y)%float = true
  <-> is_nan x = false /\ is_nan y = false
      /\ rank (Prim2SF x) = rank (Prim2SF y).
Proof.
  rewrite eqb_spec, !not_nan_spec. unfold SFeqb.
  destruct (Prim2SF x) as [s1|s1| |s1 m1 e1] eqn:Ex;
    try (cbn; split; [discriminate | intros (H & _); congruence]).
  all: destruct (Prim2SF y) as [s2|s2| |s2 m2 e2] eqn:Ey;
    try (rewrite SFcompare_nan by (now right);
         split; [discriminate | intros (_ & H & _); congruence]).
  all: match goal with
       | |- context [SFcompare ?f ?g] =>
           destruct (SFcompare_rank f g) as (c & -> & Hc); try discriminate
       end.
  all: destruct c; (split; [intros H; try discriminate H;
                             repeat split; try discriminate; exact Hc
                           | intros (_ & _ & H); try reflexivity; exfalso;
                             rewrite H in Hc; ranks; lia]).
Qed.

(** The order of numbers other than NaN is a total preorder. *)
Lemma float_leb_refl (x : float) : is_nan x = false -> (x <=? x)%float = true.
Proof. intros H. apply float_leb_rank. repeat split; try exact H. ranks. lia. Qed.

Lemma float_leb_trans (x y z : float) :
  (x <=? y)%float = true -> (y <=? z)%float = true -> (x <=? z)%float = true.
Proof.
  rewrite !float_leb_rank. intros (Hx & Hy & H1) (_ & Hz & H2).
  repeat split; try assumption. ranks. lia.
Qed.

Lemma float_leb_total (x y : float) :
  is_nan x = false -> is_nan y = false ->
  (x <=? y)%float = true \/ (y <=? x)%float = true.
Proof.
  intros Hx Hy. rewrite !float_leb_rank.
  assert (rankLe (rank (Prim2SF x)) (rank (Prim2SF y))
          \/ rankLe (rank (Prim2SF y)) (rank (Prim2SF x))) as [H|H]
    by (ranks; lia); [left | right]; repeat split; assumption.
Qed.

Lemma float_ltb_leb (x y : float) :
  is_nan x = false -> is_nan y = false ->
  (x <? y)%float = negb (y <=? x)%float.
Proof.
  intros Hx Hy. apply eq_true_iff_eq.
  rewrite negb_true_iff, <- not_true_iff_false, float_ltb_rank, float_leb_rank.
  split.
  - intros (_ & _ & H) (_ & _ & H'). ranks. lia.
  - intros H. repeat split; try assumption.
    assert (rankLt (rank (Prim2SF x)) (rank (Prim2SF y))
            \/ rankLe (rank (Prim2SF y)) (rank (Prim2SF x))) as [H'|H']
      by (ranks; lia); [exact H'|]. exfalso. apply H. repeat split; assumption.
Qed.

Lemma float_eqb_leb (x y : float) :
  (x =? y)%float = ((x <=? y) && (y <=? x))%float.
Proof.
  apply eq_true_iff_eq. rewrite andb_true_iff, float_eqb_rank, !float_leb_rank. split.
  - intros (Hx & Hy & H). rewrite H. repeat split; try assumption; ranks; lia.
  - intros [(Hx & Hy & H) (_ & _ & H')]. repeat split; try assumption.
    ranks. f_equal; [f_equal|]; lia.
Qed.

Lemma float_ltb_nan (x y : float) :
  (x <? y)%float = true -> is_nan x = false /\ is_nan y = false.
Proof. rewrite float_ltb_rank. tauto. Qed.

Lemma float_leb_nan (x y : float) :
  (x <=? y)%float = true -> is_nan x = false /\ is_nan y = false.
Proof. rewrite float_leb_rank. tauto. Qed.

(** *** Rounding keeps the sign *)

Lemma fexp_eq (x : Z) : fexp prec emax x = Z.max (x - 53) (-1074).
Proof. reflexivity. Qed.

Lemma digits2_bounds (m : positive) :
  2 ^ (Zpos (digits2_pos m) - 1) <= Zpos m < 2 ^ Zpos (digits2_pos m).
Proof.
  induction m as [m IH|m IH|]; cbn [digits2_pos].
  - rewrite Pos2Z.inj_succ.
    replace (Z.succ (Zpos (digits2_pos m)) - 1)
      with (Z.succ (Zpos (digits2_pos m) - 1)) by lia.
    rewrite !Z.pow_succ_r by lia. lia.
  - rewrite Pos2Z.inj_succ.
    replace (Z.succ (Zpos (digits2_pos m)) - 1)
      with (Z.succ (Zpos (digits2_pos m) - 1)) by lia.
    rewrite !Z.pow_succ_r by lia. lia.
  - cbn. lia.
Qed.

Lemma shr_1_lower (mrs : shr_record) (k : Z) :
  1 <= k -> 2 ^ k <= shr_m mrs -> 2 ^ (k - 1) <= shr_m (shr_1 mrs).
Proof.
  intros Hk. replace k with (Z.succ (k - 1)) at 1 by lia.
  rewrite Z.pow_succ_r by lia.
  pose proof (Z.pow_pos_nonneg 2 (k - 1) ltac:(lia) ltac:(lia)) as Hp.
  destruct mrs as [m r s]. cbn [shr_m shr_1].
  destruct m as [|[p|p|]|p]; cbn [shr_m]; intros H; lia.
Qed.

Lemma iter_shr_lower (n : positive) :
  forall (mrs : shr_record) (k : Z),
    Zpos n <= k -> 2 ^ k <= shr_m mrs ->
    2 ^ (k - Zpos n) <= shr_m (iter_pos shr_1 n mrs).
Proof.
  induction n as [n IH|n IH|]; intros mrs k Hk H; cbn [iter_pos].
  - replace (k - Zpos n~1) with (k - 1 - Zpos n - Zpos n) by lia.
    apply IH; [lia|]. apply IH; [lia|]. apply shr_1_lower; [lia | exact H].
  - replace (k - Zpos n~0) with (k - Zpos n - Zpos n) by lia.
    apply IH; [lia|]. apply IH; [lia | exact H].
  - apply shr_1_lower; [lia | exact H].
Qed.

Lemma shr_m_of_loc (m : Z) (l : location) : shr_m (shr_record_of_loc m l) = m.
Proof. destruct l as [|[ | | ]]; reflexivity. Qed.

Lemma shr_fexp_pos (m : positive) (e : Z) (l : location) :
  -1074 <= e ->
  0 < shr_m (fst (shr_fexp prec emax (Zpos m) e l)) /\
  -1074 <= snd (shr_fexp prec emax (Zpos m) e l).
Proof.
  intros He. unfold shr_fexp, shr. cbn [Zdigits2]. rewrite fexp_eq.
  pose proof (digits2_bounds m) as [Hd _].
  destruct (Z.max (Zpos (digits2_pos m) + e - 53) (-1074) - e) as [|p|p] eqn:En;
    cbn [fst snd]; rewrite ?shr_m_of_loc; try (split; lia).
  split; [|lia].
  assert (Hp : Zpos p = Zpos (digits2_pos m) - 53) by lia.
  pose proof (iter_shr_lower p (shr_record_of_loc (Zpos m) l)
                (Zpos (digits2_pos m) - 1) ltac:(lia)) as H.
  rewrite shr_m_of_loc in H. specialize (H Hd).
  pose proof (Z.pow_pos_nonneg 2 (Zpos (digits2_pos m) - 1 - Zpos p)
                ltac:(lia) ltac:(lia)).
  lia.
Qed.

Lemma round_nearest_even_pos (mrs : shr_record) :
  0 < shr_m mrs -> 0 < round_nearest_even (shr_m mrs) (loc_of_shr_record mrs).
Proof.
  destruct mrs as [m [|] [|]]; cbn [shr_m loc_of_shr_record round_nearest_even];
    try destruct (Z.even m); lia.
Qed.

Lemma binary_round_aux_signed (s : bool) (m : positive) (e : Z) (l : location) :
  -1074 <= e -> signed s (binary_round_aux prec emax s (Zpos m) e l).
Proof.
  intros He. unfold binary_round_aux.
  pose proof (shr_fexp_pos m e l He) as [H1 H2].
  destruct (shr_fexp prec emax (Zpos m) e l) as [mrs' e']. cbn [fst snd] in H1, H2.
  pose proof (round_nearest_even_pos mrs' H1) as Hr.
  destruct (round_nearest_even (shr_m mrs') (loc_of_shr_record mrs')) as [|r|r];
    try lia.
  pose proof (shr_fexp_pos r e' loc_Exact H2) as [H3 _].
  destruct (shr_fexp prec emax (Zpos r) e' loc_Exact) as [mrs'' e''].
  cbn [fst] in H3.
  destruct (shr_m mrs'') as [|q|q]; try lia.
  destruct (e'' <=? emax - prec); [left; eauto | now right].
Qed.

Lemma binary_round_signed (s : bool) (m : positive) (e : Z) :
  -1074 <= e -> signed s (binary_round prec emax s m e).
Proof.
  intros He. unfold binary_round, shl_align. rewrite fexp_eq.
  destruct (Z.max (Zpos (digits2_pos m) + e - 53) (-1074) - e) eqn:En;
    apply binary_round_aux_signed; lia.
Qed.

(** The exponent and the digits of a finite number. *)
Lemma valid_finite (s : bool) (m : positive) (e : Z) :
  valid_binary (S754_finite s m e) = true ->
  -1074 <= e /\ Zpos (digits2_pos m) <= 53 /\
  (-1074 < e -> Zpos (digits2_pos m) = 53).
Proof.
  cbn [SpecFloat.valid_binary]. unfold bounded, canonical_mantissa.
  rewrite andb_true_iff, Z.eqb_eq, fexp_eq. lia.
Qed.





Lemma binary_normalize_signed (z e : Z) :
  -1074 <= e ->
  match z with
  | Z0 => binary_normalize prec emax z e false = S754_zero false
  | Zpos _ => signed false (binary_normalize prec emax z e false)
  | Zneg _ => signed true (binary_normalize prec emax z e false)
  end.
Proof.
  intros He. destruct z; cbn [binary_normalize];
    [reflexivity | now apply binary_round_signed ..].
Qed.


Lemma zero_leb_signed (f : spec_float) (s : bool) :
  signed s f -> SFleb (S754_zero false) f = negb s.
Proof. intros [(m & e & ->) | ->]; destruct s; reflexivity. Qed.


(** The sum of two numbers that are not negative is not negative. *)
Lemma add_nonneg (a b : float) :
  (0 <=? a)%float = true -> (0 <=? b)%float = true ->
  (0 <=? a + b)%float = true.
Proof.
  rewrite !leb_spec, add_spec. change (Prim2SF 0) with (S754_zero false).
  pose proof (Prim2SF_valid a) as Va. pose proof (Prim2SF_valid b) as Vb.
  destruct (Prim2SF a) as [sa|sa| |sa ma ea], (Prim2SF b) as [sb|sb| |sb mb eb];
    try discriminate;
    try (destruct sa; try discriminate); try (destruct sb; try discriminate);
    try reflexivity; try (intros; assumption).
  intros _ _. unfold SF64add, SFadd. cbn [cond_Zopp].
  pose proof (valid_finite _ _ _ Va) as (La & _).
  pose proof (valid_finite _ _ _ Vb) as (Lb & _).
  pose proof (binary_normalize_signed
                (Zpos (fst (shl_align ma ea (Z.min ea eb)))
                 + Zpos (fst (shl_align mb eb (Z.min ea eb))))
                (Z.min ea eb) ltac:(lia)) as Hn.
  cbn [Z.add] in Hn |- *. now rewrite (zero_leb_signed _ _ Hn).
Qed.

(** [x || 0] and what it changes in a sum. *)
Lemma falsy_zero (x : float) :
  is_nan x = false -> falsy x = true -> exists s, Prim2SF x = S754_zero s.
Proof.
  unfold falsy. intros Hn. rewrite Hn. cbn [orb]. rewrite float_eqb_rank.
  intros (_ & _ & H). change (Prim2SF 0) with (S754_zero false) in H.
  apply not_nan_spec in Hn.
  destruct (Prim2SF x) as [s|s| |s m e]; try contradiction; eauto;
    destruct s; discriminate.
Qed.

Lemma orZero_add (acc a : float) :
  is_nan acc = false -> Prim2SF a <> S754_zero true ->
  (orZero acc + a)%float = (acc + a)%float.
Proof.
  intros Hn Ha. unfold orZero. destruct (falsy acc) eqn:F; [|reflexivity].
  destruct (falsy_zero acc Hn F) as (s & E).
  apply Prim2SF_inj. rewrite !add_spec, E.
  change (Prim2SF 0) with (S754_zero false).
  destruct (Prim2SF a) as [sa|sa| |sa ma ea]; try reflexivity.
  destruct sa; [contradiction|]. destruct s; reflexivity.
Qed.

Lemma orZero_not_negative_zero (x : float) : Prim2SF (orZero x) <> S754_zero true.
Proof.
  unfold orZero. destruct (falsy x) eqn:F.
  - change (Prim2SF 0) with (S754_zero false). discriminate.
  - intros E. unfold falsy in F. apply orb_false_iff in F as [Hn F].
    assert ((x =? 0)%float = true) as H; [|congruence].
    apply float_eqb_rank. split; [exact Hn|]. split; [reflexivity|].
    rewrite E. reflexivity.
Qed.

Lemma orZero_nonneg (x : float) :
  (0 <=? x)%float = true -> orZero x = x \/ orZero x = 0%float.
Proof. unfold orZero. destruct (falsy x); auto. Qed.

(** A positive number: not NaN and not at most 0. *)
Lemma positive_iff (a : float) :
  is_nan a || (a <=? 0)%float = false <-> (0 <? a)%float = true.
Proof.
  rewrite orb_false_iff. split.
  - intros [Hn H]. rewrite float_ltb_leb by (exact Hn || reflexivity).
    now rewrite H.
  - intros H. destruct (float_ltb_nan _ _ H) as [_ Hn]. split; [exact Hn|].
    rewrite float_ltb_leb in H by (exact Hn || reflexivity).
    now apply negb_true_iff in H.
Qed.

Lemma nonneg_not_nan (x : float) : (0 <=? x)%float = true -> is_nan x = false.
Proof. intros H. apply (float_leb_nan _ _ H). Qed.

Lemma fold_add_nonneg (l : list float) (acc : float) :
  (0 <=? acc)%float = true ->
  Forall (fun a => (0 <=? a)%float = true) l ->
  (0 <=? fold_left PrimFloat.add l acc)%float = true.
Proof.
  revert acc. induction l as [|a l IH]; intros acc Hacc Hl; [exact Hacc|].
  inversion Hl as [|? ? Ha Hl']; subst. cbn [fold_left].
  apply IH; [now apply add_nonneg | exact Hl'].
Qed.





End NumberFacts.

(** ** Objects and array indices *)

Module JsFacts.
Import Js.

Lemma own_replace (o : object) (k k' : string) (v v0 : value) :
  own o k = Some v0 ->
  own (replace o k v) k' = if String.eqb k' k then Some v else own o k'.
Proof.
  induction o as [|[k1 v1] o IH]; simpl; [discriminate|].
  destruct (String.eqb k k1) eqn:E; intros H.
  - apply String.eqb_eq in E. subst k1. simpl.
    destruct (String.eqb k' k); reflexivity.
  - simpl. destruct (String.eqb k' k1) eqn:E1.
    + apply String.eqb_eq in E1. subst k1.
      rewrite String.eqb_sym, E. reflexivity.
    + now apply IH.
Qed.

Lemma replace_keys (o : object) (k : string) (v : value) :
  map fst (replace o k v) = map fst o.
Proof.
  induction o as [|[k1 v1] o IH]; simpl; [reflexivity|].
  destruct (String.eqb k k1); simpl; [reflexivity | now rewrite IH].
Qed.

Lemma own_app (o : object) (k k' : string) (v : value) :
  own (o ++ [(k, v)]) k' =
  match own o k' with
  | Some x => Some x
  | None => if String.eqb k' k then Some v else None
  end.
Proof.
  induction o as [|[k1 v1] o IH]; simpl; [reflexivity|].
  destruct (String.eqb k' k1); [reflexivity | exact IH].
Qed.

Lemma own_None (o : object) (k : string) :
  own o k = None <-> ~ In k (map fst o).
Proof.
  induction o as [|[k1 v1] o IH]; simpl; [tauto|].
  destruct (String.eqb k k1) eqn:E.
  - apply String.eqb_eq in E. subst. split; [discriminate | intros H; exfalso; auto].
  - apply String.eqb_neq in E. rewrite IH. split.
    + intros H [H1|H1]; [congruence | auto].
    + intros H H1. auto.
Qed.

Lemma own_In (o : object) (k : string) (v : value) :
  NoDup (map fst o) -> In (k, v) o -> own o k = Some v.
Proof.
  induction o as [|[k1 v1] o IH]; simpl; [tauto|].
  intros Hnd [H|H]; inversion Hnd as [|? ? Hnotin Hnd']; subst.
  - inversion H; subst. now rewrite String.eqb_refl.
  - destruct (String.eqb k k1) eqn:E.
    + apply String.eqb_eq in E. subst. exfalso. apply Hnotin.
      apply in_map_iff. now exists (k1, v).
    + now apply IH.
Qed.

Lemma own_Some_In (o : object) (k : string) (v : value) :
  own o k = Some v -> In (k, v) o.
Proof.
  induction o as [|[k1 v1] o IH]; simpl; [discriminate|].
  destruct (String.eqb k k1) eqn:E.
  - apply String.eqb_eq in E. subst. intros [= ->]. now left.
  - intros H. right. now apply IH.
Qed.


Lemma isDigit_bounds (c : ascii) :
  isDigit c = true -> (48 <= N_of_ascii c <= 57)%N.
Proof.
  unfold isDigit. rewrite andb_true_iff, !N.leb_le. tauto.
Qed.

Lemma digitsValue_place (s : string) (acc : N) :
  allDigits s = true ->
  digitsValue s acc = Some (acc * pow10 (String.length s) + placeValue s)%N.
Proof.
  revert acc. induction s as [|c s IH];
    cbn [allDigits digitsValue placeValue String.length pow10]; intros acc H.
  - f_equal. lia.
  - apply andb_true_iff in H as [Hc Hs]. rewrite Hc, (IH _ Hs).
    f_equal. ring.
Qed.

Lemma digitsValue_allDigits (s : string) (acc n : N) :
  digitsValue s acc = Some n -> allDigits s = true.
Proof.
  revert acc. induction s as [|c s IH]; simpl; intros acc H; [reflexivity|].
  destruct (isDigit c); [|discriminate]. simpl. eapply IH, H.
Qed.



(** What [arrayIndex] accepts: the digit strings without a leading zero. *)
Lemma arrayIndex_canonical (k : string) (n : N) :
  arrayIndex k = Some n ->
  allDigits k = true /\ placeValue k = n /\
  (k = "0" \/ exists c r, k = String c r /\ (49 <= N_of_ascii c)%N).
Proof.
  unfold arrayIndex. destruct k as [|c r]; [discriminate|].
  destruct (Ascii.eqb c "0" && negb (String.eqb r "")) eqn:E; [discriminate|].
  destruct (digitsValue (String c r) 0) as [m|] eqn:D; [|discriminate].
  destruct (m <? 4294967295)%N; [|discriminate]. intros [= <-].
  pose proof (digitsValue_allDigits _ _ _ D) as Hall.
  rewrite (digitsValue_place _ _ Hall) in D.
  assert (placeValue (String c r) = m) as Hm.
  { apply (f_equal (fun o => match o with Some x => x | None => 0%N end)) in D.
    exact D. }
  split; [exact Hall|]. split; [exact Hm|].
  destruct (Ascii.eqb c "0") eqn:E0; simpl in E.
  - left. apply negb_false_iff, String.eqb_eq in E. subst r.
    apply Ascii.eqb_eq in E0. now subst.
  - right. exists c, r. split; [reflexivity|].
    simpl in Hall. apply andb_true_iff in Hall as [Hc _].
    apply isDigit_bounds in Hc. apply Ascii.eqb_neq in E0.
    assert (N_of_ascii c <> 48%N).
    { intros H. apply E0. rewrite <- (ascii_N_embedding c), H. reflexivity. }
    lia.
Qed.




Lemma ownEntries_perm (o : object) : Permutation (ownEntries o) o.
Proof.
  unfold ownEntries.
  eapply perm_trans; [|apply (filter_partition_perm (fun p => isIndex (fst p)))].
  apply Permutation_app_tail, sortBy_perm.
Qed.

End JsFacts.

(** ** categoryTotals *)

Module ClientFacts.
Import Js Client JsFacts NumberFacts.

Lemma addAll_snoc (l : list float) (a : float) :
  addAll (l ++ [a]) = (addAll l + a)%float.
Proof. unfold addAll. now rewrite fold_left_app. Qed.



Lemma sumAmounts_nonneg (l : list expense) :
  noneNegative l -> (0 <=? sumAmounts l)%float = true.
Proof.
  intros H. unfold sumAmounts, addAll.
  apply fold_add_nonneg; [reflexivity|].
  apply Forall_forall. intros a Ha.
  apply in_map_iff in Ha as (e & <- & He). now apply H.
Qed.


Lemma amountOf_not_negative_zero (e : expense) :
  Prim2SF (amountOf e) <> S754_zero true.
Proof.
  unfold amountOf. destruct (amount e).
  - apply orZero_not_negative_zero.
  - discriminate.
Qed.













(** The sample expenses of July 2025. *)
Example categoryTotals_july :
  categoryTotals july
    = [("Utilities", Num 60); ("Food", Num 24.5); ("Transport", Num 2.75)].
Proof. reflexivity. Qed.

(** Totals are sums of doubles: 0.1 + 0.2 is above 0.3, and category B
    comes first. *)
Example categoryTotals_rounding :
  categoryTotals
    [ mkExpense 1 "Rent" (Some 0.3%float) (Some "A") "2025-07-01";
      mkExpense 2 "Fuel" (Some 0.1%float) (Some "B") "2025-07-02";
      mkExpense 3 "Oil" (Some 0.2%float) (Some "B") "2025-07-03" ]
  = [("B", Num 0.30000000000000004); ("A", Num 0.3)].
Proof. reflexivity. Qed.

(** C1. Conservation of the total fails on an expense whose category is
    a property name of [Object.prototype]. For [__proto__] the read yields
    [Object.prototype], the sum is a string and the assignment is dropped
    by the inherited setter: the expense is in no total. For [constructor]
    the total of the category is a string, not the sum of its amounts. *)
Theorem categoryTotals_inherited_names_break_conservation :
  let gift := mkExpense 6 "Gift" (Some 5%float) (Some "__proto__") "2025-08-09" in
  let fee := mkExpense 7 "Fee" (Some 5%float) (Some "constructor") "2025-08-09" in
  (categoryTotals [gift] = [] /\
   sumValues (categoryTotals [gift]) = Some 0%float /\
   sumAmounts [gift] = 5%float) /\
  (categoryTotals [fee] = [("constructor", Str "constructor" [5%float])] /\
   sumValues (categoryTotals [fee]) = None /\ sumAmounts [fee] = 5%float).
Proof. repeat split. Qed.




(** *** monthlyTotals *)

Lemma length_append (a b : string) :
  String.length (a ++ b) = (String.length a + String.length b)%nat.
Proof. induction a as [|c a IH]; simpl; [reflexivity | now rewrite IH]. Qed.

Lemma append_inj_suffix (a a' b b' : string) :
  String.length b = String.length b' ->
  (a ++ b)%string = (a' ++ b')%string -> a = a' /\ b = b'.
Proof.
  revert a'. induction a as [|c a IH]; intros [|c' a'] Hlen H; simpl in H.
  - auto.
  - exfalso. apply (f_equal String.length) in H. simpl in H.
    rewrite length_append in H. lia.
  - exfalso. apply (f_equal String.length) in H. simpl in H.
    rewrite length_append in H. lia.
  - injection H as -> H. destruct (IH _ Hlen H) as [-> ->]. auto.
Qed.

Lemma decimal_inj (a b : Z) : decimal a = decimal b -> a = b.
Proof.
  unfold decimal. intros H.
  apply DecimalZ.to_int_inj.
  assert (forall z, NilZero.int_of_string (NilZero.string_of_int (Z.to_int z))
                    = Some (Z.to_int z)) as Hisi.
  { intros z. apply NilZero.isi.
    - destruct z; simpl; try discriminate.
      intros [= E]. revert E. apply DecimalPos.Unsigned.to_uint_nonnil.
    - destruct z; simpl; try discriminate.
      intros [= E]. revert E. apply DecimalPos.Unsigned.to_uint_nonnil. }
  pose proof (Hisi a) as Ha. rewrite H, Hisi in Ha. congruence.
Qed.

Lemma month_cases (m : Z) :
  0 <= m < 12 ->
  m = 0 \/ m = 1 \/ m = 2 \/ m = 3 \/ m = 4 \/ m = 5 \/
  m = 6 \/ m = 7 \/ m = 8 \/ m = 9 \/ m = 10 \/ m = 11.
Proof. lia. Qed.

Lemma monthText_length (m : Z) :
  0 <= m < 12 -> String.length (monthText m) = 2%nat.
Proof.
  intros H. apply month_cases in H.
  repeat (destruct H as [->|H]; [reflexivity|]). now subst.
Qed.

Lemma monthText_inj (m m' : Z) :
  0 <= m < 12 -> 0 <= m' < 12 -> monthText m = monthText m' -> m = m'.
Proof.
  intros H H'. apply month_cases in H, H'.
  repeat (destruct H as [->|H]); try subst m;
    repeat (destruct H' as [->|H']); try subst m';
    intros E; try reflexivity; vm_compute in E; discriminate.
Qed.

Lemma monthKey_Some (y m : Z) :
  monthKey (Some (y, m)) = (decimal y ++ ("-" ++ monthText m))%string.
Proof. reflexivity. Qed.

Lemma monthKey_inj (d d' : option (Z * Z)) :
  validMonth d -> validMonth d' -> monthKey d = monthKey d' -> d = d'.
Proof.
  destruct d as [[y m]|], d' as [[y' m']|]; cbn [validMonth]; intros H H' E.
  - rewrite !monthKey_Some in E.
    apply append_inj_suffix in E as [Ey Em].
    + apply decimal_inj in Ey. injection Em as Em.
      apply monthText_inj in Em; auto. congruence.
    + cbn [String.length append]. now rewrite !monthText_length.
  - exfalso. rewrite monthKey_Some in E.
    change (monthKey None) with ("NaN-" ++ "NaN")%string in E.
    apply append_inj_suffix in E as [_ E]; [discriminate|].
    cbn [String.length append]. now rewrite monthText_length.
  - exfalso. rewrite monthKey_Some in E.
    change (monthKey None) with ("NaN-" ++ "NaN")%string in E.
    symmetry in E.
    apply append_inj_suffix in E as [_ E]; [discriminate|].
    cbn [String.length append]. now rewrite monthText_length.
  - reflexivity.
Qed.

Lemma hasDash_append (a b : string) :
  hasDash (a ++ b) = hasDash a || hasDash b.
Proof.
  unfold hasDash. induction a as [|c a IH];
    cbn [existsb list_ascii_of_string append]; [reflexivity|].
  rewrite IH. now rewrite orb_assoc.
Qed.

Lemma monthKey_dash (d : option (Z * Z)) : hasDash (monthKey d) = true.
Proof.
  destruct d as [[y m]|]; [|reflexivity].
  rewrite monthKey_Some, !hasDash_append. cbn. now rewrite orb_true_r.
Qed.

Lemma inherited_no_dash (k : string) : inherited k = true -> hasDash k = false.
Proof.
  unfold inherited. intros H. apply existsb_exists in H as (x & Hx & E).
  apply String.eqb_eq in E. subst x.
  cbn in Hx. repeat (destruct Hx as [<-|Hx]; [reflexivity|]). contradiction.
Qed.

Lemma allDigits_no_dash (k : string) : allDigits k = true -> hasDash k = false.
Proof.
  unfold hasDash. induction k as [|c k IH];
    cbn [existsb list_ascii_of_string allDigits]; [reflexivity|].
  intros H. apply andb_true_iff in H as [Hc Hk]. rewrite (IH Hk), orb_false_r.
  apply isDigit_bounds in Hc. apply Ascii.eqb_neq. intros <-. cbn in Hc. lia.
Qed.

Lemma monthKey_plain (d : option (Z * Z)) :
  inherited (monthKey d) = false /\ isIndex (monthKey d) = false /\
  String.eqb (monthKey d) "__proto__" = false.
Proof.
  pose proof (monthKey_dash d) as Hd.
  assert (Hi : inherited (monthKey d) = false).
  { destruct (inherited (monthKey d)) eqn:E; [|reflexivity].
    apply inherited_no_dash in E. congruence. }
  split; [exact Hi|]. split.
  - unfold isIndex. destruct (arrayIndex (monthKey d)) as [n|] eqn:E; [|reflexivity].
    apply arrayIndex_canonical in E as [E _].
    apply allDigits_no_dash in E. congruence.
  - apply String.eqb_neq. intros E. rewrite E in Hi. discriminate.
Qed.

Section MonthlyFacts.
Variable lenient : bool.
Variable behindUTC : Z -> Z -> Z -> bool.
Variable monthYear : Z -> Z -> string.

Lemma sameMonth_eq (a b : option (Z * Z)) : sameMonth a b = true <-> a = b.
Proof.
  destruct a as [[y m]|], b as [[y' m']|]; cbn; split; try congruence.
  - rewrite andb_true_iff, !Z.eqb_eq. intros [-> ->]. reflexivity.
  - intros [= -> ->]. now rewrite !Z.eqb_refl.
Qed.

Lemma daysInMonth_cases (y m : Z) :
  1 <= m <= 12 ->
  28 <= daysInMonth y m <= 31 /\ (m = 12 -> daysInMonth y m = 31).
Proof.
  intros Hm. unfold daysInMonth.
  destruct (m =? 2) eqn:E2; [destruct (isLeap y); lia|].
  destruct ((m =? 4) || (m =? 6) || (m =? 9) || (m =? 11)) eqn:E.
  - rewrite !orb_true_iff, !Z.eqb_eq in E. lia.
  - lia.
Qed.

(** The date read is a day of a month of the calendar, also after the
    carry of a lenient engine. *)
Lemma parseDate_month (s : string) (y m d : Z) :
  parseDate lenient s = Some (y, m, d) -> 1 <= m <= 12 /\ 1 <= d <= 31.
Proof.
  unfold parseDate. destruct (datePattern s); [|discriminate].
  destruct (toNumber (substring 0 4 s)) as [y0|]; [|discriminate].
  destruct (toNumber (substring 5 2 s)) as [m0|]; [|discriminate].
  destruct (toNumber (substring 8 2 s)) as [d0|]; [|discriminate].
  destruct ((1 <=? m0) && (m0 <=? 12) && (1 <=? d0) && (d0 <=? 31)) eqn:E;
    [|discriminate].
  rewrite !andb_true_iff, !Z.leb_le in E.
  destruct (daysInMonth_cases y0 m0 ltac:(lia)) as [Hd H12].
  destruct (d0 <=? daysInMonth y0 m0) eqn:Ed.
  - intros [= <- <- <-]. lia.
  - apply Z.leb_gt in Ed. destruct lenient; [|discriminate].
    intros [= <- <- <-]. lia.
Qed.

Lemma dateOfString_valid (s : string) :
  validMonth (dateOfString lenient behindUTC s).
Proof.
  unfold dateOfString.
  destruct (parseDate lenient s) as [[[y m] d]|] eqn:E; [|exact I].
  apply parseDate_month in E.
  destruct ((d =? 1) && behindUTC y m d); cbn [validMonth].
  - apply Z.mod_pos_bound. lia.
  - lia.
Qed.

Lemma newDate_valid (y m : Z) : validMonth (newDate (Some y) (Some m)).
Proof. cbn. apply Z.mod_pos_bound. lia. Qed.

Lemma window_valid (y m : Z) (n : nat) (d : option (Z * Z)) :
  In d (window y m n) -> validMonth d.
Proof.
  unfold window. intros H. apply in_map_iff in H as (i & <- & _).
  apply newDate_valid.
Qed.

Lemma keyTotal_monthTotal (d : option (Z * Z)) (es : list expense) :
  validMonth d ->
  keyTotal lenient behindUTC (monthKey d) es = monthTotal lenient behindUTC d es.
Proof.
  intros Hd. unfold keyTotal, monthTotal. f_equal. apply filter_ext. intros e.
  destruct (sameMonth (dateOfString lenient behindUTC (date e)) d) eqn:E.
  - apply sameMonth_eq in E. rewrite E. apply String.eqb_refl.
  - apply String.eqb_neq. intros K.
    apply monthKey_inj in K; auto using dateOfString_valid.
    apply sameMonth_eq in K. congruence.
Qed.

Lemma NoDup_map_inj {A B : Type} (f : A -> B) (l : list A) :
  (forall a b, In a l -> In b l -> f a = f b -> a = b) ->
  NoDup l -> NoDup (map f l).
Proof.
  intros Hinj. induction 1 as [|x xs Hx Hnd IH]; simpl; constructor.
  - intros H. apply in_map_iff in H as (a & E & Ha).
    apply Hinj in E; simpl; auto. now subst.
  - apply IH. intros a b Ha Hb. apply Hinj; now right.
Qed.

Lemma window_NoDup (y m : Z) (n : nat) : NoDup (window y m n).
Proof.
  unfold window. apply NoDup_map_inj; [|apply NoDup_rev, seq_NoDup].
  intros a b _ _. cbn. intros [= Hq Hr].
  set (y' := if (0 <=? y) && (y <=? 99) then 1900 + y else y) in *.
  pose proof (Z.div_mod (m - Z.of_nat a) 12 ltac:(lia)).
  pose proof (Z.div_mod (m - Z.of_nat b) 12 ltac:(lia)).
  lia.
Qed.

Lemma window_length (y m : Z) (n : nat) : List.length (window y m n) = n.
Proof. unfold window. now rewrite length_map, length_rev, length_seq. Qed.

Lemma fold_set_zero (ks : list string) (o : object) :
  NoDup ks ->
  (forall k, In k ks -> own o k = None /\ String.eqb k "__proto__" = false) ->
  fold_left (fun map k => set map k (Num 0%float)) ks o
    = o ++ map (fun k => (k, Num 0%float)) ks.
Proof.
  revert o. induction ks as [|k ks IH]; intros o Hnd H; simpl.
  - now rewrite app_nil_r.
  - inversion Hnd as [|? ? Hk Hnd']; subst.
    destruct (H k (or_introl eq_refl)) as [Hown Hp].
    unfold set at 2. rewrite Hown, Hp.
    rewrite IH; auto.
    + now rewrite <- app_assoc.
    + intros k' Hk'. destruct (H k' (or_intror Hk')) as [Ho' Hp'].
      split; [|exact Hp']. rewrite own_app, Ho'.
      destruct (String.eqb k' k) eqn:E; [|reflexivity].
      apply String.eqb_eq in E. subst. contradiction.
Qed.

Lemma fold_left_keys {A B C : Type} (f : A -> B -> A) (g : C -> B)
    (l : list C) (a : A) :
  fold_left (fun acc i => f acc (g i)) l a = fold_left f (map g l) a.
Proof. revert a. induction l as [|x l IH]; simpl; auto. Qed.

Lemma addToMonth_step (o : object) (e : expense) :
  (forall k v, own o k = Some v -> exists t, v = Num t) ->
  let key := monthKey (dateOfString lenient behindUTC (date e)) in
  map fst (addToMonth lenient behindUTC o e) = map fst o /\
  (forall k t, own o k = Some (Num t) ->
     own (addToMonth lenient behindUTC o e) k
       = Some (Num (if String.eqb key k then (t + amountOf e)%float else t))) /\
  (forall k v, own (addToMonth lenient behindUTC o e) k = Some v ->
     exists t, v = Num t).
Proof.
  intros Hnum key. unfold addToMonth. fold key.
  destruct (monthKey_plain (dateOfString lenient behindUTC (date e))) as (Hi & _ & _).
  fold key in Hi. unfold has, get, set.
  destruct (own o key) as [v|] eqn:Hown.
  - destruct (Hnum _ _ Hown) as [t0 ->]. cbn [plus].
    split; [apply replace_keys|]. split.
    + intros k t Hk. rewrite (own_replace _ _ _ _ _ Hown).
      rewrite (String.eqb_sym k key).
      destruct (String.eqb key k) eqn:E.
      * apply String.eqb_eq in E. subst k. congruence.
      * exact Hk.
    + intros k v. rewrite (own_replace _ _ _ _ _ Hown).
      destruct (String.eqb k key); [intros [= <-]; eauto | apply Hnum].
  - rewrite Hi. split; [reflexivity|]. split; [|exact Hnum].
    intros k t Hk.
    destruct (String.eqb key k) eqn:E.
    + apply String.eqb_eq in E. subst k. congruence.
    + exact Hk.
Qed.

(** A bucket that holds [t] ends with [t] plus, from left to right, the
    amounts of the expenses of its key. *)
Lemma addToMonth_fold (es : list expense) (o : object) :
  (forall k v, own o k = Some v -> exists t, v = Num t) ->
  map fst (fold_left (addToMonth lenient behindUTC) es o) = map fst o /\
  (forall k t, own o k = Some (Num t) ->
     own (fold_left (addToMonth lenient behindUTC) es o) k
       = Some (Num (fold_left PrimFloat.add
                      (map amountOf
                         (filter (fun e => String.eqb
                                    (monthKey (dateOfString lenient behindUTC (date e))) k)
                                 es))
                      t))).
Proof.
  revert o. induction es as [|e es IH]; intros o Hnum; cbn [fold_left].
  - split; [reflexivity|]. intros k t Hk. exact Hk.
  - destruct (addToMonth_step o e Hnum) as (Hkeys & Hval & Hnum').
    destruct (IH _ Hnum') as (Hkeys' & Hval').
    split; [congruence|].
    intros k t Hk. rewrite (Hval' _ _ (Hval _ _ Hk)).
    cbn [filter]. destruct (String.eqb _ k); reflexivity.
Qed.

Lemma ownEntries_plain (o : object) :
  (forall p, In p o -> isIndex (fst p) = false) -> ownEntries o = o.
Proof.
  intros H. unfold ownEntries.
  assert (filter (fun p => isIndex (fst p)) o = []) as ->.
  { induction o as [|p o IH]; cbn [filter]; [reflexivity|].
    rewrite (H p (or_introl eq_refl)). apply IH. intros q Hq. apply H. now right. }
  cbn [sortBy app].
  induction o as [|p o IH]; cbn [filter]; [reflexivity|].
  rewrite (H p (or_introl eq_refl)). cbn [negb]. f_equal.
  apply IH. intros q Hq. apply H. now right.
Qed.

(** [monthlyTotals] has one bucket per month of the window, oldest first,
    labelled from its key; the value of a bucket is the sum of the amounts
    of the expenses whose date, read in local time, falls in its month. *)
Lemma monthlyTotals_buckets (y m : Z) (es : list expense) (n : nat) :
  monthlyTotals lenient behindUTC monthYear y m es n
    = mkSeries (map (fun d => prettyLabel monthYear (monthKey d)) (window y m n))
               (map (fun d => Num (monthTotal lenient behindUTC d es)) (window y m n)).
Proof.
  unfold monthlyTotals.
  rewrite (fold_left_keys (fun map k => set map k (Num 0%float))
             (fun i => monthKey (newDate (Some y) (Some (m - Z.of_nat i))))).
  rewrite <- (map_map (fun i => newDate (Some y) (Some (m - Z.of_nat i))) monthKey).
  fold (window y m n).
  assert (Hnd : NoDup (map monthKey (window y m n))).
  { apply NoDup_map_inj; [|apply window_NoDup].
    intros a b Ha Hb. apply monthKey_inj; eauto using window_valid. }
  rewrite fold_set_zero; [|exact Hnd|].
  2:{ intros k Hk. split; [reflexivity|].
      apply in_map_iff in Hk as (d & <- & _). apply monthKey_plain. }
  cbn [app]. rewrite map_map.
  set (map0 := map (fun d => (monthKey d, Num 0%float)) (window y m n)).
  assert (Hkeys0 : map fst map0 = map monthKey (window y m n)).
  { unfold map0. rewrite map_map. reflexivity. }
  assert (Hnum0 : forall k v, own map0 k = Some v -> exists t, v = Num t).
  { intros k v Hk. apply own_Some_In in Hk. unfold map0 in Hk.
    apply in_map_iff in Hk as (d & [= <- <-] & _). eauto. }
  destruct (addToMonth_fold es map0 Hnum0) as (Hkeys & Hval).
  set (o := fold_left (addToMonth lenient behindUTC) es map0) in *.
  assert (Hplain : ownEntries o = o).
  { apply ownEntries_plain. intros p Hp.
    assert (In (fst p) (map monthKey (window y m n))) as Hk.
    { rewrite <- Hkeys0, <- Hkeys. now apply in_map. }
    apply in_map_iff in Hk as (d & <- & _). apply monthKey_plain. }
  unfold keys. rewrite Hplain, Hkeys, Hkeys0. f_equal.
  - now rewrite map_map.
  - rewrite map_map. apply map_ext_in. intros d Hd.
    unfold get. rewrite (Hval (monthKey d) 0%float).
    + rewrite <- keyTotal_monthTotal by (eapply window_valid; eassumption).
      reflexivity.
    + apply own_In; [now rewrite Hkeys0|].
      unfold map0. apply in_map_iff. now exists d.
Qed.

End MonthlyFacts.

(** In July 2025, whatever the engine and the time zone, the sample
    expenses of July make one bucket. *)
Example monthlyTotals_july (lenient : bool) (behindUTC : Z -> Z -> Z -> bool) :
  monthlyTotals lenient behindUTC enUS 2025 6 july 1
    = mkSeries ["Jul 2025"] [Num 87.25].
Proof. destruct lenient; reflexivity. Qed.

(** C3. A record dated the first of a month is added to the bucket of the
    month before when local time is behind UTC: [new Date("2025-08-01")]
    is midnight UTC, which [getMonth] reads as 31 July. In August 2025
    with two buckets, the Cinema sample lands in July and August stays 0;
    in a zone that is not behind UTC it lands in August. This holds on
    every engine. *)
Theorem monthlyTotals_first_of_month_behind_UTC (lenient : bool) :
  let cinema :=
    mkExpense 4 "Cinema" (Some 12%float) (Some "Entertainment") "2025-08-01" in
  monthlyTotals lenient (fun _ _ _ => true) enUS 2025 7 [cinema] 2
    = mkSeries ["Jul 2025"; "Aug 2025"] [Num 12; Num 0] /\
  monthlyTotals lenient (fun _ _ _ => false) enUS 2025 7 [cinema] 2
    = mkSeries ["Jul 2025"; "Aug 2025"] [Num 0; Num 12].
Proof. destruct lenient; split; reflexivity. Qed.

End ClientFacts.

(** ** The order on text *)

Module TextFacts.
Import Js JsFacts Server.

Lemma ascii_compare_refl (a : ascii) : Ascii.compare a a = Eq.
Proof. apply N.compare_refl. Qed.

Lemma compare_refl (s : string) : String.compare s s = Eq.
Proof.
  induction s as [|a s IH]; simpl; [reflexivity|].
  now rewrite ascii_compare_refl.
Qed.

Lemma compare_lt_trans (a b c : string) :
  String.compare a b = Lt -> String.compare b c = Lt -> String.compare a c = Lt.
Proof.
  revert b c. induction a as [|x a IH]; intros [|y b] [|z c]; simpl;
    try discriminate; auto.
  unfold Ascii.compare.
  destruct (N.compare_spec (N_of_ascii x) (N_of_ascii y)) as [Exy|Lxy|Gxy];
    try discriminate;
    destruct (N.compare_spec (N_of_ascii y) (N_of_ascii z)) as [Eyz|Lyz|Gyz];
    try discriminate; intros Hab Hbc.
  - rewrite Exy, Eyz, N.compare_refl. eapply IH; eassumption.
  - rewrite Exy. now apply N.compare_lt_iff in Lyz as ->.
  - rewrite <- Eyz. now apply N.compare_lt_iff in Lxy as ->.
  - assert (N_of_ascii x < N_of_ascii z)%N as H by lia.
    now apply N.compare_lt_iff in H as ->.
Qed.

Lemma compare_gt_lt (a b : string) :
  String.compare a b = Gt <-> String.compare b a = Lt.
Proof.
  rewrite (String.compare_antisym b a).
  destruct (String.compare a b); simpl; split; congruence.
Qed.


Lemma leb_le (a b : string) : String.leb a b = true <-> String.compare a b <> Gt.
Proof.
  unfold String.leb. destruct (String.compare a b); split; congruence.
Qed.


Lemma datePattern_shape (s : string) :
  datePattern s = true ->
  exists y0 y1 y2 y3 m0 m1 d0 d1,
    s = String y0 (String y1 (String y2 (String y3 (String "-"
         (String m0 (String m1 (String "-" (String d0 (String d1 ""))))))))) /\
    Forall (fun c => (48 <= N_of_ascii c <= 57)%N) [y0; y1; y2; y3; m0; m1; d0; d1].
Proof.
  unfold datePattern.
  destruct s as [|y0 [|y1 [|y2 [|y3 [|s1 [|m0 [|m1 [|s2 [|d0 [|d1 [|? ?]]]]]]]]]]];
    try discriminate.
  cbn [String.length Nat.eqb substring list_ascii_of_string forallb andb].
  rewrite !andb_true_iff, !String.eqb_eq.
  intros ((((Hy & Hs1) & Hm) & Hs2) & Hd).
  injection Hs1 as ->. injection Hs2 as ->.
  exists y0, y1, y2, y3, m0, m1, d0, d1. split; [reflexivity|].
  destruct Hy as (H0 & H1 & H2 & H3 & _), Hm as (H4 & H5 & _), Hd as (H6 & H7 & _).
  repeat constructor; now apply isDigit_bounds.
Qed.

Lemma sameShape_bound (a b : string) :
  sameShape a b = true ->
  String.length a = String.length b /\
  (placeValue a < pow10 (String.length a))%N /\
  (placeValue b < pow10 (String.length b))%N.
Proof.
  revert b. induction a as [|c a IH]; intros [|d b];
    cbn [sameShape String.length placeValue pow10]; try discriminate.
  - intros _. repeat split; lia.
  - rewrite andb_true_iff, orb_true_iff, !andb_true_iff.
    intros [Hcd Hs]. destruct (IH _ Hs) as (Hlen & La & Lb).
    rewrite <- Hlen in *. split; [now rewrite Hlen|].
    destruct Hcd as [[Hc Hd]|[Hcd Hlow]].
    + apply isDigit_bounds in Hc, Hd. split; nia.
    + apply Ascii.eqb_eq in Hcd. subst d. apply N.ltb_lt in Hlow.
      replace (N_of_ascii c - 48)%N with 0%N by lia. split; lia.
Qed.

Lemma sameShape_compare (a b : string) :
  sameShape a b = true ->
  String.compare a b = N.compare (placeValue a) (placeValue b).
Proof.
  revert b. induction a as [|c a IH]; intros [|d b];
    cbn [sameShape String.compare placeValue String.length]; try discriminate.
  - reflexivity.
  - rewrite andb_true_iff, orb_true_iff, !andb_true_iff.
    intros [Hcd Hs]. rewrite (IH _ Hs).
    destruct (sameShape_bound _ _ Hs) as (Hlen & La & Lb).
    rewrite <- Hlen in *.
    remember (pow10 (String.length a)) as p.
    remember (placeValue a) as pa. remember (placeValue b) as pb.
    destruct Hcd as [[Hc Hd]|[Hcd Hlow]].
    + apply isDigit_bounds in Hc, Hd. unfold Ascii.compare.
      destruct (N.compare_spec (N_of_ascii c) (N_of_ascii d)) as [E|L|G].
      * rewrite E. destruct (N.compare_spec pa pb); symmetry;
          [apply N.compare_eq_iff | apply N.compare_lt_iff | apply N.compare_gt_iff]; lia.
      * symmetry. apply N.compare_lt_iff.
        assert ((N_of_ascii c - 48 + 1) * p <= (N_of_ascii d - 48) * p)%N
          by (apply N.mul_le_mono_r; lia).
        lia.
      * symmetry. apply N.compare_gt_iff.
        assert ((N_of_ascii d - 48 + 1) * p <= (N_of_ascii c - 48) * p)%N
          by (apply N.mul_le_mono_r; lia).
        lia.
    + apply Ascii.eqb_eq in Hcd. subst d. unfold Ascii.compare.
      rewrite N.compare_refl.
      destruct (N.compare_spec pa pb); symmetry;
        [apply N.compare_eq_iff | apply N.compare_lt_iff | apply N.compare_gt_iff]; lia.
Qed.





End TextFacts.

(** ** The queries of the server *)

Module ServerFacts.
Import Js Server TextFacts NumberFacts.

Lemma StronglySorted_True {A : Type} (l : list A) :
  StronglySorted (fun _ _ => True) l.
Proof.
  induction l; constructor; auto. rewrite Forall_forall. auto.
Qed.

Lemma StronglySorted_app_inv {A : Type} (R : A -> A -> Prop) (l1 l2 : list A) :
  StronglySorted R (l1 ++ l2) ->
  forall a b, In a l1 -> In b l2 -> R a b.
Proof.
  induction l1 as [|x xs IH]; simpl; intros Hs a b Ha Hb; [tauto|].
  inversion Hs as [|? ? Hxs Hx]; subst.
  destruct Ha as [<-|Ha].
  - rewrite Forall_forall in Hx. apply Hx, in_or_app. now right.
  - now apply IH.
Qed.

Lemma dateIdDesc_total (a b : row) :
  dateIdDesc a b = true \/ dateIdDesc b a = true.
Proof.
  unfold dateIdDesc. rewrite (String.compare_antisym (date b) (date a)).
  destruct (String.compare (date a) (date b)); simpl; auto.
  rewrite !Z.leb_le. lia.
Qed.

Lemma dateIdDesc_newestFirst (a b : row) :
  dateIdDesc a b = true <-> newestFirst a b.
Proof.
  unfold dateIdDesc, newestFirst, strLt.
  destruct (String.compare (date a) (date b)) eqn:E.
  - apply String.compare_eq_iff in E. rewrite E, compare_refl, Z.leb_le.
    split; [auto | intros [H|[_ H]]; [discriminate | exact H]].
  - apply compare_gt_lt in E as E'. split; [discriminate|].
    intros [H|[H _]].
    + rewrite String.compare_antisym, E in H. discriminate.
    + rewrite H, compare_refl in E. discriminate.
  - apply compare_gt_lt in E. split; auto.
Qed.

Lemma dateIdDesc_trans (a b c : row) :
  dateIdDesc a b = true -> dateIdDesc b c = true -> dateIdDesc a c = true.
Proof.
  rewrite !dateIdDesc_newestFirst. unfold newestFirst, strLt.
  intros [Hab|[Eab Iab]] [Hbc|[Ebc Ibc]].
  - left. eapply compare_lt_trans; eassumption.
  - left. now rewrite <- Ebc.
  - left. now rewrite Eab.
  - right. split; [congruence | lia].
Qed.

Lemma given_some (p : option string) (s : string) :
  given p = Some s <-> p = Some s /\ s <> "".
Proof.
  unfold given. destruct p as [t|]; [|split; [discriminate | intros [H _]; discriminate]].
  destruct (String.eqb t "") eqn:E.
  - apply String.eqb_eq in E. subst. split; [discriminate|].
    intros [[= <-] H]. congruence.
  - apply String.eqb_neq in E. split.
    + intros [= <-]. auto.
    + intros [[= <-] _]. reflexivity.
Qed.

Lemma whereClause_matchesQuery (q : query) (r : row) :
  whereClause q r = true <-> matchesQuery q r.
Proof.
  unfold whereClause, matchesQuery, strLe.
  rewrite !andb_true_iff.
  destruct (given (q_category q)) as [c|];
    destruct (given (q_start q)) as [s|];
    destruct (given (q_end q)) as [e|];
    rewrite ?String.eqb_eq, ?leb_le;
    (split;
     [ intros [[Hc Hs] He]; repeat split; intros x [= <-]; auto
     | intros (Hc & Hs & He); repeat split; auto ]).
Qed.

Section Selections.
Context {A : Type}.
Variable P : A -> Prop.

Lemma selection_filter (f : A -> bool) (rs : list A) :
  (forall r, f r = true <-> P r) -> selection P rs (filter f rs).
Proof.
  intros H. induction rs as [|r rs IH]; cbn [filter]; [constructor|].
  destruct (f r) eqn:E.
  - apply selection_take; [now apply H | exact IH].
  - apply selection_skip; [|exact IH]. intros Hr. apply H in Hr. congruence.
Qed.

Lemma selection_unique (rs l l' : list A) :
  selection P rs l -> selection P rs l' -> l = l'.
Proof.
  intros H. revert l'. induction H as [|r rs l Hr _ IH|r rs l Hr _ IH];
    intros l' H'; inversion H'; subst; try contradiction; auto.
  f_equal. auto.
Qed.



End Selections.

(** C10. GET /api/expenses returns the rows latest date first and, on the
    same date, larger id first; it returns the rows of the table whose
    category is the category given and whose date lies between the start
    and the end given, ends included, each as often as it is in the
    table, and no other row. A parameter is given when it is present and
    not empty. *)
Theorem listExpenses_newest_first_and_filtered (st : store) (q : query) :
  StronglySorted newestFirst (listExpenses st q) /\
  (exists l, selection (matchesQuery q) (rows st) l /\
             Permutation l (listExpenses st q)) /\
  (forall r, In r (listExpenses st q) <-> In r (rows st) /\ matchesQuery q r) /\
  (forall c, given (q_category q) = Some c <-> q_category q = Some c /\ c <> "").
Proof.
  unfold listExpenses. split; [|split; [|split]].
  - eapply StronglySorted_weaken;
      [|apply (sortBy_sorted dateIdDesc (fun _ _ => True))].
    + intros a b _ _ [H _]. now apply dateIdDesc_newestFirst.
    + intros a b _ _. apply dateIdDesc_total.
    + intros a b c _ _ _. apply dateIdDesc_trans.
    + apply StronglySorted_True.
  - exists (filter (whereClause q) (rows st)). split.
    + apply selection_filter. intros r. apply whereClause_matchesQuery.
    + apply Permutation_sym, sortBy_perm.
  - intros r. rewrite sortBy_In, filter_In, whereClause_matchesQuery. tauto.
  - intros c. apply given_some.
Qed.

Lemma inRange_leb (s e : string) (r : row) :
  String.leb s (date r) && String.leb (date r) e = true <-> inRange s e r.
Proof.
  unfold inRange, strLe. now rewrite andb_true_iff, !leb_le.
Qed.

Section Sums.
Variable SUM : list float -> float.

Lemma orZeroOf_selectSum (st : store) (f : row -> bool) :
  orZeroOf (selectSum SUM st f) = sumOrZero SUM (filter f (rows st)).
Proof.
  unfold selectSum, sumOrZero.
  destruct (filter f (rows st)); reflexivity.
Qed.


End Sums.


Section Ranges.
Variable SUM : list float -> float.


End Ranges.


Example totalBetween_july :
  totalBetween leftToRight seeded "2025-07-01" "2025-07-31" = 87.25%float.
Proof. reflexivity. Qed.

Example topExpenses_one :
  topExpenses seeded (Some 1%nat)
    = [mkRow 3 "Electricity bill" 60%float "Utilities" "2025-07-05"].
Proof. reflexivity. Qed.

Lemma topExpenses_firstn (st : store) (nMatch : option nat) :
  topExpenses st nMatch = firstn (topLimit nMatch) (sortBy amountDesc (rows st)).
Proof.
  unfold topExpenses. now rewrite firstn_firstn, Nat.min_id.
Qed.

Lemma realLe_total (a b : float) : realLe a b = true \/ realLe b a = true.
Proof.
  unfold realLe. destruct (is_nan a) eqn:Na; [now left|].
  destruct (is_nan b) eqn:Nb; [now right|]. cbn [orb].
  now apply float_leb_total.
Qed.

Lemma realLe_trans (a b c : float) :
  realLe a b = true -> realLe b c = true -> realLe a c = true.
Proof.
  unfold realLe. destruct (is_nan a) eqn:Na; [reflexivity|]. cbn [orb].
  intros Hab. destruct (float_leb_nan _ _ Hab) as [_ Nb]. rewrite Nb.
  cbn [orb]. intros Hbc. exact (float_leb_trans _ _ _ Hab Hbc).
Qed.

(** On numbers, the order of REAL values is the order of doubles. *)
Lemma real_order_numbers (a b : float) :
  is_nan a = false -> is_nan b = false ->
  realLe a b = (a <=? b)%float /\ realLt a b = (a <? b)%float /\
  realEq a b = (a =? b)%float.
Proof.
  intros Na Nb. unfold realLt, realEq, realLe. rewrite Na, Nb. cbn [orb].
  split; [reflexivity|]. split.
  - symmetry. now apply float_ltb_leb.
  - symmetry. apply float_eqb_leb.
Qed.

Lemma amountDesc_sorted (st : store) :
  rowidOrder st ->
  StronglySorted byAmountThenId (sortBy amountDesc (rows st)).
Proof.
  intros [Hord _].
  eapply StronglySorted_weaken;
    [|apply (sortBy_sorted amountDesc (fun a b => id a < id b))].
  - intros a b _ _ [Hab Hba]. unfold amountDesc, byAmountThenId in *.
    unfold realLt, realEq.
    destruct (realLe (amount a) (amount b)) eqn:E.
    + right. split; [now rewrite Hab|]. now apply Hba.
    + left. reflexivity.
  - intros a b _ _. unfold amountDesc. apply realLe_total.
  - intros a b c _ _ _. unfold amountDesc. intros H1 H2.
    exact (realLe_trans _ _ _ H2 H1).
  - exact Hord.
Qed.

(** C5, as stated, fails. With 51 rows, top 51 returns 50 rows, not
    min(51, 51); and two rows of equal amount come out in id order, the
    older date first. *)
Lemma topExpenses_capped_and_no_date_tie_break :
  List.length (topExpenses coffees (Some 51%nat))
    <> Nat.min 51 (List.length (rows coffees)) /\
  ~ StronglySorted byAmountDateId (topExpenses ties (Some 2%nat)).
Proof.
  split.
  - vm_compute. discriminate.
  - intros H. inversion H as [|? ? _ Hall]; subst.
    inversion Hall as [|? ? Hab _]; subst.
    destruct Hab as [Hgt|[_ [Hlt|[Hd _]]]].
    + cbv in Hgt. discriminate.
    + cbv in Hlt. discriminate.
    + cbn in Hd. discriminate.
Qed.

(** C5, amended. The [top] intent returns min(limit, number of rows) rows,
    where the limit is min(50, n) for top n and 5 when no number is
    written; they are the rows of largest amount, sorted by amount
    descending; rows of equal amount are not ordered by date: they stay
    in id order. Amounts are compared as doubles. *)
Theorem topExpenses_largest_amounts_capped (st : store) (nMatch : option nat) :
  rowidOrder st ->
  List.length (topExpenses st nMatch)
    = Nat.min (topLimit nMatch) (List.length (rows st)) /\
  (forall k, topLimit (Some k) = Nat.min 50 k) /\ topLimit None = 5%nat /\
  StronglySorted byAmountThenId (topExpenses st nMatch) /\
  (exists rest,
    Permutation (topExpenses st nMatch ++ rest) (rows st) /\
    forall a b, In a (topExpenses st nMatch) -> In b rest ->
                realLe (amount b) (amount a) = true) /\
  (forall a b : float,
     is_nan a = false -> is_nan b = false ->
     realLe a b = (a <=? b)%float /\ realLt a b = (a <? b)%float /\
     realEq a b = (a =? b)%float).
Proof.
  intros Hord. rewrite topExpenses_firstn.
  pose proof (amountDesc_sorted st Hord) as Hs.
  split; [|split; [|split; [|split; [|split]]]]; [| | | | |apply real_order_numbers].
  - now rewrite length_firstn, sortBy_length.
  - reflexivity.
  - reflexivity.
  - now apply StronglySorted_firstn.
  - exists (skipn (topLimit nMatch) (sortBy amountDesc (rows st))). split.
    + rewrite firstn_skipn. apply sortBy_perm.
    + intros a b Ha Hb.
      rewrite <- (firstn_skipn (topLimit nMatch)) in Hs.
      pose proof (StronglySorted_app_inv _ _ _ Hs a b Ha Hb) as H.
      unfold byAmountThenId, realLt, realEq in H.
      destruct H as [H|[H _]].
      * destruct (realLe_total (amount a) (amount b)) as [T|T]; [|exact T].
        rewrite T in H. discriminate.
      * now apply andb_true_iff in H.
Qed.

Lemma seeded_rowidOrder : rowidOrder seeded.
Proof.
  split.
  - repeat (constructor; [|repeat (constructor; [cbn; lia|]); constructor]).
    constructor.
  - repeat (constructor; [cbn; lia|]). constructor.
Qed.

Lemma topExpenses_largest_amounts_capped_witness :
  rowidOrder seeded /\
  List.length (topExpenses seeded (Some 2%nat)) = 2%nat /\
  StronglySorted byAmountThenId (topExpenses seeded (Some 2%nat)).
Proof.
  split; [exact seeded_rowidOrder|].
  pose proof (topExpenses_largest_amounts_capped seeded (Some 2%nat)
                seeded_rowidOrder) as (Hlen & _ & _ & Hs & _).
  split; [exact Hlen | exact Hs].
Defined.

(** C6, as stated, fails: with 51 rows, top 51 names a number that is at
    least the number of rows and does not return them all. *)
Lemma topExpenses_huge_is_not_all :
  (List.length (rows coffees) <= 51)%nat /\
  topExpenses coffees (Some 51%nat) <> sortBy amountDesc (rows coffees) /\
  ~ Permutation (topExpenses coffees (Some 51%nat)) (rows coffees).
Proof.
  split; [vm_compute; lia|]. split.
  - intros H. apply (f_equal (@List.length row)) in H.
    vm_compute in H. discriminate.
  - intros H. apply Permutation_length in H. vm_compute in H. discriminate.
Qed.

(** C6, amended. top 0 returns no row; top n with n at least the number of
    rows returns all the rows, sorted by amount descending, when there
    are at most 50 of them. *)
Theorem topExpenses_zero_and_all (st : store) (n : nat) :
  topExpenses st (Some 0%nat) = [] /\
  ((List.length (rows st) <= n)%nat -> (List.length (rows st) <= 50)%nat ->
   topExpenses st (Some n) = sortBy amountDesc (rows st) /\
   Permutation (topExpenses st (Some n)) (rows st) /\
   StronglySorted (fun a b => realLe (amount b) (amount a) = true)
                  (topExpenses st (Some n))).
Proof.
  split; [reflexivity|]. intros Hn H50.
  assert (E : topExpenses st (Some n) = sortBy amountDesc (rows st)).
  { rewrite topExpenses_firstn. apply firstn_all2.
    rewrite sortBy_length. cbn [topLimit]. lia. }
  rewrite E. split; [reflexivity|]. split; [apply sortBy_perm|].
  eapply StronglySorted_weaken;
    [|apply (sortBy_sorted amountDesc (fun _ _ => True))].
  - intros a b _ _ [Hab _]. exact Hab.
  - intros a b _ _. unfold amountDesc. apply realLe_total.
  - intros a b c _ _ _. unfold amountDesc. intros H1 H2.
    exact (realLe_trans _ _ _ H2 H1).
  - apply StronglySorted_True.
Qed.

Lemma topExpenses_zero_and_all_witness :
  (List.length (rows seeded) <= 7)%nat /\
  (List.length (rows seeded) <= 50)%nat /\
  Permutation (topExpenses seeded (Some 7%nat)) (rows seeded).
Proof.
  assert (H7 : (List.length (rows seeded) <= 7)%nat) by (cbn; lia).
  assert (H50 : (List.length (rows seeded) <= 50)%nat) by (cbn; lia).
  split; [exact H7|]. split; [exact H50|].
  exact (proj1 (proj2 (proj2 (topExpenses_zero_and_all seeded 7) H7 H50))).
Defined.

Section WithTrim.
Variable trim : string -> string.
Variable bindArray : string -> option string.

(** A body passes [validateExpense] when it is present, its description
    and category are truthy and not blank, its amount is a number above
    0 and its date is truthy and has the pattern. *)
Lemma validateExpense_None (body : option payload) :
  validateExpense trim body = None ->
  exists p a,
    body = Some p /\
    isTruthy (p_description p) = true /\ trim (textOf (p_description p)) <> "" /\
    p_amount p = Some a /\ (0 <? a)%float = true /\
    isTruthy (p_category p) = true /\ trim (textOf (p_category p)) <> "" /\
    isTruthy (p_date p) = true /\ Js.datePattern (textOf (p_date p)) = true.
Proof.
  unfold validateExpense, blankField.
  destruct body as [p|]; [|discriminate].
  destruct (negb (isTruthy (p_description p))
            || String.eqb (trim (textOf (p_description p))) "") eqn:Ed;
    [discriminate|].
  destruct (p_amount p) as [a|] eqn:Ea; [|discriminate].
  destruct (is_nan a || (a <=? 0)%float) eqn:Ep; [discriminate|].
  destruct (negb (isTruthy (p_category p))
            || String.eqb (trim (textOf (p_category p))) "") eqn:Ec;
    [discriminate|].
  destruct (negb (isTruthy (p_date p))
            || negb (Js.datePattern (textOf (p_date p)))) eqn:Et;
    [discriminate|].
  intros _. exists p, a.
  apply orb_false_iff in Ed as [Ed1 Ed2], Ec as [Ec1 Ec2], Et as [Et1 Et2].
  apply negb_false_iff in Ed1, Ec1, Et1, Et2.
  apply String.eqb_neq in Ed2, Ec2. apply positive_iff in Ep.
  repeat split; assumption.
Qed.

(** Nothing fails after validation exactly when description and
    category are strings and the date is bound. *)
Lemma failure_None (p : payload) (a : float) :
  p_amount p = Some a ->
  failure trim bindArray p = None <->
  exists d c t, storable bindArray p d a c t.
Proof.
  intros Ha. unfold failure, storable, trimmed, bound.
  destruct (p_description p) as [d|bd xd]; [|split; [discriminate|]].
  2:{ intros (d & c & t & H & _). discriminate. }
  destruct (p_category p) as [c|bc xc]; [|split; [discriminate|]].
  2:{ intros (d' & c & t & _ & _ & H & _). discriminate. }
  destruct (p_date p) as [t|bt xt].
  - split; [|reflexivity]. intros _. exists d, c, t. auto.
  - destruct (bindArray xt) as [t|] eqn:E.
    + split; [|reflexivity]. intros _. exists d, c, t.
      repeat split; auto. right. eauto.
    + split; [discriminate|].
      intros (d' & c' & t & _ & _ & _ & [H|(b & x & [= <- <-] & H)]);
        [discriminate | congruence].
Qed.

Lemma rowOf_storable (i : Z) (p : payload) (d : string) (a : float) (c t : string) :
  storable bindArray p d a c t ->
  rowOf trim bindArray i p = mkRow i (trim d) a (trim c) t.
Proof.
  intros (Hd & Ha & Hc & Ht). unfold rowOf, trimmed, bound.
  rewrite Hd, Ha, Hc.
  destruct Ht as [->|(b & x & -> & ->)]; reflexivity.
Qed.

Lemma identifies_filter (i : pathId) (st : store) :
  identifies i st <-> filter (idIs i) (rows st) <> [].
Proof.
  unfold identifies. split.
  - intros (r & Hr & Hi) E.
    assert (In r (filter (idIs i) (rows st))) as H by (apply filter_In; auto).
    now rewrite E in H.
  - destruct (filter (idIs i) (rows st)) as [|r m] eqn:E; [congruence|].
    intros _. exists r. apply filter_In. rewrite E. now left.
Qed.

Lemma changes_zero (i : pathId) (st : store) :
  (List.length (filter (idIs i) (rows st)) =? 0)%nat = true <-> ~ identifies i st.
Proof.
  rewrite identifies_filter, Nat.eqb_eq.
  destruct (filter (idIs i) (rows st)); simpl; split; try congruence; try lia.
  intros H. exfalso. apply H. discriminate.
Qed.

Lemma find_updated (i : pathId) (p : payload) (l : list row) (r : row) :
  find (idIs i)
       (map (fun x => if idIs i x then rowOf trim bindArray (id x) p else x) l)
    = Some r ->
  exists n, i = IdInt n /\ r = rowOf trim bindArray n p.
Proof.
  intros H. apply find_some in H as [Hin Hr].
  apply in_map_iff in Hin as (x & <- & _).
  destruct i as [|n|]; try (destruct (idIs _ x); discriminate).
  exists n. destruct (idIs (IdInt n) x) eqn:E.
  - cbn in E. apply Z.eqb_eq in E. now rewrite E.
  - congruence.
Qed.

Lemma find_identified (i : pathId) (p : payload) (l : list row) :
  (exists r, In r l /\ idIs i r = true) ->
  exists r,
    find (idIs i)
         (map (fun x => if idIs i x then rowOf trim bindArray (id x) p else x) l)
      = Some r.
Proof.
  intros (x & Hx & Hi).
  destruct (find (idIs i)
              (map (fun x => if idIs i x then rowOf trim bindArray (id x) p else x) l))
    as [r|] eqn:E; [now exists r|].
  exfalso.
  assert (idIs i (rowOf trim bindArray (id x) p) = false) as Hf.
  { apply (find_none _ _ E). apply in_map_iff. exists x. now rewrite Hi. }
  destruct i as [|n|]; try discriminate. cbn in Hf, Hi. congruence.
Qed.

(** C8, amended. An id that is 0 or not a number is refused as invalid,
    and an update whose body fails validation is refused with the
    validation message, before the table is read. An update whose body
    passes validation with a description or a category that is not a
    string, or with a date that the driver does not bind, is answered
    with a server error, whatever the id, and the table is unchanged.
    Otherwise, for an id that identifies no row, delete fails with
    NotFound and so does an update, and the table is unchanged; for an
    id that identifies a row, delete reports success and removes it, and
    an update returns the updated row: the id with the trimmed
    description, the amount, the trimmed category and the date of the
    body. *)
Theorem update_delete_by_id (st : store) (i : pathId) (body : option payload) :
  (falsyId i = true ->
   deleteExpense st i = (BadRequest "Invalid id", st) /\
   putExpense trim bindArray st i body = (BadRequest "Invalid id", st)) /\
  (falsyId i = false ->
   (forall msg, validateExpense trim body = Some msg ->
                putExpense trim bindArray st i body = (BadRequest msg, st)) /\
   (forall p, validateExpense trim body = None -> body = Some p ->
              (forall d a c t, ~ storable bindArray p d a c t) ->
              exists e, putExpense trim bindArray st i body = (ServerError e, st)) /\
   (~ identifies i st ->
    deleteExpense st i = (NotFound "Expense not found", st) /\
    (forall p d a c t,
       validateExpense trim body = None -> body = Some p ->
       storable bindArray p d a c t ->
       putExpense trim bindArray st i body = (NotFound "Expense not found", st))) /\
   (identifies i st ->
    (exists st', deleteExpense st i = (Ok true, st') /\ ~ identifies i st') /\
    (forall p d a c t,
       validateExpense trim body = None -> body = Some p ->
       storable bindArray p d a c t ->
       exists n r st',
         i = IdInt n /\ r = mkRow n (trim d) a (trim c) t /\
         putExpense trim bindArray st i body = (Ok r, st') /\
         In r (rows st')))).
Proof.
  unfold deleteExpense, putExpense. split.
  - intros ->. auto.
  - intros ->. split; [|split; [|split]].
    + intros msg ->. reflexivity.
    + intros p Hv -> Hno. rewrite Hv.
      destruct (validateExpense_None _ Hv) as (p' & a & [= <-] & _ & _ & Ha & _).
      destruct (failure trim bindArray p) as [e|] eqn:F; [now exists e|].
      apply (failure_None p a Ha) in F as (d & c & t & F).
      exfalso. exact (Hno d a c t F).
    + intros Hno. apply changes_zero in Hno as Hz. rewrite Hz. split; [reflexivity|].
      intros p d a c t Hv -> Hs. rewrite Hv.
      assert (failure trim bindArray p = None) as ->; [|reflexivity].
      apply (failure_None p a); [apply Hs | eauto].
    + intros Hyes.
      assert ((List.length (filter (idIs i) (rows st)) =? 0)%nat = false) as Hz.
      { destruct (List.length (filter (idIs i) (rows st)) =? 0)%nat eqn:E;
          [|reflexivity].
        apply changes_zero in E. contradiction. }
      rewrite Hz. split.
      * eexists. split; [reflexivity|].
        intros (r & Hr & Hi). cbn [rows] in Hr.
        apply filter_In in Hr as [_ Hr]. rewrite Hi in Hr. discriminate.
      * intros p d a c t Hv -> Hs. rewrite Hv.
        assert (failure trim bindArray p = None) as ->.
        { apply (failure_None p a); [apply Hs | eauto]. }
        cbn [rows].
        destruct (find_identified i p (rows st) Hyes) as [r Hfind].
        rewrite Hfind.
        destruct (find_updated _ _ _ _ Hfind) as (n & -> & ->).
        exists n. eexists. eexists. split; [reflexivity|].
        split; [apply rowOf_storable, Hs|]. split; [reflexivity|].
        apply find_some in Hfind as [Hin _]. exact Hin.
Qed.

Lemma Forall2_map_self {A : Type} (R : A -> A -> Prop) (f : A -> A) (l : list A) :
  (forall x, In x l -> R x (f x)) -> Forall2 R l (map f l).
Proof.
  induction l as [|x l IH]; simpl; intros H; constructor; auto.
Qed.

(** C9. A successful update replaces the description, amount, category
    and date of the rows with the given id by those of the body, keeps
    the id of every row and leaves the rows with another id unchanged.
    The body of a successful update holds strings for the description
    and the category, and its date is a string or an array that the
    driver binds as a text. *)
Theorem putExpense_replaces_the_four_fields
    (st st' : store) (i : pathId) (body : option payload) (r : row) :
  putExpense trim bindArray st i body = (Ok r, st') ->
  exists n d a c t f,
    i = IdInt n /\
    body = Some (mkPayload (Text d) (Some a) (Text c) f) /\
    (f = Text t \/ exists b x, f = Other b x /\ bindArray x = Some t) /\
    r = mkRow n (trim d) a (trim c) t /\
    lastId st' = lastId st /\
    Forall2 (fun old new =>
               id new = id old /\
               (id old <> n -> new = old) /\
               (id old = n ->
                description new = trim d /\ amount new = a /\
                category new = trim c /\ date new = t))
            (rows st) (rows st').
Proof.
  unfold putExpense.
  destruct (falsyId i); [discriminate|].
  destruct (validateExpense trim body) as [msg|] eqn:Hv; [discriminate|].
  destruct (validateExpense_None _ Hv) as (p & a & -> & _ & _ & Ha & _).
  destruct (failure trim bindArray p) as [e|] eqn:F; [discriminate|].
  apply (failure_None p a Ha) in F as (d & c & t & F).
  destruct (List.length (filter (idIs i) (rows st)) =? 0)%nat; [discriminate|].
  cbn [rows].
  destruct (find _ _) as [r0|] eqn:Hfind; [|discriminate].
  intros [= <- <-].
  destruct (find_updated _ _ _ _ Hfind) as (n & -> & ->).
  pose proof (fun k => rowOf_storable k p d a c t F) as Hrow.
  destruct F as (Fd & Fa & Fc & Ft).
  exists n, d, a, c, t, (p_date p). split; [reflexivity|]. split.
  { destruct p as [pd pa pc pt]. cbn in *. now subst. }
  split; [exact Ft|]. split; [apply Hrow|]. split; [reflexivity|].
  cbn [rows]. apply Forall2_map_self. intros x _.
  cbn [idIs]. rewrite Hrow. destruct (id x =? n) eqn:E.
  - apply Z.eqb_eq in E. cbn. repeat split; auto. congruence.
  - apply Z.eqb_neq in E. repeat split; auto; contradiction.
Qed.

End WithTrim.

(** C8, as stated, fails: no row has id 0, and deleting id 0 is refused
    as an invalid id, not as a missing expense; updating a missing id with
    a body that fails validation is refused with the validation message. *)
Lemma invalid_id_is_not_NotFound :
  ~ (forall (st : store) (i : pathId),
       ~ identifies i st -> exists msg, fst (deleteExpense st i) = NotFound msg) /\
  ~ (forall (st : store) (i : pathId) (body : option payload),
       ~ identifies i st ->
       exists msg, fst (putExpense trimAscii bindsText st i body) = NotFound msg).
Proof.
  assert (H0 : ~ identifies (IdInt 0) seeded).
  { intros (r & Hr & Hi). simpl in Hr.
    destruct Hr as [<-|[<-|[<-|[<-|[<-|[]]]]]]; discriminate. }
  split; intros H.
  - destruct (H seeded (IdInt 0) H0) as [msg Hm]. discriminate.
  - destruct (H seeded (IdInt 0) None H0) as [msg Hm]. discriminate.
Qed.

(** A description that is a number passes validation, and the update is
    answered with a server error for an id that is in the table and for
    one that is not. *)
Example putExpense_description_not_a_string :
  let body := Some (mkPayload (Other true "123") (Some 5%float) (Text "Food")
                              (Text "2025-08-09")) in
  validateExpense trimAscii body = None /\
  putExpense trimAscii bindsText seeded (IdInt 2) body
    = (ServerError "description.trim is not a function", seeded) /\
  putExpense trimAscii bindsText seeded (IdInt 9) body
    = (ServerError "description.trim is not a function", seeded).
Proof. repeat split. Qed.

(** A body without a date is refused by validation. *)
Example validateExpense_missing_date :
  validateExpense trimAscii
    (Some (mkPayload (Text "Tea") (Some 1.5%float) (Text "Food") missing))
  = Some "Date required (YYYY-MM-DD)".
Proof. reflexivity. Qed.

Lemma update_delete_by_id_witness :
  falsyId (IdInt 2) = false /\ identifies (IdInt 2) seeded /\
  ~ identifies (IdInt 9) seeded /\
  deleteExpense seeded (IdInt 9) = (NotFound "Expense not found", seeded) /\
  exists st', deleteExpense seeded (IdInt 2) = (Ok true, st').
Proof.
  assert (H2 : identifies (IdInt 2) seeded).
  { exists (mkRow 2 "Bus ticket" 2.75%float "Transport" "2025-07-11"). split.
    - right. now left.
    - reflexivity. }
  assert (H9 : ~ identifies (IdInt 9) seeded).
  { intros (r & Hr & Hi). simpl in Hr.
    destruct Hr as [<-|[<-|[<-|[<-|[<-|[]]]]]]; discriminate. }
  split; [reflexivity|]. split; [exact H2|]. split; [exact H9|]. split.
  - exact (proj1 (proj1 (proj2 (proj2 (proj2
      (update_delete_by_id trimAscii bindsText seeded (IdInt 9) None) eq_refl)))
      H9)).
  - destruct (proj1 (proj2 (proj2 (proj2 (proj2
      (update_delete_by_id trimAscii bindsText seeded (IdInt 2) None) eq_refl)))
      H2))
      as (st' & Hd & _).
    exists st'. exact Hd.
Defined.

Lemma putExpense_replaces_the_four_fields_witness :
  let body := Some (mkPayload (Text " Tram ") (Some 3%float) (Text "Transport")
                              (Text "2025-07-12")) in
  let tram := mkRow 2 "Tram" 3%float "Transport" "2025-07-12" in
  let st' := snd (putExpense trimAscii bindsText seeded (IdInt 2) body) in
  putExpense trimAscii bindsText seeded (IdInt 2) body = (Ok tram, st') /\
  lastId st' = lastId seeded /\
  nth_error (rows st') 1 = Some tram.
Proof.
  intros body tram st'.
  assert (H : putExpense trimAscii bindsText seeded (IdInt 2) body = (Ok tram, st'))
    by reflexivity.
  split; [exact H|].
  destruct (putExpense_replaces_the_four_fields trimAscii bindsText seeded st'
              (IdInt 2) body tram H) as (n & d & a & c & t & f & _ & _ & _ & _ & Hl & _).
  split; [exact Hl | reflexivity].
Defined.

Section Invariants.
Variable trim : string -> string.
Variable bindArray : string -> option string.

Lemma insert_positive (st : store) (r : row) :
  positiveAmounts st -> (0 <? amount r)%float = true ->
  positiveAmounts (insert st r).
Proof.
  unfold positiveAmounts, insert. cbn [rows]. intros H Hr.
  apply Forall_app. split; [exact H|]. now constructor.
Qed.

Lemma rowOf_amount (i : Z) (p : payload) (a : float) :
  p_amount p = Some a -> amount (rowOf trim bindArray i p) = a.
Proof. intros H. unfold rowOf. cbn [amount]. now rewrite H. Qed.

(** The routes that call [validateExpense], and delete, keep every amount
    positive. *)
Lemma validated_writes_keep_amounts_positive (st : store) (q : request) :
  (forall d a c t, q <> ChatbotAdd d a c t) ->
  positiveAmounts st -> positiveAmounts (handle trim bindArray st q).
Proof.
  intros Hq Hpos. destruct q as [body|i body|i|d a c t]; cbn [handle].
  - unfold postExpense.
    destruct (validateExpense trim body) as [msg|] eqn:Hv; [exact Hpos|].
    destruct (validateExpense_None trim _ Hv)
      as (p & a & -> & _ & _ & Ha & Hp & _).
    destruct (failure trim bindArray p); [exact Hpos|].
    cbn [snd]. apply insert_positive; [exact Hpos|].
    now rewrite (rowOf_amount _ p a Ha).
  - unfold putExpense. destruct (falsyId i); [exact Hpos|].
    destruct (validateExpense trim body) as [msg|] eqn:Hv; [exact Hpos|].
    destruct (validateExpense_None trim _ Hv)
      as (p & a & -> & _ & _ & Ha & Hp & _).
    destruct (failure trim bindArray p); [exact Hpos|].
    destruct (List.length (filter (idIs i) (rows st)) =? 0)%nat; [exact Hpos|].
    assert (positiveAmounts
              (mkStore (map (fun r => if idIs i r
                                      then rowOf trim bindArray (id r) p
                                      else r) (rows st)) (lastId st))) as H.
    { unfold positiveAmounts in *. cbn [rows]. rewrite Forall_forall in *.
      intros r Hr. apply in_map_iff in Hr as (x & <- & Hx).
      destruct (idIs i x); [now rewrite (rowOf_amount _ p a Ha) | now apply Hpos]. }
    cbn [rows]. destruct (find _ _); exact H.
  - unfold deleteExpense. destruct (falsyId i); [exact Hpos|].
    destruct (List.length (filter (idIs i) (rows st)) =? 0)%nat; [exact Hpos|].
    unfold positiveAmounts in *. cbn [snd rows]. rewrite Forall_forall in *.
    intros r Hr. apply filter_In in Hr as [Hr _]. now apply Hpos.
  - exfalso. exact (Hq d a c t eq_refl).
Qed.

Lemma handle_rowidOrder (st : store) (q : request) :
  rowidOrder st -> rowidOrder (handle trim bindArray st q).
Proof.
  assert (Hins : forall s r, rowidOrder s -> id r = lastId s + 1 ->
                             rowidOrder (insert s r)).
  { intros s r [Hs Hb] Hr. unfold insert. split; cbn [rows lastId].
    - apply StronglySorted_app; [exact Hs | repeat constructor |].
      intros a b Ha [<-|[]]. rewrite Forall_forall in Hb.
      specialize (Hb a Ha). lia.
    - apply Forall_app. split.
      + rewrite Forall_forall in *. intros a Ha. specialize (Hb a Ha). lia.
      + constructor; [lia | constructor]. }
  intros Hord. destruct q as [body|i body|i|d a c t]; cbn [handle].
  - unfold postExpense.
    destruct (validateExpense trim body) as [msg|]; [exact Hord|].
    destruct body as [p|]; [|exact Hord].
    destruct (failure trim bindArray p); [exact Hord|].
    cbn [snd]. now apply Hins.
  - unfold putExpense. destruct (falsyId i); [exact Hord|].
    destruct (validateExpense trim body) as [msg|]; [exact Hord|].
    destruct body as [p|]; [|exact Hord].
    destruct (failure trim bindArray p); [exact Hord|].
    destruct (List.length (filter (idIs i) (rows st)) =? 0)%nat; [exact Hord|].
    set (f := fun r => if idIs i r then rowOf trim bindArray (id r) p else r).
    assert (Hid : forall r, id (f r) = id r).
    { intros r. unfold f. now destruct (idIs i r). }
    assert (rowidOrder (mkStore (map f (rows st)) (lastId st))) as H.
    { destruct Hord as [Hs Hb]. split; cbn [rows lastId].
      - apply (proj1 (StronglySorted_map (fun a b => id a < id b) f (rows st))).
        eapply StronglySorted_weaken; [|exact Hs].
        intros a b _ _. now rewrite !Hid.
      - rewrite Forall_forall in *. intros r Hr.
        apply in_map_iff in Hr as (x & <- & Hx). rewrite Hid. now apply Hb. }
    cbn [rows]. destruct (find _ _); exact H.
  - unfold deleteExpense. destruct (falsyId i); [exact Hord|].
    destruct (List.length (filter (idIs i) (rows st)) =? 0)%nat; [exact Hord|].
    destruct Hord as [Hs Hb]. split; cbn [snd rows lastId].
    + now apply StronglySorted_filter.
    + rewrite Forall_forall in *. intros r Hr.
      apply filter_In in Hr as [Hr _]. now apply Hb.
  - unfold chatbotAdd. destruct (is_nan a); [exact Hord|].
    cbn [snd]. now apply Hins.
Qed.

(** Every table the requests can produce is in rowid order. *)
Lemma reachable_rowidOrder (st : store) :
  reachable trim bindArray st -> rowidOrder st.
Proof.
  intros [qs ->].
  induction qs as [|q qs IH] using rev_ind.
  - apply seeded_rowidOrder.
  - rewrite fold_left_app. cbn [fold_left]. now apply handle_rowidOrder.
Qed.

(** C7. The add-expense command of the chatbot inserts what it matched
    without calling [validateExpense]: an amount written 0 is stored, and
    the table that results, which a request reaches from the sample data,
    holds a row whose amount is not positive. *)
Theorem chatbotAdd_stores_a_zero_amount :
  let st := handle trim bindArray seeded
                   (ChatbotAdd "lunch" 0%float "food" "2025-08-09") in
  positiveAmounts seeded /\
  reachable trim bindArray st /\
  In (mkRow 6 (trim "lunch") 0%float (trim "food") "2025-08-09") (rows st) /\
  ~ positiveAmounts st.
Proof.
  cbn zeta. split; [|split; [|split]].
  - unfold positiveAmounts. cbn [rows seeded samples].
    repeat (constructor; [reflexivity|]). constructor.
  - exists [ChatbotAdd "lunch" 0%float "food" "2025-08-09"]. reflexivity.
  - cbn. do 5 right. now left.
  - unfold positiveAmounts. cbn. intros H.
    rewrite Forall_forall in H.
    specialize (H (mkRow 6 (trim "lunch") 0%float (trim "food") "2025-08-09")).
    cbn in H. assert ((0 <? 0)%float = true) by (apply H; do 5 right; now left).
    discriminate.
Qed.

End Invariants.

End ServerFacts.

(** ** Further properties of the table and its routes *)

Module LedgerFacts.
Import Js Server TextFacts NumberFacts ServerFacts Ledger.

Lemma dateShape_iff (t : string) : Js.datePattern t = true <-> dateShape t.
Proof.
  split.
  - intros H. apply datePattern_shape in H
      as (y0 & y1 & y2 & y3 & m0 & m1 & d0 & d1 & -> & F).
    exists y0, y1, y2, y3, m0, m1, d0, d1. split; [reflexivity|].
    eapply Forall_impl; [|exact F].
    intros c Hc. cbv beta in Hc. unfold Js.isDigit. apply andb_true_iff.
    split; apply N.leb_le; lia.
  - intros (y0 & y1 & y2 & y3 & m0 & m1 & d0 & d1 & -> & F).
    repeat match goal with
           | H : Forall _ (_ :: _) |- _ => inversion H; subst; clear H
           | H : Forall _ [] |- _ => clear H
           end.
    unfold Js.datePattern.
    cbn [String.length Nat.eqb substring list_ascii_of_string forallb andb].
    repeat match goal with
           | H : Js.isDigit _ = true |- _ => rewrite H; clear H
           end.
    reflexivity.
Qed.

Section Routes.
Variable trim : string -> string.
Variable bindArray : string -> option string.

(** X1. [validateExpense] accepts a body exactly when its description
    and category are truthy and not blank, the amount is a number above 0
    and the date is truthy with a text of four digits, a dash, two
    digits, a dash and two digits (month and day are not checked against
    the calendar); a string is truthy when it is not empty. A refused
    body gets the message of the first check that fails, in the order
    description, amount, category, date. *)
Theorem validateExpense_accepts_exactly (body : option payload) :
  (validateExpense trim body = None <->
   exists p a,
     body = Some p /\
     isTruthy (p_description p) = true /\ trim (textOf (p_description p)) <> "" /\
     p_amount p = Some a /\ (0 <? a)%float = true /\
     isTruthy (p_category p) = true /\ trim (textOf (p_category p)) <> "" /\
     isTruthy (p_date p) = true /\ dateShape (textOf (p_date p))) /\
  (forall s, (isTruthy (Text s) = true <-> s <> "") /\ textOf (Text s) = s) /\
  (forall p, body = Some p ->
     let blank f := isTruthy f = false \/ trim (textOf f) = "" in
     let notPositive o :=
       match o with Some a => (0 <? a)%float = false | None => True end in
     (blank (p_description p) ->
      validateExpense trim body = Some "Description required") /\
     (~ blank (p_description p) -> notPositive (p_amount p) ->
      validateExpense trim body = Some "Amount must be a positive number") /\
     (~ blank (p_description p) -> ~ notPositive (p_amount p) ->
      blank (p_category p) ->
      validateExpense trim body = Some "Category required") /\
     (~ blank (p_description p) -> ~ notPositive (p_amount p) ->
      ~ blank (p_category p) ->
      isTruthy (p_date p) = false \/ ~ dateShape (textOf (p_date p)) ->
      validateExpense trim body = Some "Date required (YYYY-MM-DD)")) /\
  (body = None -> validateExpense trim body = Some "Missing payload").
Proof.
  assert (Hblank : forall f,
    blankField trim f = true <-> isTruthy f = false \/ trim (textOf f) = "").
  { intros f. unfold blankField.
    now rewrite orb_true_iff, negb_true_iff, String.eqb_eq. }
  assert (Hamt : forall o,
    match o with Some a => is_nan a || (a <=? 0)%float | None => true end = true <->
    match o with Some a => (0 <? a)%float = false | None => True end).
  { intros [a|]; [|tauto]. pose proof (positive_iff a) as H.
    destruct (is_nan a || (a <=? 0)%float), (0 <? a)%float;
      intuition congruence. }
  assert (Hdate : forall f,
    negb (isTruthy f) || negb (Js.datePattern (textOf f)) = true <->
    isTruthy f = false \/ ~ dateShape (textOf f)).
  { intros f. rewrite <- dateShape_iff, orb_true_iff, !negb_true_iff.
    destruct (Js.datePattern (textOf f)); intuition congruence. }
  split; [|split; [|split]].
  - split.
    + intros H. destruct (validateExpense_None trim _ H)
        as (p & a & -> & H1 & H2 & H3 & H4 & H5 & H6 & H7 & H8).
      exists p, a. apply dateShape_iff in H8. repeat split; assumption.
    + intros (p & a & -> & H1 & H2 & H3 & H4 & H5 & H6 & H7 & H8).
      unfold validateExpense, blankField. rewrite H1, H3, H5, H7.
      apply String.eqb_neq in H2, H6. rewrite H2, H6.
      apply dateShape_iff in H8. rewrite H8.
      apply positive_iff in H4. rewrite H4. reflexivity.
  - intros s. split; [|reflexivity]. cbn [isTruthy].
    rewrite negb_true_iff. apply String.eqb_neq.
  - intros p -> blank notPositive. unfold validateExpense.
    pose proof (Hblank (p_description p)) as Bd.
    pose proof (Hamt (p_amount p)) as Ba.
    pose proof (Hblank (p_category p)) as Bc.
    pose proof (Hdate (p_date p)) as Bt.
    fold (blank (p_description p)) in Bd. fold (notPositive (p_amount p)) in Ba.
    fold (blank (p_category p)) in Bc.
    destruct (blankField trim (p_description p));
    destruct (match p_amount p with
              | Some a => is_nan a || (a <=? 0)%float
              | None => true end);
    destruct (blankField trim (p_category p));
    destruct (negb (isTruthy (p_date p))
              || negb (Js.datePattern (textOf (p_date p))));
    repeat split; intros; try reflexivity; exfalso;
      intuition (try discriminate; auto).
  - intros ->. reflexivity.
Qed.

Lemma NoDup_ids (st : store) : rowidOrder st -> NoDup (map id (rows st)).
Proof.
  intros [Hs _].
  apply (StronglySorted_NoDup (fun a b => a < b)); [lia|].
  now apply (proj1 (StronglySorted_map (fun a b => a < b) id (rows st))).
Qed.

Lemma same_id_same_row (st : store) (a b : row) :
  rowidOrder st -> In a (rows st) -> In b (rows st) -> id a = id b -> a = b.
Proof.
  intros [Hs _]. induction Hs as [|x xs Hxs IH Hx]; [contradiction|].
  rewrite Forall_forall in Hx.
  intros [<-|Ha] [<-|Hb] E; auto.
  - specialize (Hx _ Hb). lia.
  - specialize (Hx _ Ha). lia.
Qed.

Lemma handle_idsFromOne (st : store) (q : request) :
  idsFromOne st -> idsFromOne (handle trim bindArray st q).
Proof.
  assert (Hins : forall s r, idsFromOne s -> id r = lastId s + 1 ->
                             idsFromOne (insert s r)).
  { intros s r [H0 H1] Hr. unfold insert. split; cbn [rows lastId]; [lia|].
    apply Forall_app. split; [exact H1|]. constructor; [lia | constructor]. }
  intros Hone. destruct q as [body|i body|i|d a c t]; cbn [handle].
  - unfold postExpense.
    destruct (validateExpense trim body) as [msg|]; [exact Hone|].
    destruct body as [p|]; [|exact Hone].
    destruct (failure trim bindArray p); [exact Hone|].
    cbn [snd]. now apply Hins.
  - unfold putExpense. destruct (falsyId i); [exact Hone|].
    destruct (validateExpense trim body) as [msg|]; [exact Hone|].
    destruct body as [p|]; [|exact Hone].
    destruct (failure trim bindArray p); [exact Hone|].
    destruct (List.length (filter (idIs i) (rows st)) =? 0)%nat; [exact Hone|].
    assert (idsFromOne
              (mkStore (map (fun r => if idIs i r then rowOf trim bindArray (id r) p else r)
                            (rows st)) (lastId st))) as H.
    { destruct Hone as [H0 H1]. split; cbn [rows lastId]; [exact H0|].
      rewrite Forall_forall in *. intros r Hr.
      apply in_map_iff in Hr as (x & <- & Hx). specialize (H1 x Hx).
      now destruct (idIs i x). }
    cbn [rows]. destruct (find _ _); exact H.
  - unfold deleteExpense. destruct (falsyId i); [exact Hone|].
    destruct (List.length (filter (idIs i) (rows st)) =? 0)%nat; [exact Hone|].
    destruct Hone as [H0 H1]. split; cbn [snd rows lastId]; [exact H0|].
    rewrite Forall_forall in *. intros r Hr.
    apply filter_In in Hr as [Hr _]. now apply H1.
  - unfold chatbotAdd. destruct (is_nan a); [exact Hone|].
    cbn [snd]. now apply Hins.
Qed.

Lemma seeded_idsFromOne : idsFromOne seeded.
Proof.
  split; [cbn; lia|]. cbn [rows seeded samples].
  repeat (constructor; [cbn; lia|]). constructor.
Qed.

Lemma reachable_idsFromOne (st : store) : reachable trim bindArray st -> idsFromOne st.
Proof.
  intros [qs ->]. induction qs as [|q qs IH] using rev_ind.
  - apply seeded_idsFromOne.
  - rewrite fold_left_app. cbn [fold_left]. now apply handle_idsFromOne.
Qed.

(** X2. In every table that requests can produce from the sample data,
    the ids are distinct, increase along the table, lie between 1 and the
    counter, and every row can be addressed by its id: neither update nor
    delete refuses it as an invalid id. *)
Theorem reachable_ids_distinct_and_addressable (st : store) :
  reachable trim bindArray st ->
  NoDup (map id (rows st)) /\
  StronglySorted (fun a b => id a < id b) (rows st) /\
  (forall r, In r (rows st) ->
     1 <= id r <= lastId st /\
     falsyId (IdInt (id r)) = false /\ identifies (IdInt (id r)) st /\
     (forall x, In x (rows st) -> id x = id r -> x = r)).
Proof.
  intros Hr.
  pose proof (reachable_rowidOrder trim bindArray st Hr) as Hord.
  pose proof (reachable_idsFromOne st Hr) as [H0 H1].
  split; [now apply NoDup_ids|]. split; [apply Hord|].
  intros r Hin. rewrite Forall_forall in H1. specialize (H1 r Hin).
  pose proof Hord as [Hs Hb]. rewrite Forall_forall in Hb. specialize (Hb r Hin).
  split; [lia|]. split; [|split].
  - cbn. apply Z.eqb_neq. lia.
  - exists r. split; [exact Hin|]. cbn. apply Z.eqb_refl.
  - intros x Hx E. exact (same_id_same_row st x r Hord Hx Hin E).
Qed.

Lemma handle_origin (st : store) (q : request) (r : row) :
  In r (rows (handle trim bindArray st q)) ->
  lastId st <= lastId (handle trim bindArray st q) /\
  ((exists r0, In r0 (rows st) /\ id r0 = id r) \/ id r = lastId st + 1).
Proof.
  assert (Hsame : In r (rows st) ->
    (exists r0, In r0 (rows st) /\ id r0 = id r) \/ id r = lastId st + 1).
  { intros H. left. now exists r. }
  assert (Hins : forall x, id x = lastId st + 1 -> In r (rows (insert st x)) ->
    lastId st <= lastId (insert st x) /\
    ((exists r0, In r0 (rows st) /\ id r0 = id r) \/ id r = lastId st + 1)).
  { intros x Hx H. unfold insert in *. cbn [rows lastId] in *.
    split; [lia|]. apply in_app_or in H as [H|[<-|[]]]; auto. }
  assert (Hst : In r (rows st) ->
    lastId st <= lastId st /\
    ((exists r0, In r0 (rows st) /\ id r0 = id r) \/ id r = lastId st + 1)).
  { intros H. split; [lia | auto]. }
  destruct q as [body|i body|i|d a c t]; cbn [handle].
  - unfold postExpense.
    destruct (validateExpense trim body) as [msg|]; [exact Hst|].
    destruct body as [p|]; [|exact Hst].
    destruct (failure trim bindArray p); [exact Hst|].
    cbn [snd]. now apply Hins.
  - unfold putExpense. destruct (falsyId i); [exact Hst|].
    destruct (validateExpense trim body) as [msg|]; [exact Hst|].
    destruct body as [p|]; [|exact Hst].
    destruct (failure trim bindArray p); [exact Hst|].
    destruct (List.length (filter (idIs i) (rows st)) =? 0)%nat; [exact Hst|].
    cbn [rows].
    assert (In r (map (fun x => if idIs i x then rowOf trim bindArray (id x) p else x) (rows st)) ->
            lastId st <= lastId st /\
            ((exists r0, In r0 (rows st) /\ id r0 = id r) \/ id r = lastId st + 1)) as H.
    { intros H. apply in_map_iff in H as (x & <- & Hx). split; [lia|].
      left. exists x. split; [exact Hx|]. now destruct (idIs i x). }
    destruct (find _ _); exact H.
  - unfold deleteExpense. destruct (falsyId i); [exact Hst|].
    destruct (List.length (filter (idIs i) (rows st)) =? 0)%nat; [exact Hst|].
    cbn [snd rows lastId]. intros H. apply filter_In in H as [H _].
    split; [lia | auto].
  - unfold chatbotAdd. destruct (is_nan a); [exact Hst|].
    cbn [snd]. now apply Hins.
Qed.

Lemma handle_lastId (st : store) (q : request) :
  lastId st <= lastId (handle trim bindArray st q).
Proof.
  destruct q as [body|i body|i|d a c t]; cbn [handle].
  - unfold postExpense. destruct (validateExpense trim body); [cbn; lia|].
    destruct body as [p|]; [|cbn; lia].
    destruct (failure trim bindArray p); cbn; lia.
  - unfold putExpense. destruct (falsyId i); [cbn; lia|].
    destruct (validateExpense trim body); [cbn; lia|].
    destruct body as [p|]; [|cbn; lia].
    destruct (failure trim bindArray p); [cbn; lia|].
    destruct (List.length (filter (idIs i) (rows st)) =? 0)%nat; [cbn; lia|].
    cbn [rows]. destruct (find _ _); cbn; lia.
  - unfold deleteExpense. destruct (falsyId i); [cbn; lia|].
    destruct (List.length (filter (idIs i) (rows st)) =? 0)%nat; cbn; lia.
  - unfold chatbotAdd. destruct (is_nan a); cbn; lia.
Qed.

Lemma fold_handle_lastId (st : store) (qs : list request) :
  lastId st <= lastId (fold_left (handle trim bindArray) qs st).
Proof.
  induction qs as [|q qs IH] using rev_ind; [cbn; lia|].
  rewrite fold_left_app. cbn [fold_left].
  pose proof (handle_lastId (fold_left (handle trim bindArray) qs st) q). lia.
Qed.

(** X3. An id is never assigned twice: whatever requests follow, a row
    whose id is not above the present counter descends from a row that
    has that id now, so a row inserted later has an id above every id
    used so far, also above the ids of rows that were deleted. *)
Theorem ids_are_never_reused (st : store) (qs : list request) (r : row) :
  In r (rows (fold_left (handle trim bindArray) qs st)) ->
  lastId st <= lastId (fold_left (handle trim bindArray) qs st) /\
  (id r <= lastId st -> exists r0, In r0 (rows st) /\ id r0 = id r).
Proof.
  revert r. induction qs as [|q qs IH] using rev_ind; intros r.
  - cbn. intros H. split; [lia|]. intros _. now exists r.
  - rewrite fold_left_app. cbn [fold_left].
    set (st1 := fold_left (handle trim bindArray) qs st) in *.
    intros H. destruct (handle_origin st1 q r H) as [Hl [(r1 & H1 & E1)|Hnew]].
    + destruct (IH r1 H1) as [Hl1 Hold]. split; [lia|].
      intros Hle. rewrite <- E1 in Hle. destruct (Hold Hle) as (r0 & H0 & E0).
      exists r0. split; [exact H0 | congruence].
    + pose proof (fold_handle_lastId st qs) as Hl1. fold st1 in Hl1.
      split; [lia|]. intros Hle. lia.
Qed.

Lemma whereClause_everything (r : row) : whereClause everything r = true.
Proof. reflexivity. Qed.

Lemma filter_everything (l : list row) : filter (whereClause everything) l = l.
Proof.
  induction l as [|x l IH]; [reflexivity|].
  cbn [filter]. rewrite whereClause_everything. now rewrite IH.
Qed.

(** X4. A body that fails validation is refused with its message and the
    table is unchanged. A body that passes with a description or a
    category that is not a string, or with a date that the driver does
    not bind, is answered with a server error and the table is
    unchanged. Any other body that passes is stored at the end of the
    table under a new id, one above the counter and above every id of
    the table, with the trimmed description, the amount, the trimmed
    category and the date of the body; the row returned is the row
    stored, and the list endpoint without parameters then returns it
    together with the rows that were there. *)
Theorem postExpense_stores_under_a_fresh_id (st : store) (body : option payload) :
  (forall msg, validateExpense trim body = Some msg ->
     postExpense trim bindArray st body = (BadRequest msg, st)) /\
  (forall p, validateExpense trim body = None -> body = Some p ->
     (forall d a c t, ~ storable bindArray p d a c t) ->
     exists e, postExpense trim bindArray st body = (ServerError e, st)) /\
  (forall p d a c t,
     validateExpense trim body = None -> body = Some p ->
     storable bindArray p d a c t -> rowidOrder st ->
     exists r st',
       r = mkRow (lastId st + 1) (trim d) a (trim c) t /\
       postExpense trim bindArray st body = (Ok r, st') /\
       rows st' = rows st ++ [r] /\ lastId st' = lastId st + 1 /\
       (forall x, In x (rows st) -> id x < id r) /\
       (forall x, In x (listExpenses st' everything) <-> x = r \/ In x (rows st)) /\
       List.length (listExpenses st' everything) = S (List.length (rows st)) /\
       rowidOrder st').
Proof.
  split; [|split].
  - intros msg H. unfold postExpense. now rewrite H.
  - intros p Hv -> Hno. unfold postExpense. rewrite Hv.
    destruct (validateExpense_None trim _ Hv) as (p' & a & [= <-] & _ & _ & Ha & _).
    destruct (failure trim bindArray p) as [e|] eqn:F; [now exists e|].
    apply (failure_None trim bindArray p a Ha) in F as (d & c & t & F).
    exfalso. exact (Hno d a c t F).
  - intros p d a c t Hv -> Hs Hord. unfold postExpense. rewrite Hv.
    assert (F : failure trim bindArray p = None).
    { apply (failure_None trim bindArray p a); [apply Hs | eauto]. }
    rewrite F. rewrite (rowOf_storable trim bindArray _ p d a c t Hs).
    eexists. eexists. split; [reflexivity|]. split; [reflexivity|].
    split; [reflexivity|]. split; [reflexivity|]. split; [|split; [|split]].
    + intros x Hx. destruct Hord as [_ Hb]. rewrite Forall_forall in Hb.
      specialize (Hb x Hx). cbn [id]. lia.
    + intros x. unfold listExpenses.
      rewrite sortBy_In, filter_everything. cbn [rows insert].
      rewrite in_app_iff. cbn [In]. split.
      * intros [H|[H|[]]]; auto.
      * intros [H|H]; auto.
    + unfold listExpenses. rewrite sortBy_length, filter_everything.
      cbn [rows insert]. rewrite length_app. cbn [List.length]. lia.
    + pose proof (handle_rowidOrder trim bindArray st (Post (Some p)) Hord) as H.
      cbn [handle] in H. unfold postExpense in H. rewrite Hv, F in H.
      rewrite (rowOf_storable trim bindArray _ p d a c t Hs) in H. exact H.
Qed.

(** X5. Repeating a successful update changes nothing: the same response,
    the same table. *)
Theorem putExpense_twice (st st' : store) (i : pathId) (body : option payload)
    (r : row) :
  putExpense trim bindArray st i body = (Ok r, st') ->
  putExpense trim bindArray st' i body = (Ok r, st').
Proof.
  unfold putExpense.
  destruct (falsyId i); [discriminate|].
  destruct (validateExpense trim body) as [msg|] eqn:Hv; [discriminate|].
  destruct body as [p|]; [|discriminate].
  destruct (failure trim bindArray p); [discriminate|].
  destruct (List.length (filter (idIs i) (rows st)) =? 0)%nat; [discriminate|].
  cbn [rows].
  set (f := fun x => if idIs i x then rowOf trim bindArray (id x) p else x).
  destruct (find (idIs i) (map f (rows st))) as [r0|] eqn:Hfind; [|discriminate].
  intros [= <- <-]. cbn [rows lastId].
  assert (Hff : forall x, f (f x) = f x).
  { intros x. unfold f. destruct (idIs i x) eqn:E; [|now rewrite E].
    assert (idIs i (rowOf trim bindArray (id x) p) = true) as ->; [|reflexivity].
    destruct i; try discriminate. exact E. }
  assert (map f (map f (rows st)) = map f (rows st)) as ->.
  { rewrite map_map. apply map_ext. exact Hff. }
  rewrite Hfind.
  destruct (List.length (filter (idIs i) (map f (rows st))) =? 0)%nat eqn:Ez;
    [|reflexivity].
  exfalso. apply Nat.eqb_eq in Ez.
  apply find_some in Hfind as [Hin Hi].
  assert (In r0 (filter (idIs i) (map f (rows st)))) as H
    by (apply filter_In; auto).
  destruct (filter (idIs i) (map f (rows st))); [contradiction | discriminate].
Qed.

Lemma handle_wellFormed (st : store) (q : request) :
  validated q ->
  Forall wellFormed (rows st) ->
  Forall wellFormed (rows (handle trim bindArray st q)).
Proof.
  assert (Hrow : forall i p,
    validateExpense trim (Some p) = None -> textDate (Some p) ->
    failure trim bindArray p = None ->
    wellFormed (rowOf trim bindArray i p)).
  { intros i p Hv Ht F.
    destruct (validateExpense_None trim _ Hv)
      as (p' & a & [= <-] & _ & Hd & Ha & Hp & _ & Hc & Hy & Hs).
    destruct (proj1 (failure_None trim bindArray p a Ha) F) as (d & c & t & S).
    rewrite (rowOf_storable trim bindArray i p d a c t S).
    destruct S as (Fd & _ & Fc & Ft).
    rewrite Fd in Hd. rewrite Fc in Hc. cbn [textOf] in Hd, Hc.
    cbn [textDate] in Ht.
    destruct Ft as [Ft|(b & x & Ft & _)]; rewrite Ft in Ht, Hs, Hy;
      cbn [textOf isTruthy] in Hs, Hy.
    - repeat split; assumption.
    - subst b. contradiction. }
  intros Hq Hwf. destruct q as [body|i body|i|d a c t]; cbn [handle].
  - unfold postExpense.
    destruct (validateExpense trim body) as [msg|] eqn:Hv; [exact Hwf|].
    destruct body as [p|]; [|exact Hwf].
    destruct (failure trim bindArray p) eqn:F; [exact Hwf|].
    cbn [snd insert rows]. apply Forall_app. split; [exact Hwf|].
    constructor; [now apply Hrow | constructor].
  - unfold putExpense. destruct (falsyId i); [exact Hwf|].
    destruct (validateExpense trim body) as [msg|] eqn:Hv; [exact Hwf|].
    destruct body as [p|]; [|exact Hwf].
    destruct (failure trim bindArray p) eqn:F; [exact Hwf|].
    destruct (List.length (filter (idIs i) (rows st)) =? 0)%nat; [exact Hwf|].
    cbn [rows].
    assert (Forall wellFormed
              (map (fun r => if idIs i r
                             then rowOf trim bindArray (id r) p
                             else r) (rows st))) as H.
    { rewrite Forall_forall in *. intros r Hr.
      apply in_map_iff in Hr as (x & <- & Hx).
      destruct (idIs i x); [now apply Hrow | now apply Hwf]. }
    destruct (find _ _); exact H.
  - unfold deleteExpense. destruct (falsyId i); [exact Hwf|].
    destruct (List.length (filter (idIs i) (rows st)) =? 0)%nat; [exact Hwf|].
    cbn [snd rows]. rewrite Forall_forall in *.
    intros r Hr. apply filter_In in Hr as [Hr _]. now apply Hwf.
  - contradiction.
Qed.

(** X6. As long as rows are written through POST, PUT and DELETE only,
    with bodies whose date is a string, every row of the table is well
    formed: a positive amount, a description and a category that are not
    empty, and a date of the pattern YYYY-MM-DD. *)
Theorem validated_routes_keep_rows_well_formed (qs : list request) :
  Forall validated qs ->
  Forall wellFormed (rows (fold_left (handle trim bindArray) qs seeded)).
Proof.
  induction qs as [|q qs IH] using rev_ind; intros Hqs.
  - cbn [fold_left rows seeded samples].
    repeat (constructor; [repeat split; cbn; (discriminate || reflexivity)|]).
    constructor.
  - apply Forall_app in Hqs as [Hqs Hq]. inversion Hq; subst.
    rewrite fold_left_app. cbn [fold_left].
    apply handle_wellFormed; auto.
Qed.

End Routes.

Lemma filter_all {A : Type} (f : A -> bool) (l : list A) :
  (forall x, In x l -> f x = true) -> filter f l = l.
Proof.
  induction l as [|x l IH]; intros H; [reflexivity|].
  cbn [filter]. rewrite (H x (or_introl eq_refl)). f_equal.
  apply IH. intros y Hy. apply H. now right.
Qed.

Lemma filter_filter_negb {A : Type} (f : A -> bool) (l : list A) :
  filter f (filter (fun x => negb (f x)) l) = [].
Proof.
  induction l as [|x l IH]; [reflexivity|].
  cbn [filter]. destruct (f x) eqn:E; cbn [negb filter]; [exact IH|].
  now rewrite E.
Qed.

Lemma length_without (l : list row) (r : row) :
  StronglySorted (fun a b => id a < id b) l -> In r l ->
  S (List.length (filter (fun x => negb (idIs (IdInt (id r)) x)) l))
    = List.length l.
Proof.
  intros Hs. induction Hs as [|x xs Hxs IH Hx]; [contradiction|].
  rewrite Forall_forall in Hx. cbn [filter idIs List.length].
  intros [->|Hin].
  - rewrite Z.eqb_refl. cbn [negb]. f_equal. f_equal.
    apply filter_all. intros y Hy. specialize (Hx y Hy).
    apply negb_true_iff, Z.eqb_neq. lia.
  - assert ((id x =? id r) = false) as ->.
    { apply Z.eqb_neq. specialize (Hx r Hin). lia. }
    cbn [negb List.length]. f_equal. now apply IH.
Qed.

(** X7. Deleting a row of a table in rowid order by its id succeeds,
    removes that row and no other, and leaves the counter alone; deleting
    the same id again fails with NotFound. *)
Theorem deleteExpense_removes_exactly_that_row (st : store) (r : row) :
  rowidOrder st -> In r (rows st) -> id r <> 0 ->
  exists st',
    deleteExpense st (IdInt (id r)) = (Ok true, st') /\
    lastId st' = lastId st /\
    (forall x, In x (rows st') <-> In x (rows st) /\ x <> r) /\
    S (List.length (rows st')) = List.length (rows st) /\
    deleteExpense st' (IdInt (id r)) = (NotFound "Expense not found", st').
Proof.
  intros Hord Hin Hid.
  assert (Hrow : forall x, In x (rows st) -> (id x =? id r) = true -> x = r).
  { intros x Hx E. apply Z.eqb_eq in E. eapply same_id_same_row; eauto. }
  unfold deleteExpense at 1. cbn [falsyId].
  destruct (id r =? 0) eqn:E0; [apply Z.eqb_eq in E0; contradiction|].
  destruct (List.length (filter (idIs (IdInt (id r))) (rows st)) =? 0)%nat eqn:Ez.
  { exfalso. apply Nat.eqb_eq in Ez.
    assert (In r (filter (idIs (IdInt (id r))) (rows st))) as H.
    { apply filter_In. split; [exact Hin|]. cbn. apply Z.eqb_refl. }
    destruct (filter _ (rows st)); [contradiction | discriminate]. }
  eexists. split; [reflexivity|]. cbn [rows lastId].
  split; [reflexivity|]. split; [|split].
  - intros x. rewrite filter_In. cbn [idIs]. split.
    + intros [Hx Hn]. split; [exact Hx|]. intros ->.
      rewrite Z.eqb_refl in Hn. discriminate.
    + intros [Hx Hn]. split; [exact Hx|].
      destruct (id x =? id r) eqn:E; [|reflexivity].
      exfalso. apply Hn. now apply Hrow.
  - apply length_without; [apply Hord | exact Hin].
  - unfold deleteExpense. cbn [falsyId rows]. rewrite E0.
    now rewrite filter_filter_negb.
Qed.

Lemma reachable_ids_distinct_and_addressable_witness :
  let st := handle trimAscii bindsText seeded (Delete (IdInt 2)) in
  reachable trimAscii bindsText st /\
  NoDup (map id (rows st)) /\
  (forall r, In r (rows st) -> identifies (IdInt (id r)) st).
Proof.
  assert (H : reachable trimAscii bindsText (handle trimAscii bindsText seeded (Delete (IdInt 2))))
    by (exists [Delete (IdInt 2)]; reflexivity).
  pose proof (reachable_ids_distinct_and_addressable trimAscii bindsText _ H) as (H1 & _ & H3).
  split; [exact H|]. split; [exact H1|].
  intros r Hr. exact (proj1 (proj2 (proj2 (H3 r Hr)))).
Defined.

Lemma ids_are_never_reused_witness :
  let body := Some (mkPayload (Text "Tea") (Some 1.5%float) (Text "Food")
                              (Text "2025-08-09")) in
  let tea := mkRow 6 "Tea" 1.5%float "Food" "2025-08-09" in
  let st' := fold_left (handle trimAscii bindsText) [Delete (IdInt 5); Post body] seeded in
  In tea (rows st') /\ lastId seeded <= lastId st'.
Proof.
  cbv zeta.
  assert (H : In (mkRow 6 "Tea" 1.5%float "Food" "2025-08-09")
                 (rows (fold_left (handle trimAscii bindsText)
                          [Delete (IdInt 5);
                           Post (Some (mkPayload (Text "Tea") (Some 1.5%float) (Text "Food") (Text "2025-08-09")))]
                          seeded))).
  { right. right. right. right. left. reflexivity. }
  split; [exact H|].
  exact (proj1 (ids_are_never_reused trimAscii bindsText seeded _ _ H)).
Defined.

Lemma postExpense_stores_under_a_fresh_id_witness :
  let p := mkPayload (Text " Tea ") (Some 1.5%float) (Text "Food")
                     (Text "2025-08-09") in
  validateExpense trimAscii (Some p) = None /\
  storable bindsText p " Tea " 1.5%float "Food" "2025-08-09" /\
  rowidOrder seeded /\
  exists st',
    postExpense trimAscii bindsText seeded (Some p)
      = (Ok (mkRow 6 "Tea" 1.5%float "Food" "2025-08-09"), st').
Proof.
  cbv zeta.
  assert (S : storable bindsText
                (mkPayload (Text " Tea ") (Some 1.5%float) (Text "Food")
                           (Text "2025-08-09"))
                " Tea " 1.5%float "Food" "2025-08-09").
  { repeat split. now left. }
  split; [reflexivity|]. split; [exact S|]. split; [exact seeded_rowidOrder|].
  destruct (proj2 (proj2 (postExpense_stores_under_a_fresh_id trimAscii bindsText
                            seeded
                            (Some (mkPayload (Text " Tea ") (Some 1.5%float)
                                             (Text "Food") (Text "2025-08-09")))))
                  (mkPayload (Text " Tea ") (Some 1.5%float) (Text "Food")
                             (Text "2025-08-09"))
                  " Tea " 1.5%float "Food" "2025-08-09"
                  eq_refl eq_refl S seeded_rowidOrder)
    as (r & st' & Hr & Hp & _).
  exists st'. rewrite Hp, Hr. reflexivity.
Defined.

Lemma putExpense_twice_witness :
  let body := Some (mkPayload (Text " Tram ") (Some 3%float) (Text "Transport") (Text "2025-07-12")) in
  let tram := mkRow 2 "Tram" 3%float "Transport" "2025-07-12" in
  let st' := snd (putExpense trimAscii bindsText seeded (IdInt 2) body) in
  putExpense trimAscii bindsText seeded (IdInt 2) body = (Ok tram, st') /\
  putExpense trimAscii bindsText st' (IdInt 2) body = (Ok tram, st').
Proof.
  cbv zeta.
  assert (H : putExpense trimAscii bindsText seeded (IdInt 2)
                (Some (mkPayload (Text " Tram ") (Some 3%float) (Text "Transport") (Text "2025-07-12")))
              = (Ok (mkRow 2 "Tram" 3%float "Transport" "2025-07-12"),
                 snd (putExpense trimAscii bindsText seeded (IdInt 2)
                        (Some (mkPayload (Text " Tram ") (Some 3%float) (Text "Transport") (Text "2025-07-12"))))))
    by reflexivity.
  split; [exact H|].
  exact (putExpense_twice trimAscii bindsText _ _ _ _ _ H).
Defined.

Lemma validated_routes_keep_rows_well_formed_witness :
  let body := Some (mkPayload (Text "Tea") (Some 1.5%float) (Text "Food")
                              (Text "2025-08-09")) in
  let qs := [Post body; Put (IdInt 1) body; Delete (IdInt 2)] in
  Forall validated qs /\
  Forall wellFormed (rows (fold_left (handle trimAscii bindsText) qs seeded)).
Proof.
  cbv zeta.
  assert (H : Forall validated
                [Post (Some (mkPayload (Text "Tea") (Some 1.5%float) (Text "Food") (Text "2025-08-09")));
                 Put (IdInt 1)
                     (Some (mkPayload (Text "Tea") (Some 1.5%float) (Text "Food") (Text "2025-08-09")));
                 Delete (IdInt 2)])
    by (repeat constructor).
  split; [exact H|].
  exact (validated_routes_keep_rows_well_formed trimAscii bindsText _ H).
Defined.

Lemma deleteExpense_removes_exactly_that_row_witness :
  let bill := mkRow 3 "Electricity bill" 60%float "Utilities" "2025-07-05" in
  rowidOrder seeded /\ In bill (rows seeded) /\ id bill <> 0 /\
  exists st',
    deleteExpense seeded (IdInt 3) = (Ok true, st') /\
    deleteExpense st' (IdInt 3) = (NotFound "Expense not found", st').
Proof.
  cbv zeta.
  assert (Hin : In (mkRow 3 "Electricity bill" 60%float "Utilities" "2025-07-05")
                   (rows seeded))
    by (right; right; left; reflexivity).
  assert (Hid : id (mkRow 3 "Electricity bill" 60%float "Utilities" "2025-07-05") <> 0)
    by discriminate.
  split; [exact seeded_rowidOrder|]. split; [exact Hin|]. split; [exact Hid|].
  destruct (deleteExpense_removes_exactly_that_row seeded _ seeded_rowidOrder Hin Hid)
    as (st' & H1 & _ & _ & _ & H5).
  exists st'. split; [exact H1 | exact H5].
Defined.

End LedgerFacts.

(** ** The queries of the assistant *)

Module AssistantFacts.
Import Js Server TextFacts ServerFacts Assistant.

Lemma leb_trans (a b c : string) :
  String.leb a b = true -> String.leb b c = true -> String.leb a c = true.
Proof.
  rewrite !leb_le. intros Hab Hbc Hac. apply compare_gt_lt in Hac.
  destruct (String.compare a b) eqn:Eab; [| |congruence].
  - apply String.compare_eq_iff in Eab. subst b.
    apply Hbc. now apply compare_gt_lt.
  - destruct (String.compare b c) eqn:Ebc; [| |congruence].
    + apply String.compare_eq_iff in Ebc. subst c.
      rewrite String.compare_antisym, Hac in Eab. discriminate.
    + pose proof (compare_lt_trans _ _ _ Eab Ebc) as H.
      rewrite String.compare_antisym, Hac in H. discriminate.
Qed.

Lemma filter_ext_Forall {A : Type} (P : A -> Prop) (f g : A -> bool) (l : list A) :
  Forall P l -> (forall x, P x -> f x = g x) -> filter f l = filter g l.
Proof.
  intros Hl Hfg. induction Hl as [|x l Hx _ IH]; [reflexivity|].
  cbn [filter]. rewrite (Hfg x Hx), IH. reflexivity.
Qed.

(** On text of bytes below 0x80 the characters are the bytes. *)
Lemma takeChars_bytes (n : nat) (s : string) :
  Forall (fun c => (0 < N_of_ascii c < 128)%N) (list_ascii_of_string s) ->
  takeChars n false s = substring 0 n s.
Proof.
  revert n. induction s as [|c s IH]; intros n H; cbn [takeChars andb].
  - now destruct n.
  - cbn [list_ascii_of_string] in H. inversion H as [|? ? Hc Hs]; subst.
    assert ((N_of_ascii c =? 0)%N = false) as -> by (apply N.eqb_neq; lia).
    destruct n as [|n]; [reflexivity|].
    cbn [substring]. f_equal.
    assert ((192 <=? N_of_ascii c)%N = false) as -> by (apply N.leb_gt; lia).
    now apply IH.
Qed.

Lemma compare_app (p q s t : string) :
  String.length p = String.length q ->
  String.compare (p ++ s) (q ++ t)
    = match String.compare p q with
      | Eq => String.compare s t
      | c => c
      end.
Proof.
  revert q. induction p as [|a p IH]; intros [|b q]; cbn [String.length];
    try discriminate.
  - reflexivity.
  - intros [= H]. cbn [String.append String.compare].
    destruct (Ascii.compare a b); [now apply IH | reflexivity | reflexivity].
Qed.

Lemma datePattern_month (d : string) :
  Js.datePattern d = true ->
  exists d0 d1,
    d = (substring 0 7 d ++ String "-" (String d0 (String d1 "")))%string /\
    String.length (substring 0 7 d) = 7%nat /\
    (48 <= N_of_ascii d0 <= 57)%N /\ (48 <= N_of_ascii d1 <= 57)%N /\
    takeChars 7 false d = substring 0 7 d.
Proof.
  intros H.
  apply datePattern_shape in H
    as (y0 & y1 & y2 & y3 & m0 & m1 & d0 & d1 & -> & F).
  exists d0, d1.
  repeat match goal with
         | H : Forall _ (_ :: _) |- _ => inversion H; subst; clear H
         end.
  repeat split; try tauto.
  apply takeChars_bytes. cbn [list_ascii_of_string].
  repeat constructor; cbn; lia.
Qed.

Lemma ascii_compare_N (a b : ascii) :
  Ascii.compare a b = N.compare (N_of_ascii a) (N_of_ascii b).
Proof. reflexivity. Qed.

(** For a date of the pattern, lying between day 00 and day 99 of a month
    key is having that key as first seven characters. *)
Lemma month_range (ym : string) (r : row) :
  Js.datePattern (date r) = true -> String.length ym = 7%nat ->
  String.leb (ym ++ "-00") (date r) && String.leb (date r) (ym ++ "-99")
    = String.eqb (takeChars 7 false (date r)) ym.
Proof.
  intros Hd Hy.
  destruct (datePattern_month _ Hd) as (d0 & d1 & Ed & Hl & H0 & H1 & ->).
  unfold String.leb. rewrite Ed at 1 2.
  rewrite !compare_app by congruence.
  rewrite (String.compare_antisym ym (substring 0 7 (date r))).
  destruct (String.compare (substring 0 7 (date r)) ym) eqn:E; cbn [CompOpp].
  - apply String.compare_eq_iff in E. rewrite E, String.eqb_refl.
    cbn [String.compare]. rewrite !ascii_compare_N.
    change (N_of_ascii "-") with 45%N. change (N_of_ascii "0") with 48%N.
    change (N_of_ascii "9") with 57%N. rewrite !N.compare_refl.
    destruct (N.compare_spec 48 (N_of_ascii d0)),
             (N.compare_spec 48 (N_of_ascii d1)),
             (N.compare_spec (N_of_ascii d0) 57),
             (N.compare_spec (N_of_ascii d1) 57); try reflexivity; lia.
  - assert (String.eqb (substring 0 7 (date r)) ym = false) as ->.
    { apply String.eqb_neq. intros H. rewrite H, compare_refl in E. discriminate. }
    reflexivity.
  - assert (String.eqb (substring 0 7 (date r)) ym = false) as ->.
    { apply String.eqb_neq. intros H. rewrite H, compare_refl in E. discriminate. }
    reflexivity.
Qed.

Lemma sameShape_placeValue_inj (a b : string) :
  Js.sameShape a b = true -> Js.placeValue a = Js.placeValue b -> a = b.
Proof.
  intros Hs He. apply String.compare_eq_iff.
  rewrite (sameShape_compare _ _ Hs), He. apply N.compare_refl.
Qed.

(** Two dates of the pattern have the same first seven characters exactly
    when they have the same year and month. *)
Lemma same_month_key (a b : string) :
  Js.datePattern a = true -> Js.datePattern b = true ->
  String.eqb (substring 0 7 a) (substring 0 7 b)
    = ((yearOf a =? yearOf b)%N && (monthOf a =? monthOf b)%N).
Proof.
  intros Ha Hb.
  apply datePattern_shape in Ha
    as (y0 & y1 & y2 & y3 & m0 & m1 & d0 & d1 & -> & Fa).
  apply datePattern_shape in Hb
    as (z0 & z1 & z2 & z3 & n0 & n1 & e0 & e1 & -> & Fb).
  assert (D : forall c, (48 <= N_of_ascii c <= 57)%N -> Js.isDigit c = true).
  { intros c Hc. unfold Js.isDigit. rewrite andb_true_iff, !N.leb_le. lia. }
  repeat match goal with
         | H : Forall _ (_ :: _) |- _ => inversion H; subst; clear H
         end.
  unfold yearOf, monthOf. cbn [substring].
  assert (Sy : Js.sameShape (String y0 (String y1 (String y2 (String y3 ""))))
                 (String z0 (String z1 (String z2 (String z3 "")))) = true).
  { cbn [Js.sameShape]. rewrite !D by assumption. reflexivity. }
  assert (Sm : Js.sameShape (String m0 (String m1 "")) (String n0 (String n1 "")) = true).
  { cbn [Js.sameShape]. rewrite !D by assumption. reflexivity. }
  apply eq_true_iff_eq. rewrite String.eqb_eq, andb_true_iff, !N.eqb_eq.
  split.
  - intros [= -> -> -> -> -> ->]. split; reflexivity.
  - intros [Hy Hm]. apply (sameShape_placeValue_inj _ _ Sy) in Hy.
    apply (sameShape_placeValue_inj _ _ Sm) in Hm.
    injection Hy as -> -> -> ->. injection Hm as -> ->. reflexivity.
Qed.

Lemma filter_none {A : Type} (f : A -> bool) (l : list A) :
  (forall x, In x l -> f x = false) -> filter f l = [].
Proof.
  induction l as [|x l IH]; intros H; [reflexivity|].
  cbn [filter]. rewrite (H x (or_introl eq_refl)).
  apply IH. intros y Hy. apply H. now right.
Qed.

Lemma strLe_trans (a b c : string) : strLe a b -> strLe b c -> strLe a c.
Proof.
  unfold strLe. rewrite <- !leb_le. apply leb_trans.
Qed.

Section Months.
Variable SUM : list float -> float.

(** X11. Over rows whose dates have the pattern YYYY-MM-DD, [totalInMonth]
    of the first seven characters of a date is the sum, as SUM computes
    it, of the amounts of the rows of the same year and month, in the
    order of the table, and 0 when there is none or that sum is 0 or
    NaN; and for any key of seven characters it is the [totalBetween] of
    day 00 and day 99 of the key. *)
Theorem totalInMonth_is_the_calendar_month (st : store) (d ym : string) :
  Forall (fun r => Js.datePattern (date r) = true) (rows st) ->
  Js.datePattern d = true ->
  String.length ym = 7%nat ->
  (exists l, selection (sameYearMonth d) (rows st) l) /\
  (forall l, selection (sameYearMonth d) (rows st) l ->
     totalInMonth SUM st (substring 0 7 d) = sumOrZero SUM l) /\
  totalInMonth SUM st ym = totalBetween SUM st (ym ++ "-00") (ym ++ "-99").
Proof.
  intros Hrows Hd Hy.
  set (g := fun r => (yearOf (date r) =? yearOf d)%N
                     && (monthOf (date r) =? monthOf d)%N).
  assert (Hg : selection (sameYearMonth d) (rows st) (filter g (rows st))).
  { apply selection_filter. intros r. unfold g, sameYearMonth.
    now rewrite andb_true_iff, !N.eqb_eq. }
  split; [eauto|]. split.
  - intros l Hl. rewrite (selection_unique _ _ _ _ Hl Hg).
    unfold totalInMonth. rewrite orZeroOf_selectSum. f_equal.
    apply (filter_ext_Forall _ _ _ _ Hrows). intros r Hr. cbv beta in Hr.
    destruct (datePattern_month _ Hr) as (_ & _ & _ & _ & _ & _ & ->).
    now apply same_month_key.
  - unfold totalInMonth, totalBetween. rewrite !orZeroOf_selectSum. f_equal.
    symmetry. apply (filter_ext_Forall _ _ _ _ Hrows). intros r Hr.
    now apply month_range.
Qed.

(** X12. A range whose start lies after its end, in the order of text,
    totals 0 whatever the table holds. *)
Theorem totalBetween_reversed (st : store) (s e : string) :
  strLt e s -> totalBetween SUM st s e = 0%float.
Proof.
  intros Hes. unfold totalBetween. rewrite orZeroOf_selectSum.
  rewrite filter_none; [reflexivity|]. intros r _.
  destruct (String.leb s (date r) && String.leb (date r) e) eqn:E;
    [|reflexivity].
  exfalso. apply inRange_leb in E as [H1 H2].
  apply (strLe_trans _ _ _ H1 H2). now apply compare_gt_lt.
Qed.

End Months.

Lemma totalInMonth_is_the_calendar_month_witness :
  Forall (fun r => Js.datePattern (date r) = true) (rows seeded) /\
  totalInMonth leftToRight seeded "2025-07" = 87.25%float /\
  totalInMonth leftToRight seeded "2025-07"
    = totalBetween leftToRight seeded "2025-07-00" "2025-07-99".
Proof.
  assert (H : Forall (fun r => Js.datePattern (date r) = true) (rows seeded))
    by (repeat constructor).
  destruct (totalInMonth_is_the_calendar_month leftToRight seeded
              "2025-07-10" "2025-07" H eq_refl eq_refl) as (_ & _ & H2).
  split; [exact H|]. split; [reflexivity | exact H2].
Defined.

Lemma totalBetween_reversed_witness :
  strLt "2025-07-01" "2025-07-31" /\
  totalBetween leftToRight seeded "2025-07-31" "2025-07-01" = 0%float.
Proof.
  assert (H : strLt "2025-07-01" "2025-07-31") by reflexivity.
  split; [exact H|].
  exact (totalBetween_reversed leftToRight seeded "2025-07-31" "2025-07-01" H).
Defined.

End AssistantFacts.

(** ** GET /api/download *)

Module DownloadFacts.
Import Server Download.

Lemma append_assoc (a b c : string) : ((a ++ b) ++ c = a ++ (b ++ c))%string.
Proof. induction a as [|x a IH]; cbn; [reflexivity | now rewrite IH]. Qed.

Lemma append_empty (a : string) : (a ++ "")%string = a.
Proof. induction a as [|x a IH]; cbn; [reflexivity | now rewrite IH]. Qed.

Lemma snoc_append (a b : string) (c : ascii) :
  (snoc a c ++ b)%string = (a ++ String c b)%string.
Proof. unfold snoc. now rewrite append_assoc. Qed.

(** Reading what follows a field gives the same in both modes, but for
    the empty last line. *)
Lemma after_field (rest field : string) (record : list string) :
  ends rest -> (field <> EmptyString \/ record <> [] \/ rest <> EmptyString) ->
  readCsv rest Closing field record = readCsv rest Plain field record.
Proof.
  destruct rest as [|c rest]; cbn [ends readCsv].
  - intros _ [H|[H|H]]; [| |contradiction].
    + destruct field; [contradiction | reflexivity].
    + destruct field, record; try reflexivity. contradiction.
  - intros [-> | ->] _; reflexivity.
Qed.

Lemma read_plain (s rest acc : string) (record : list string) :
  includes comma s = false -> includes quote s = false ->
  includes newline s = false ->
  readCsv (s ++ rest) Plain acc record = readCsv rest Plain (acc ++ s) record.
Proof.
  revert acc. induction s as [|c s IH]; intros acc; cbn [includes String.append].
  - intros _ _ _. now rewrite append_empty.
  - rewrite !orb_false_iff. intros [C1 C2] [Q1 Q2] [N1 N2].
    cbn [readCsv]. rewrite C1, N1, Q1.
    rewrite IH by assumption. now rewrite snoc_append.
Qed.

Lemma read_quoted (s rest acc : string) (record : list string) :
  readCsv (doubleQuotes s ++ String quote rest) Quoted acc record
    = readCsv rest Closing (acc ++ s) record.
Proof.
  revert acc. induction s as [|c s IH]; intros acc; cbn [doubleQuotes String.append].
  - cbn [readCsv]. change (Ascii.eqb quote quote) with true.
    cbv iota. now rewrite append_empty.
  - destruct (Ascii.eqb c quote) eqn:E; cbn [String.append readCsv].
    + apply Ascii.eqb_eq in E. subst c.
      change (Ascii.eqb quote quote) with true.
      change (Ascii.eqb quote comma) with false.
      change (Ascii.eqb quote newline) with false.
      cbv iota. rewrite IH. now rewrite snoc_append.
    + rewrite E, IH. now rewrite snoc_append.
Qed.

(** An escaped field reads back as the text that was escaped. *)
Lemma read_escaped (s rest : string) (record : list string) :
  ends rest -> (record <> [] \/ rest <> EmptyString) ->
  readCsv (escapeCsv (Some s) ++ rest) Plain EmptyString record
    = readCsv rest Plain s record.
Proof.
  intros He Hne. unfold escapeCsv.
  destruct (includes comma s || includes quote s || includes newline s) eqn:E.
  - cbn [String.append readCsv].
    change (Ascii.eqb quote comma) with false.
    change (Ascii.eqb quote newline) with false.
    change (Ascii.eqb quote quote) with true. cbn [emptyText].
    rewrite append_assoc. cbn [String.append].
    rewrite read_quoted. cbn [String.append].
    apply after_field; [exact He | tauto].
  - rewrite !orb_false_iff in E. destruct E as [[C Q] N].
    now rewrite read_plain.
Qed.

Lemma read_record (cells : list string) (r : string) :
  forall record, cells <> [] -> (record <> [] \/ (2 <= List.length cells)%nat) ->
    readCsv (String.concat "," (map (fun v => escapeCsv (Some v)) cells)
             ++ String newline r) Plain EmptyString record
      = (record ++ cells) :: readCsv r Plain EmptyString [] /\
    readCsv (String.concat "," (map (fun v => escapeCsv (Some v)) cells))
            Plain EmptyString record
      = [record ++ cells].
Proof.
  induction cells as [|x [|y l] IH]; intros record Hne Hlen.
  - contradiction.
  - assert (Hr : record <> []) by (destruct Hlen as [H|H]; [exact H | cbn in H; lia]).
    cbn [map String.concat]. split.
    + rewrite read_escaped; [reflexivity | cbn; now right | now left].
    + rewrite <- (append_empty (escapeCsv (Some x))).
      rewrite read_escaped; [|exact I | now left].
      cbn [readCsv]. destruct x, record; try reflexivity. contradiction.
  - assert (Hnext : forall rest,
      readCsv (escapeCsv (Some x)
               ++ String comma (String.concat ","
                    (map (fun v => escapeCsv (Some v)) (y :: l)) ++ rest))
              Plain EmptyString record
        = readCsv (String.concat "," (map (fun v => escapeCsv (Some v)) (y :: l))
                   ++ rest) Plain EmptyString (record ++ [x])).
    { intros rest. rewrite read_escaped; [|cbn; now left | right; discriminate].
      cbn [readCsv]. change (Ascii.eqb comma comma) with true. reflexivity. }
    assert (Hrec : record ++ [x] <> []) by (destruct record; discriminate).
    destruct (IH (record ++ [x]) ltac:(discriminate) (or_introl Hrec)) as [IH1 IH2].
    change (String.concat "," (map (fun v => escapeCsv (Some v)) (x :: y :: l)))
      with (escapeCsv (Some x)
            ++ String comma (String.concat ","
                 (map (fun v => escapeCsv (Some v)) (y :: l))))%string.
    split.
    + rewrite append_assoc. cbn [String.append]. rewrite Hnext, IH1.
      now rewrite <- app_assoc.
    + specialize (Hnext EmptyString). rewrite append_empty in Hnext.
      rewrite Hnext, IH2. now rewrite <- app_assoc.
Qed.

Section Numbers.

Variable amountText : float -> string.

Lemma read_body (l : list row) :
  readCsv (String.concat (String newline EmptyString) (map (line amountText) l))
          Plain EmptyString []
    = map (cells amountText) l.
Proof.
  induction l as [|r [|r' l] IH].
  - reflexivity.
  - cbn [map String.concat]. unfold line.
    apply (read_record (cells amountText r) EmptyString []); [discriminate|].
    right. cbn. lia.
  - change (String.concat (String newline "") (map (line amountText) (r :: r' :: l)))
      with (line amountText r
            ++ String newline (String.concat (String newline "")
                                 (map (line amountText) (r' :: l))))%string.
    unfold line at 1.
    assert (Hne : cells amountText r <> []) by discriminate.
    assert (Hlen : ([] : list string) <> [] \/ (2 <= List.length (cells amountText r))%nat)
      by (right; cbn; lia).
    rewrite (proj1 (read_record (cells amountText r) _ [] Hne Hlen)).
    rewrite IH. reflexivity.
Qed.

(** X14. The downloaded text reads back, with a reader of comma-separated
    values, as the line of the five column names followed by one record
    of five texts for every row of the table, the later date first:
    commas, quotes and newlines inside a description or a category do not
    break the records. *)
Theorem download_reads_back (st : store) :
  exists l,
    readCsv (download amountText st) Plain EmptyString []
      = fields :: map (cells amountText) l /\
    Permutation l (rows st) /\
    StronglySorted (fun a b => strLe (date b) (date a)) l.
Proof.
  exists (sortBy dateDesc (rows st)). split; [|split].
  - unfold download.
    change (String.concat "," fields)
      with (String.concat "," (map (fun v => escapeCsv (Some v)) fields)).
    rewrite append_assoc. cbn [String.append].
    assert (Hne : fields <> []) by discriminate.
    assert (Hlen : ([] : list string) <> [] \/ (2 <= List.length fields)%nat)
      by (right; cbn; lia).
    rewrite (proj1 (read_record fields _ [] Hne Hlen)).
    rewrite read_body. reflexivity.
  - apply sortBy_perm.
  - eapply StronglySorted_weaken;
      [|apply (sortBy_sorted dateDesc (fun _ _ => True))].
    + intros a b _ _ [H _]. now apply TextFacts.leb_le.
    + intros a b _ _. unfold dateDesc. apply String.leb_total.
    + intros a b c _ _ _. unfold dateDesc. intros H1 H2.
      eapply AssistantFacts.leb_trans; eassumption.
    + apply ServerFacts.StronglySorted_True.
Qed.

End Numbers.

Lemma doubleQuotes_length (s : string) :
  (String.length s <= String.length (doubleQuotes s))%nat.
Proof.
  induction s as [|c s IH]; [reflexivity|].
  cbn [doubleQuotes]. destruct (Ascii.eqb c quote); cbn [String.length]; lia.
Qed.

Lemma append_length (a b : string) :
  String.length (a ++ b) = (String.length a + String.length b)%nat.
Proof. induction a as [|c a IH]; cbn; [reflexivity | now rewrite IH]. Qed.

(** X15. [escapeCsv] keeps two texts apart, writes [null] like the empty
    text, and leaves a text as it is exactly when the text has no comma,
    quote or newline. *)
Theorem escapeCsv_keeps_texts_apart (a b : string) :
  (escapeCsv (Some a) = escapeCsv (Some b) -> a = b) /\
  escapeCsv None = escapeCsv (Some EmptyString) /\
  (escapeCsv (Some a) = a
   <-> includes comma a = false /\ includes quote a = false
       /\ includes newline a = false).
Proof.
  split; [|split].
  - intros H.
    assert (Hr : [a] <> [] \/ EmptyString <> EmptyString) by (left; discriminate).
    pose proof (read_escaped a EmptyString [a] I Hr) as Ha.
    pose proof (read_escaped b EmptyString [a] I Hr) as Hb.
    rewrite append_empty in Ha, Hb. rewrite H, Hb in Ha.
    cbn [readCsv] in Ha.
    assert (E : [a] ++ [b] = [a] ++ [a]) by (destruct a, b; congruence).
    now injection E.
  - reflexivity.
  - unfold escapeCsv.
    destruct (includes comma a || includes quote a || includes newline a) eqn:E.
    + split.
      * intros H. apply (f_equal String.length) in H.
        cbn [String.length] in H. rewrite append_length in H.
        cbn [String.length] in H. pose proof (doubleQuotes_length a). lia.
      * intros (H1 & H2 & H3). rewrite H1, H2, H3 in E. discriminate.
    + rewrite !orb_false_iff in E. tauto.
Qed.

End DownloadFacts.

(** ** The monthly chart *)

Module DashboardFacts.
Import Js Client JsFacts ClientFacts Dashboard.

Lemma digitsValue_acc (u : Decimal.uint) (acc : positive) :
  digitsValue (NilEmpty.string_of_uint u) (N.pos acc)
    = Some (N.pos (Pos.of_uint_acc u acc)).
Proof.
  revert acc. induction u; intros acc;
    cbn [NilEmpty.string_of_uint digitsValue Pos.of_uint_acc];
    try reflexivity;
    (replace (isDigit _) with true by reflexivity); rewrite <- IHu; f_equal;
    match goal with
    | |- context [N_of_ascii ?c] =>
        let n := eval vm_compute in (N_of_ascii c) in
        change (N_of_ascii c) with n
    end; lia.
Qed.

Lemma digitsValue_uint (u : Decimal.uint) :
  digitsValue (NilEmpty.string_of_uint u) 0 = Some (Pos.of_uint u).
Proof.
  induction u; cbn [NilEmpty.string_of_uint digitsValue Pos.of_uint];
    try reflexivity;
    (replace (isDigit _) with true by reflexivity);
    [exact IHu | apply digitsValue_acc ..].
Qed.

(** [Number(String(n))] is [n] for an integer that is not negative. *)
Lemma toNumber_decimal (n : Z) : 0 <= n -> toNumber (decimal n) = Some n.
Proof.
  intros Hn. unfold toNumber, decimal.
  destruct n as [|p|p]; [reflexivity| |lia].
  cbn [Z.to_int NilZero.string_of_int]. unfold NilZero.string_of_uint.
  pose proof (DecimalPos.Unsigned.to_uint_nonnil p) as Hnil.
  pose proof (DecimalPos.Unsigned.of_to p) as Hp.
  destruct (Pos.to_uint p) eqn:E; try contradiction;
    rewrite digitsValue_uint, Hp; reflexivity.
Qed.

Lemma decimal_no_dash (n : Z) : 0 <= n -> hasDash (decimal n) = false.
Proof.
  intros Hn. apply allDigits_no_dash.
  pose proof (toNumber_decimal n Hn) as H. unfold toNumber in H.
  destruct (digitsValue (decimal n) 0) eqn:E; [|discriminate].
  eapply digitsValue_allDigits, E.
Qed.

Lemma splitAcc_plain (a rest cur : string) :
  hasDash a = false ->
  splitAcc "-" (a ++ rest) cur = splitAcc "-" rest (cur ++ a).
Proof.
  unfold hasDash. revert cur.
  induction a as [|c a IH]; intros cur;
    cbn [list_ascii_of_string existsb String.append].
  - intros _. f_equal. induction cur; cbn; congruence.
  - rewrite orb_false_iff. intros [Hc Ha]. cbn [splitAcc].
    rewrite Ascii.eqb_sym, Hc. rewrite IH by exact Ha. f_equal.
    clear. induction cur; cbn; congruence.
Qed.

Lemma splitAcc_last (a cur : string) :
  hasDash a = false -> splitAcc "-" a cur = [(cur ++ a)%string].
Proof.
  intros H. pose proof (splitAcc_plain a EmptyString cur H) as E.
  now rewrite DownloadFacts.append_empty in E.
Qed.

Lemma monthText_number (m : Z) :
  0 <= m < 12 ->
  hasDash (monthText m) = false /\ toNumber (monthText m) = Some (m + 1).
Proof.
  intros Hm.
  destruct (month_cases m Hm) as [->|[->|[->|[->|[->|[->|[->|[->|[->|[->|[->| ->]]]]]]]]]]];
    split; reflexivity.
Qed.

Section MonthlyChart.
Variable lenient : bool.
Variable behindUTC : Z -> Z -> Z -> bool.
Variable monthYear : Z -> Z -> string.

(** The label of the key of a month names that month; a year from 0 to
    99 is read as a year of the twentieth century. *)
Lemma prettyLabel_monthKey (y m : Z) :
  0 <= y -> 0 <= m < 12 ->
  prettyLabel monthYear (monthKey (Some (y, m)))
    = monthYear (if (0 <=? y) && (y <=? 99) then 1900 + y else y) m.
Proof.
  intros Hy Hm. unfold prettyLabel.
  rewrite monthKey_Some. unfold split.
  destruct (monthText_number m Hm) as [Hd Hn].
  rewrite splitAcc_plain by now apply decimal_no_dash.
  cbn [String.append splitAcc]. change (Ascii.eqb "-" "-") with true. cbv iota.
  rewrite splitAcc_last by exact Hd.
  cbn [String.append nth_error].
  rewrite toNumber_decimal by exact Hy. rewrite Hn.
  cbn [option_map newDate].
  replace (m + 1 - 1) with m by lia.
  rewrite Z.div_small, Z.mod_small by lia.
  now rewrite Z.add_0_r.
Qed.

Lemma nth_error_countdown (n i : nat) :
  (i < n)%nat -> nth_error (rev (seq 0 n)) i = Some (n - 1 - i)%nat.
Proof.
  revert i. induction n as [|n IH]; intros i Hi; [lia|].
  rewrite seq_S, rev_app_distr. cbn [rev app plus].
  destruct i as [|i]; cbn [nth_error].
  - f_equal. lia.
  - rewrite IH by lia. f_equal. lia.
Qed.

Lemma nth_error_window (y m : Z) (n i : nat) :
  (i < n)%nat ->
  nth_error (window y m n) i
    = Some (newDate (Some y) (Some (m - Z.of_nat (n - 1 - i)))).
Proof.
  intros Hi. unfold window.
  rewrite nth_error_map, nth_error_countdown by exact Hi. reflexivity.
Qed.

(** X16. [monthlyTotals] returns [monthsBack] labels and as many values,
    one bucket per month from [monthsBack - 1] months ago up to the
    current month; the value of a bucket is the sum of the amounts of the
    expenses that [new Date(e.date)] puts in its month, added as doubles
    from 0 in the order of the list, and its label names that month. *)
Theorem monthlyTotals_one_bucket_per_month
    (y m : Z) (es : list expense) (n : nat) :
  let s := monthlyTotals lenient behindUTC monthYear y m es n in
  List.length (labels s) = n /\ List.length (values s) = n /\
  forall i, (i < n)%nat -> exists yy mm,
    0 <= mm < 12 /\
    (y < 0 \/ 100 <= y -> yy * 12 + mm = y * 12 + m - Z.of_nat (n - 1 - i)) /\
    nth_error (values s) i
      = Some (Num (fold_left PrimFloat.add
                     (map amountOf
                        (filter (fun e => sameMonth
                                   (dateOfString lenient behindUTC (date e))
                                   (Some (yy, mm)))
                                es))
                     0%float)) /\
    (100 <= yy -> nth_error (labels s) i = Some (monthYear yy mm)).
Proof.
  cbv zeta. rewrite monthlyTotals_buckets. cbn [labels values].
  rewrite !length_map, window_length.
  split; [reflexivity|]. split; [reflexivity|].
  intros i Hi. rewrite !nth_error_map, (nth_error_window y m n i Hi).
  cbn [newDate option_map].
  set (k := m - Z.of_nat (n - 1 - i)).
  set (y' := if (0 <=? y) && (y <=? 99) then 1900 + y else y).
  exists (y' + k / 12), (k mod 12).
  pose proof (Z.mod_pos_bound k 12 ltac:(lia)) as Hmod.
  split; [exact Hmod|]. split; [|split].
  - intros Hy. assert (y' = y) as ->.
    { unfold y'. destruct ((0 <=? y) && (y <=? 99)) eqn:E; [|reflexivity].
      rewrite andb_true_iff, !Z.leb_le in E. lia. }
    pose proof (Z.div_mod k 12 ltac:(lia)). lia.
  - reflexivity.
  - intros Hyy. f_equal.
    rewrite prettyLabel_monthKey by lia.
    assert ((0 <=? y' + k / 12) && (y' + k / 12 <=? 99) = false) as ->.
    { rewrite andb_false_iff, !Z.leb_gt. lia. }
    reflexivity.
Qed.

End MonthlyChart.

(** A day past the end of its month: a lenient engine counts the
    expense in the month after, another engine drops it. *)
Example monthlyTotals_day_past_the_end :
  let e := mkExpense 8 "Rent" (Some 5%float) (Some "Home") "2025-02-30" in
  monthlyTotals true (fun _ _ _ => false) enUS 2025 2 [e] 2
    = mkSeries ["Feb 2025"; "Mar 2025"] [Num 0; Num 5] /\
  monthlyTotals false (fun _ _ _ => false) enUS 2025 2 [e] 2
    = mkSeries ["Feb 2025"; "Mar 2025"] [Num 0; Num 0] /\
  parseDate true "2025-02-29" = Some (2025, 3, 1).
Proof. repeat split. Qed.




End DashboardFacts.

(** ** The pages of the dashboard and of the chat *)

Module PageFacts.
Import Js Client NumberFacts Page.

Lemma shown_entity (c : ascii) (rest : string) :
  shown 0 (entity c ++ rest) = String c (shown 0 rest).
Proof.
  unfold entity.
  destruct (Ascii.eqb c "&") eqn:E1;
    [apply Ascii.eqb_eq in E1; subst c; reflexivity|].
  destruct (Ascii.eqb c "<") eqn:E2;
    [apply Ascii.eqb_eq in E2; subst c; reflexivity|].
  destruct (Ascii.eqb c ">") eqn:E3;
    [apply Ascii.eqb_eq in E3; subst c; reflexivity|].
  destruct (Ascii.eqb c "034") eqn:E4;
    [apply Ascii.eqb_eq in E4; subst c; reflexivity|].
  destruct (Ascii.eqb c "'") eqn:E5;
    [apply Ascii.eqb_eq in E5; subst c; reflexivity|].
  cbn [String.append shown]. now rewrite E1.
Qed.

Lemma entity_no_markup (c d : ascii) :
  In d (list_ascii_of_string (entity c)) -> markup d = false.
Proof.
  unfold entity.
  destruct (Ascii.eqb c "&") eqn:E1;
    [cbn; intros H; repeat (destruct H as [<-|H]; [reflexivity|]); contradiction|].
  destruct (Ascii.eqb c "<") eqn:E2;
    [cbn; intros H; repeat (destruct H as [<-|H]; [reflexivity|]); contradiction|].
  destruct (Ascii.eqb c ">") eqn:E3;
    [cbn; intros H; repeat (destruct H as [<-|H]; [reflexivity|]); contradiction|].
  destruct (Ascii.eqb c "034") eqn:E4;
    [cbn; intros H; repeat (destruct H as [<-|H]; [reflexivity|]); contradiction|].
  destruct (Ascii.eqb c "'") eqn:E5;
    [cbn; intros H; repeat (destruct H as [<-|H]; [reflexivity|]); contradiction|].
  cbn. intros [<-|[]]. unfold markup. now rewrite E2, E3, E4, E5.
Qed.

Lemma list_ascii_append (a b : string) :
  list_ascii_of_string (a ++ b)
    = (list_ascii_of_string a ++ list_ascii_of_string b)%list.
Proof. induction a as [|c a IH]; cbn; [reflexivity | now rewrite IH]. Qed.

(** X20. The text that [escapeHtml] returns holds no character that opens
    or closes a tag or an attribute value, and a browser shows it as the
    text that was escaped; so two texts are never escaped alike. *)
Theorem escapeHtml_is_shown_as_written (s t : string) :
  (forall c, In c (list_ascii_of_string (escapeHtml s)) -> markup c = false) /\
  shown 0 (escapeHtml s) = s /\
  (escapeHtml s = escapeHtml t -> s = t).
Proof.
  assert (Hshown : forall u, shown 0 (escapeHtml u) = u).
  { induction u as [|c u IH]; [reflexivity|].
    cbn [escapeHtml]. now rewrite shown_entity, IH. }
  split; [|split].
  - induction s as [|c s IH]; [intros c []|].
    intros d. cbn [escapeHtml]. rewrite list_ascii_append, in_app_iff.
    intros [H|H]; [now apply (entity_no_markup c) | now apply IH].
  - apply Hshown.
  - intros H. rewrite <- (Hshown s), <- (Hshown t). now rewrite H.
Qed.

(** *** computeKPIs *)

Section Totals.
Variable key : expense -> string.

Lemma totalBy_snoc (k : string) (l : list expense) (e : expense) :
  totalBy key k (l ++ [e])
    = if String.eqb (key e) k then (totalBy key k l + amountOf e)%float
      else totalBy key k l.
Proof.
  unfold totalBy, sumAmounts. rewrite filter_app. cbn [filter].
  destruct (String.eqb (key e) k).
  - rewrite map_app. cbn [map]. apply ClientFacts.addAll_snoc.
  - now rewrite app_nil_r.
Qed.

Lemma totalBy_nonneg (k : string) (l : list expense) :
  noneNegative l -> (0 <=? totalBy key k l)%float = true.
Proof.
  intros H. apply ClientFacts.sumAmounts_nonneg. intros e He.
  apply filter_In in He as [He _]. now apply H.
Qed.

(** The object that the loop builds, when no amount is negative: one
    own property per name met, holding the sum of the amounts under that
    name. *)
Lemma addTo_invariant (l : list expense) :
  (forall e, In e l -> inherited (key e) = false) ->
  noneNegative l ->
  let o := fold_left (addTo key) l [] in
  NoDup (map fst o) /\
  (forall k v, In (k, v) o <-> In k (map key l) /\ v = Num (totalBy key k l)).
Proof.
  induction l as [|e l IH] using rev_ind; intros Hproto Hpos.
  - cbn. split; [constructor|]. intros k v. tauto.
  - rewrite fold_left_app. cbn [fold_left].
    assert (Hpos' : noneNegative l).
    { intros x Hx. apply Hpos, in_or_app. now left. }
    destruct IH as (Hnd & Hin); [|exact Hpos'|].
    { intros x Hx. apply Hproto, in_or_app. now left. }
    set (o := fold_left (addTo key) l []) in *.
    assert (Hc : inherited (key e) = false).
    { apply Hproto, in_or_app. right. now left. }
    assert (Hnp : String.eqb (key e) "__proto__" = false).
    { apply String.eqb_neq. intros E. rewrite E in Hc. discriminate. }
    assert (Hkeys : forall k, In k (map key (l ++ [e])) <-> In k (map key l) \/ k = key e).
    { intros k. rewrite map_app, in_app_iff. cbn. intuition congruence. }
    unfold addTo, set, get.
    destruct (own o (key e)) as [v0|] eqn:Eo.
    + pose proof (JsFacts.own_Some_In _ _ _ Eo) as Hv0.
      pose proof (proj1 (Hin _ _) Hv0) as [Hk0 ->].
      cbn [orZeroPlus].
      rewrite (orZero_add (totalBy key (key e) l) (amountOf e)
                 (nonneg_not_nan _ (totalBy_nonneg _ _ Hpos'))
                 (ClientFacts.amountOf_not_negative_zero e)).
      split; [now rewrite JsFacts.replace_keys|].
      assert (Hnd' : NoDup (map fst (replace o (key e)
                                       (Num (totalBy key (key e) l + amountOf e)%float))))
        by now rewrite JsFacts.replace_keys.
      intros k v. rewrite Hkeys, totalBy_snoc. split.
      * intros H. apply (JsFacts.own_In _ _ _ Hnd') in H.
        rewrite (JsFacts.own_replace _ _ _ _ _ Eo) in H.
        destruct (String.eqb k (key e)) eqn:E.
        -- apply String.eqb_eq in E. subst k. injection H as <-.
           rewrite String.eqb_refl. auto.
        -- apply JsFacts.own_Some_In, Hin in H as [Hk ->].
           rewrite String.eqb_sym, E. split; [now left | reflexivity].
      * intros [Hk ->]. apply JsFacts.own_Some_In.
        rewrite (JsFacts.own_replace _ _ _ _ _ Eo).
        destruct (String.eqb k (key e)) eqn:E.
        -- apply String.eqb_eq in E. subst k. now rewrite String.eqb_refl.
        -- rewrite String.eqb_sym, E.
           apply JsFacts.own_In; [exact Hnd|]. apply Hin. split; [|reflexivity].
           destruct Hk as [Hk|Hk]; [exact Hk|]. subst k.
           now rewrite String.eqb_refl in E.
    + rewrite Hc, Hnp. cbn [orZeroPlus].
      pose proof (proj1 (JsFacts.own_None _ _) Eo) as Hnew.
      assert (Hnot : ~ In (key e) (map key l)).
      { intros Hk. apply Hnew.
        change (key e) with (fst (key e, Num (totalBy key (key e) l))).
        apply in_map. apply Hin. auto. }
      assert (Hzero : totalBy key (key e) l = 0%float).
      { clear - Hnot. unfold totalBy. induction l as [|x l IH]; [reflexivity|].
        cbn [filter]. destruct (String.eqb (key x) (key e)) eqn:E.
        - apply String.eqb_eq in E. exfalso. apply Hnot. left. exact E.
        - apply IH. intros H. apply Hnot. now right. }
      split.
      * rewrite map_app. cbn [map fst].
        apply NoDup_app; [exact Hnd | repeat constructor; tauto|].
        intros k Hk [<-|[]]. contradiction.
      * intros k v. rewrite Hkeys, totalBy_snoc, in_app_iff. cbn [In]. split.
        -- intros [H|[[= <- <-]|[]]].
           ++ apply Hin in H as [Hk ->]. split; [now left|].
              destruct (String.eqb (key e) k) eqn:E; [|reflexivity].
              apply String.eqb_eq in E. subst k. contradiction.
           ++ rewrite String.eqb_refl, Hzero. auto.
        -- intros [[Hk| ->] ->].
           ++ left. apply Hin. split; [exact Hk|].
              destruct (String.eqb (key e) k) eqn:E; [|reflexivity].
              apply String.eqb_eq in E. subst k. contradiction.
           ++ right. left. rewrite String.eqb_refl, Hzero. reflexivity.
Qed.

End Totals.

Lemma float_ltb_le (x y : float) :
  (x <? y)%float = true -> (x <=? y)%float = true.
Proof.
  intros H. destruct (float_ltb_nan _ _ H) as [Nx Ny].
  rewrite (float_ltb_leb _ _ Nx Ny) in H. apply negb_true_iff in H.
  destruct (float_leb_total _ _ Nx Ny) as [T|T]; [exact T | congruence].
Qed.

Lemma float_ltb_leb_trans (x y z : float) :
  (x <? y)%float = true -> (y <=? z)%float = true -> (x <? z)%float = true.
Proof.
  intros H1 H2. destruct (float_ltb_nan _ _ H1) as [Nx Ny].
  destruct (float_leb_nan _ _ H2) as [_ Nz].
  rewrite (float_ltb_leb _ _ Nx Nz). apply negb_true_iff.
  destruct (z <=? x)%float eqn:E; [|reflexivity].
  rewrite (float_ltb_leb _ _ Nx Ny) in H1. apply negb_true_iff in H1.
  rewrite (float_leb_trans _ _ _ H2 E) in H1. discriminate.
Qed.

Lemma pickTop_fold (l : list (string * value)) (k0 : string) (t0 : float) :
  is_nan t0 = false ->
  (forall p, In p l -> snd p = Num (numberOf (snd p)) /\
                       is_nan (numberOf (snd p)) = false) ->
  let top := fold_left pickTop l (k0, t0) in
  (t0 <=? snd top)%float = true /\
  (forall p, In p l -> (numberOf (snd p) <=? snd top)%float = true) /\
  (top = (k0, t0) \/
   ((t0 <? snd top)%float = true /\ In (fst top, Num (snd top)) l)).
Proof.
  revert k0 t0. induction l as [|[c v] l IH]; intros k0 t0 Ht Hnum.
  - cbn. split; [now apply float_leb_refl|]. split; [tauto | now left].
  - cbn [fold_left].
    destruct (Hnum (c, v) (in_eq _ _)) as [Hv Nv]. cbn [snd] in Hv, Nv.
    assert (Hl : forall p, In p l -> snd p = Num (numberOf (snd p)) /\
                                     is_nan (numberOf (snd p)) = false).
    { intros p Hp. apply Hnum. now right. }
    destruct v as [|z| |]; try discriminate Hv. clear Hv. cbn [numberOf] in Nv.
    cbv zeta.
    change (pickTop (k0, t0) (c, Num z))
      with (if (t0 <? z)%float then (c, z) else (k0, t0)).
    destruct (t0 <? z)%float eqn:E.
    + destruct (IH c z Nv Hl) as (H1 & H2 & H3). cbv zeta in *.
      split; [exact (float_leb_trans _ _ _ (float_ltb_le _ _ E) H1)|]. split.
      * intros p [<-|Hp]; [exact H1 | now apply H2].
      * right. destruct H3 as [-> | [H3 H4]].
        -- cbn [fst snd]. split; [exact E | now left].
        -- split; [|now right].
           exact (float_ltb_leb_trans _ _ _ E H1).
    + rewrite (float_ltb_leb _ _ Ht Nv) in E. apply negb_false_iff in E.
      destruct (IH k0 t0 Ht Hl) as (H1 & H2 & H3). cbv zeta in *.
      split; [exact H1|]. split.
      * intros p [<-|Hp]; [|now apply H2].
        cbn [snd numberOf]. exact (float_leb_trans _ _ _ E H1).
      * destruct H3 as [H3 | [H3 H4]]; [now left | right].
        split; [exact H3 | now right].
Qed.

Section Kpis.
Variable lenient : bool.
Variable behindUTC : Z -> Z -> Z -> bool.
Variables thisYear thisMonth : Z.

Lemma addExpense_fold (es : list expense) (s0 : sums) :
  let s := fold_left (addExpense lenient behindUTC thisYear thisMonth) es s0 in
  s_totalThisMonth s
    = fold_left PrimFloat.add
        (map amountOf
           (filter (fun e => sameMonth (dateOfString lenient behindUTC (date e))
                                       (Some (thisYear, thisMonth)))
                   es))
        (s_totalThisMonth s0) /\
  s_balanceAll s = fold_left PrimFloat.add (map amountOf es) (s_balanceAll s0) /\
  s_categoryTotals s = fold_left (addTo categoryKey) es (s_categoryTotals s0).
Proof.
  revert s0. induction es as [|e es IH]; intros s0.
  - cbn. repeat split.
  - cbn [fold_left].
    destruct (IH (addExpense lenient behindUTC thisYear thisMonth s0 e))
      as (H1 & H2 & H3). cbv zeta in *.
    rewrite H1, H2, H3.
    cbn [addExpense s_totalThisMonth s_balanceAll s_categoryTotals filter map
         fold_left].
    destruct (sameMonth (dateOfString lenient behindUTC (date e))
                        (Some (thisYear, thisMonth)));
      repeat split.
Qed.

(** X21. Of [computeKPIs], [balanceAll] is the sum of all amounts and
    [totalThisMonth] the sum of the amounts of the expenses that
    [new Date(e.date)] puts in the current month, both added as doubles
    from 0 in the order of the list; the latter is the last value of
    [monthlyTotals]: the figure and the chart agree. *)
Theorem computeKPIs_this_month_is_the_last_bucket
    (monthYear : Z -> Z -> string) (es : list expense) (n : nat) :
  100 <= thisYear -> 0 <= thisMonth < 12 ->
  let k := computeKPIs lenient behindUTC thisYear thisMonth es in
  balanceAll k = fold_left PrimFloat.add (map amountOf es) 0%float /\
  totalThisMonth k
    = fold_left PrimFloat.add
        (map amountOf
           (filter (fun e => sameMonth (dateOfString lenient behindUTC (date e))
                                       (Some (thisYear, thisMonth)))
                   es))
        0%float /\
  nth_error (values (monthlyTotals lenient behindUTC monthYear
                       thisYear thisMonth es (S n))) n
    = Some (Num (totalThisMonth k)).
Proof.
  intros Hy Hm. cbv zeta. unfold computeKPIs. cbn [balanceAll totalThisMonth].
  destruct (addExpense_fold es (mkSums 0 0 [] [])) as (H1 & H2 & _).
  cbv zeta in *. cbn [s_totalThisMonth s_balanceAll] in *.
  rewrite H1, H2. split; [reflexivity|]. split; [reflexivity|].
  rewrite ClientFacts.monthlyTotals_buckets. cbn [values].
  rewrite nth_error_map, DashboardFacts.nth_error_window by lia.
  replace (S n - 1 - n)%nat with 0%nat by lia.
  cbn [option_map newDate Z.of_nat].
  assert ((0 <=? thisYear) && (thisYear <=? 99) = false) as ->.
  { rewrite andb_false_iff, !Z.leb_gt. lia. }
  rewrite Z.sub_0_r, Z.div_small, Z.mod_small, Z.add_0_r by lia.
  reflexivity.
Qed.

(** X22. Away from the property names of [Object.prototype] and from
    negative amounts, [topSum] of [computeKPIs] is the largest sum of a
    category when that is above 0, with [topCat] a category of that sum;
    otherwise [topSum] is 0 and [topCat] the dash. The sum of a category
    adds its amounts as doubles from 0 in the order of the list. *)
Theorem computeKPIs_top_category (es : list expense) :
  (forall e, In e es -> inherited (categoryKey e) = false) ->
  noneNegative es ->
  let k := computeKPIs lenient behindUTC thisYear thisMonth es in
  (0 <=? topSum k)%float = true /\
  (forall e, In e es ->
     (totalBy categoryKey (categoryKey e) es <=? topSum k)%float = true) /\
  ((0 <? topSum k)%float = true ->
   In (topCat k) (map categoryKey es) /\
   totalBy categoryKey (topCat k) es = topSum k) /\
  (topSum k = 0%float -> topCat k = dash).
Proof.
  intros Hproto Hpos. cbv zeta. unfold computeKPIs. cbn [topSum topCat].
  destruct (addExpense_fold es (mkSums 0 0 [] [])) as (_ & _ & H3).
  cbv zeta in H3. cbn [s_categoryTotals] in H3. rewrite H3.
  destruct (addTo_invariant categoryKey es Hproto Hpos) as (Hnd & Hin).
  set (o := fold_left (addTo categoryKey) es []) in *.
  assert (Hent : forall p, In p (entries o) <-> In p o).
  { intros p. unfold entries.
    split; apply Permutation_in;
      [apply JsFacts.ownEntries_perm | apply Permutation_sym, JsFacts.ownEntries_perm]. }
  assert (Hnum : forall p, In p (entries o) ->
                           snd p = Num (numberOf (snd p)) /\
                           is_nan (numberOf (snd p)) = false).
  { intros [c v] Hp. apply Hent, Hin in Hp as [_ ->]. split; [reflexivity|].
    cbn [snd numberOf]. apply nonneg_not_nan, totalBy_nonneg, Hpos. }
  destruct (pickTop_fold (entries o) dash 0%float eq_refl Hnum) as (T1 & T2 & T3).
  cbv zeta in *.
  set (top := fold_left pickTop (entries o) (dash, 0%float)) in *.
  split; [exact T1|]. split; [|split].
  - intros e He.
    assert (In (categoryKey e, Num (totalBy categoryKey (categoryKey e) es)) (entries o)) as Hp.
    { apply Hent, Hin. split; [now apply in_map | reflexivity]. }
    apply T2 in Hp. exact Hp.
  - intros Hgt. destruct T3 as [T3 | [_ T3]].
    + rewrite T3 in Hgt. cbn in Hgt. discriminate.
    + apply Hent, Hin in T3 as [Hk Hv]. split; [exact Hk|]. congruence.
  - intros Hz. destruct T3 as [-> | [T3 _]]; [reflexivity|].
    rewrite Hz in T3. discriminate.
Qed.

End Kpis.

Lemma computeKPIs_this_month_is_the_last_bucket_witness :
  let k := computeKPIs true (fun _ _ _ => false) 2025 6 july in
  balanceAll k = 87.25%float /\ totalThisMonth k = 87.25%float /\
  nth_error (values (monthlyTotals true (fun _ _ _ => false) enUS 2025 6 july 3)) 2
    = Some (Num (totalThisMonth k)).
Proof.
  exact (computeKPIs_this_month_is_the_last_bucket true (fun _ _ _ => false)
           2025 6 enUS july 2 ltac:(lia) ltac:(lia)).
Defined.

Lemma computeKPIs_top_category_witness :
  let k := computeKPIs true (fun _ _ _ => false) 2025 6 july in
  (forall e, In e july -> inherited (categoryKey e) = false) /\
  noneNegative july /\
  topCat k = "Utilities" /\ topSum k = 60%float /\
  (forall e, In e july ->
     (totalBy categoryKey (categoryKey e) july <=? topSum k)%float = true).
Proof.
  assert (H : forall e, In e july -> inherited (categoryKey e) = false).
  { intros e [<-|[<-|[<-|[]]]]; reflexivity. }
  assert (P : noneNegative july).
  { intros e [<-|[<-|[<-|[]]]]; reflexivity. }
  split; [exact H|]. split; [exact P|]. split; [reflexivity|].
  split; [reflexivity|].
  exact (proj1 (proj2 (computeKPIs_top_category true (fun _ _ _ => false)
                          2025 6 july H P))).
Defined.

End PageFacts.
